(** * Lookup-free quantization (LFQ): the model and its verified properties

    A shallow embedding of [vector_quantization/lookup_free_quantization.py]
    (class [LFQ]: [__init__], [bits_to_codes], [indices_to_codes], [forward])
    and of [utils/losses.py] ([l2norm]) and [utils/kmeans.py]
    ([batched_bincount]).

    Tensors are row-major: a shape and the flat list of elements.  The element
    type is a parameter ([ScalarOps]) with two instances: IEEE-754 binary32
    (torch's float32, built on the Standard Library's [SpecFloat]) and the
    exact reals.  Integer tensors are [Z] with the wrap-around of [.int()]
    (int32) and of int64 written out. *)

From Stdlib Require Import ZArith List Bool Lia Arith.
From Stdlib Require Import Permutation.
From Stdlib Require Import Floats.SpecFloat.
From Stdlib Require Import Reals Lra.
Import ListNotations.

Set Implicit Arguments.

(* ================================================================== *)
(** ** Results of fallible code *)

Inductive assert_msg : Type :=
| MsgDimOrCodebookSize
    (* "either dim or codebook_size must be specified for LFQ" *)
| MsgPowerOfTwo (suggested : Z)
    (* "your codebook size must be a power of 2 ... (suggested N)" *)
| MsgKeepNumCodebooksDim
| MsgFracPerSampleEntropy
| MsgSoftClamp
| MsgExpectedDimension (expected received : nat).

Inductive error : Type :=
| AssertionError (msg : assert_msg)
| ValueError        (* math domain error of [log2] *)
| EinopsError       (* a pattern of rearrange / pack / unpack does not fit *)
| RuntimeError      (* shapes that do not broadcast *)
| IndexError.       (* a boolean mask of the wrong shape *)

Inductive result (A : Type) : Type :=
| Ok (a : A)
| Err (e : error).
Arguments Ok {A} a.
Arguments Err {A} e.

Definition bind {A B} (r : result A) (k : A -> result B) : result B :=
  match r with
  | Ok a => k a
  | Err e => Err e
  end.

Declare Scope result_scope.
Delimit Scope result_scope with result.
Notation "x <- r ;; k" := (bind r (fun x => k))
  (at level 61, r at next level, right associativity) : result_scope.
Notation "' p <- r ;; k" := (bind r (fun x => let p := x in k))
  (at level 61, p pattern, r at next level, right associativity) : result_scope.

Definition assert_ (b : bool) (msg : assert_msg) : result unit :=
  if b then Ok tt else Err (AssertionError msg).

Definition guard (b : bool) (e : error) : result unit :=
  if b then Ok tt else Err e.

(* ================================================================== *)
(** ** Machine integers: [.int()] is int32, index arithmetic is int64 *)

Definition wrap_signed (w : Z) (z : Z) : Z :=
  ((z + 2 ^ (w - 1)) mod 2 ^ w - 2 ^ (w - 1))%Z.

Definition int32 (z : Z) : Z := wrap_signed 32 z.
Definition int64 (z : Z) : Z := wrap_signed 64 z.

(* ================================================================== *)
(** ** Tensor elements *)

(** The operations torch applies to the elements of a floating tensor. *)
Record ScalarOps (T : Type) : Type := mkScalarOps {
  zero : T;
  one : T;
  add : T -> T -> T;
  sub : T -> T -> T;
  mul : T -> T -> T;
  div : T -> T -> T;
  neg : T -> T;
  gt : T -> T -> bool;          (* [gt a b] is [a > b] *)
  ge : T -> T -> bool;          (* [ge a b] is [a >= b] *)
  of_int : Z -> T;              (* an integer promoted to the element type *)
  sqrt : T -> T;
  exp : T -> T;
  tanh : T -> T;
  softplus : T -> T;
  normalize_eps : T             (* the [eps=1e-12] of [F.normalize] *)
}.

(** torch's float32: binary32 of IEEE 754, round to nearest even. *)
Module Binary32.
Definition prec : Z := 24.
Definition emax : Z := 128.

Definition of_Z (z : Z) : spec_float := binary_normalize prec emax z 0 false.

Definition pzero : spec_float := S754_zero false.
Definition pone : spec_float := Eval vm_compute in of_Z 1.

(** 1e-12 rounded to binary32 (bit pattern 0x2B8CBCCC). *)
Definition eps12 : spec_float := S754_finite false 9223372 (-63).

Definition is_finite (x : spec_float) : bool :=
  match x with
  | S754_zero _ | S754_finite _ _ _ => true
  | _ => false
  end.

Definition is_zero (x : spec_float) : bool :=
  match x with
  | S754_zero _ => true
  | _ => false
  end.

(** [SpecFloat] has no transcendental functions: they are parameters. *)
Definition ops (fexp ftanh fsoftplus : spec_float -> spec_float)
  : ScalarOps spec_float :=
  {| zero := pzero;
     one := pone;
     add := SFadd prec emax;
     sub := SFsub prec emax;
     mul := SFmul prec emax;
     div := SFdiv prec emax;
     neg := SFopp;
     gt := fun a b => SFltb b a;
     ge := fun a b => SFleb b a;
     of_int := of_Z;
     sqrt := SFsqrt prec emax;
     exp := fexp;
     tanh := ftanh;
     softplus := fsoftplus;
     normalize_eps := eps12 |}.
End Binary32.

(** Python's [float]: binary64, used for [frac_per_sample_entropy]. *)
Module Binary64.
Definition prec : Z := 53.
Definition emax : Z := 1024.

Definition of_Z (z : Z) : spec_float := binary_normalize prec emax z 0 false.
Definition mul : spec_float -> spec_float -> spec_float := SFmul prec emax.
Definition ltb (a b : spec_float) : bool := SFltb a b.
Definition leb (a b : spec_float) : bool := SFleb a b.

Definition fone : spec_float := Eval vm_compute in of_Z 1.
Definition fzero : spec_float := S754_zero false.

(** [int(f)]: truncation toward zero; [None] where Python raises
    (infinities and NaN). *)
Definition to_int (f : spec_float) : option Z :=
  match f with
  | S754_zero _ => Some 0%Z
  | S754_finite s m e =>
      let a := match e with
               | Zneg p => (Zpos m / 2 ^ Zpos p)%Z
               | _ => (Zpos m * 2 ^ e)%Z
               end in
      Some (if s then (- a)%Z else a)
  | _ => None
  end.
End Binary64.

(** Exact arithmetic: the reals. *)
Module ExactR.
Definition ops : ScalarOps R :=
  {| zero := 0%R;
     one := 1%R;
     add := Rplus;
     sub := Rminus;
     mul := Rmult;
     div := Rdiv;
     neg := Ropp;
     gt := fun a b => if Rlt_dec b a then true else false;
     ge := fun a b => if Rle_dec b a then true else false;
     of_int := IZR;
     sqrt := R_sqrt.sqrt;
     exp := Rtrigo_def.exp;
     tanh := Rtrigo_def.tanh;
     softplus := fun x => ln (1 + Rtrigo_def.exp x);
     normalize_eps := (/ 1000000000000)%R |}.
End ExactR.

(* ================================================================== *)
(** ** Row-major tensors and the einops patterns of the source *)

Record tensor (A : Type) : Type := mkTensor {
  shape : list nat;
  data : list A
}.

Definition numel (s : list nat) : nat := fold_right Nat.mul 1 s.

Definition well_shaped {A} (t : tensor A) : Prop :=
  length (data t) = numel (shape t).

(** [k] consecutive blocks of [size] elements. *)
Fixpoint chunks {A} (k size : nat) (l : list A) : list (list A) :=
  match k with
  | O => []
  | S k' => firstn size l :: chunks k' size (skipn size l)
  end.

(** The flat data of an [r] x [c] matrix, transposed. *)
Definition transpose2 {A} (r c : nat) (l : list A) : list A :=
  flat_map (fun j =>
    flat_map (fun i =>
      match nth_error l (i * c + j) with
      | Some v => [v]
      | None => []
      end) (seq 0 r)) (seq 0 c).

(** [rearrange(x, "b d ... -> b ... d")] *)
Definition channel_last {A} (x : tensor A) : result (tensor A) :=
  match shape x with
  | b :: d :: rest =>
      Ok {| shape := b :: rest ++ [d];
            data := concat (map (transpose2 d (numel rest))
                              (chunks b (d * numel rest) (data x))) |}
  | _ => Err EinopsError
  end.

(** [rearrange(x, "b ... d -> b d ...")] *)
Definition channel_first_layout {A} (x : tensor A) : result (tensor A) :=
  match shape x with
  | b :: (_ :: _) as rest =>
      let d := last rest 0 in
      let mid := removelast rest in
      Ok {| shape := b :: d :: mid;
            data := concat (map (transpose2 (numel mid) d)
                              (chunks b (numel mid * d) (data x))) |}
  | _ => Err EinopsError
  end.

(** [pack([x], "b * d")]: the packed tensor and the packed shape [ps]. *)
Definition pack_one {A} (x : tensor A) : result (tensor A * list nat) :=
  match shape x with
  | b :: (_ :: _) as rest =>
      let d := last rest 0 in
      let mid := removelast rest in
      Ok ({| shape := [b; numel mid; d]; data := data x |}, mid)
  | _ => Err EinopsError
  end.

(** Modelled from the spec: [unpack_one] of [utils/general.py], which is not
    among the sources; "symmetric pack/unpack, shape metadata captured at
    pack time and required at unpack time". *)
Definition unpack_one {A} (x : tensor A) (ps : list nat) : result (tensor A) :=
  match shape x with
  | [b; n; d] =>
      if n =? numel ps
      then Ok {| shape := b :: ps ++ [d]; data := data x |}
      else Err EinopsError
  | _ => Err EinopsError
  end.

(** [t[mask]] along the leading axes: the blocks whose mask entry is True. *)
Fixpoint select {A} (m : list bool) (l : list A) : list A :=
  match m, l with
  | b :: m', a :: l' => if b then a :: select m' l' else select m' l'
  | _, _ => []
  end.

Fixpoint mapM {A B} (f : A -> result B) (l : list A) : result (list B) :=
  match l with
  | [] => Ok []
  | a :: r =>
      match f a with
      | Ok b => match mapM f r with
                | Ok bs => Ok (b :: bs)
                | Err e => Err e
                end
      | Err e => Err e
      end
  end.

(** Elementwise binary operation with torch's broadcasting of a size-one
    axis. *)
Definition broadcast2 {A B C} (f : A -> B -> C) (l1 : list A) (l2 : list B)
  : result (list C) :=
  if length l1 =? length l2 then Ok (map (fun p => f (fst p) (snd p)) (combine l1 l2))
  else match l1, l2 with
       | [a], _ => Ok (map (f a) l2)
       | _, [b] => Ok (map (fun a => f a b) l1)
       | _, _ => Err RuntimeError
       end.

(** [math.log2(n).is_integer()], [ceil(math.log2(n))] and
    [int(math.log2(n))] for a positive integer, with the logarithm taken
    exactly.  [math.log2] answers in binary64: the two agree for [n] below
    2^47, where the logarithm of an integer that is not a power of two is
    more than one unit in the last place away from every integer; from
    2^49 - 1 on, binary64 rounds the logarithm of the neighbours of a power
    of two to an integer.  The properties that depend on the test for a
    size that is not a power of two are stated below 2^47. *)
Definition log2_is_integer (n : Z) : bool := (n =? 2 ^ Z.log2 n)%Z.
Definition ceil_log2 (n : Z) : Z := Z.log2_up n.
Definition int_log2 (n : Z) : Z := Z.log2 n.

(* ================================================================== *)
(** ** The module: [CosineSimLinear], [LFQ] *)

Section LFQ.
Variable T : Type.
Variable ops : ScalarOps T.

(** Helpers of [utils/general.py] and [utils/distributed.py], which are not
    among the sources, taken as parameters: [entropy] acts on the last
    axis, [maybe_distributed_mean] is the injected reduction hook. *)
Variable entropy : list T -> T.
Variable maybe_distributed_mean : list (list T) -> list (list T).

Local Abbreviation zeroT := (zero ops).
Local Abbreviation oneT := (one ops).
Local Infix "+" := (add ops).
Local Infix "-" := (sub ops).
Local Infix "*" := (mul ops).
Local Infix "/" := (div ops).
Local Notation "- x" := (neg ops x).
Local Infix ">" := (gt ops).
Local Infix ">=" := (ge ops).

Definition of_bool (b : bool) : T := if b then oneT else zeroT.

Definition sum (l : list T) : T := fold_left (add ops) l zeroT.

Definition mean (l : list T) : T :=
  sum l / of_int ops (Z.of_nat (length l)).

Definition dot (x y : list T) : T :=
  sum (map (fun p => fst p * snd p) (combine x y)).

Definition clamp_min (x m : T) : T := if m > x then m else x.

(** [utils/losses.py]: [F.normalize(t, p=2, dim=-1)], on one vector of the
    last axis.  The squares are added from left to right; in float32 the
    kernel of torch may add them in another order, which can change the
    last bit of the norm. *)
Definition l2norm (t : list T) : list T :=
  let denom :=
    clamp_min (sqrt ops (sum (map (fun v => v * v) t))) (normalize_eps ops) in
  map (fun v => v / denom) t.

Definition list_max (l : list T) : T :=
  match l with
  | [] => zeroT
  | a :: r => fold_left (fun acc v => if v > acc then v else acc) r a
  end.

(** [t.softmax(dim=-1)] on one vector of the last axis. *)
Definition softmax (l : list T) : list T :=
  let m := list_max l in
  let e := map (fun z => exp ops (z - m)) l in
  let s := sum e in
  map (fun v => v / s) e.

(** [nn.Identity], [nn.Linear] (weight of shape (out, in)) and
    [CosineSimLinear] (weight of shape (dim_in, dim_out)), applied to one
    vector of the last axis. *)
Inductive module : Type :=
| Identity
| Linear (in_features out_features : nat)
         (weight : list (list T)) (bias : option (list T))
| CosineSimLinear (dim_in dim_out : nat) (scale : T) (weight : list (list T)).

Definition column (j : nat) (w : list (list T)) : list T :=
  map (fun row => nth j row zeroT) w.

Definition apply_module (m : module) (x : list T) : list T :=
  match m with
  | Identity => x
  | Linear _ out_features weight bias =>
      map (fun j =>
             let y := dot x (nth j weight []) in
             match bias with
             | Some b => y + nth j b zeroT
             | None => y
             end) (seq 0 out_features)
  | CosineSimLinear _ dim_out scale weight =>
      let x := l2norm x in
      map (fun j => dot x (l2norm (column j weight)) * scale) (seq 0 dim_out)
  end.

(** Size of the last axis after [m], given the size before. *)
Definition out_size (m : module) (n : nat) : nat :=
  match m with
  | Identity => n
  | Linear _ out_features _ _ => out_features
  | CosineSimLinear _ dim_out _ _ => dim_out
  end.

(** The keyword arguments of [LFQ.__init__]. *)
Record LFQ_args : Type := mkArgs {
  a_dim : option nat;
  a_codebook_size : option Z;
  a_entropy_loss_weight : T;
  a_commitment_loss_weight : T;
  a_diversity_gamma : T;
  a_straight_through_activation : T -> T;
  a_num_codebooks : nat;
  a_keep_num_codebooks_dim : option bool;
  a_codebook_scale : T;
  a_frac_per_sample_entropy : spec_float;
  a_has_projections : option bool;
  a_projection_has_bias : bool;
  a_soft_clamp_input_value : option T;
  a_cosine_sim_project_in : bool;
  a_cosine_sim_project_in_scale : option T;
  a_channel_first : bool;
  a_experimental_softplus_entropy_loss : bool;
  a_entropy_loss_offset : T;
  a_spherical : bool
}.

(** The values the layers of the projections are initialised with. *)
Record init_weights : Type := mkInit {
  in_weight : nat -> nat -> T;
  in_bias : nat -> T;
  out_weight : nat -> nat -> T;
  out_bias : nat -> T
}.

Definition tabulate2 (r c : nat) (f : nat -> nat -> T) : list (list T) :=
  map (fun i => map (f i) (seq 0 c)) (seq 0 r).

Definition new_Linear (in_features out_features : nat) (has_bias : bool)
           (w : nat -> nat -> T) (b : nat -> T) : module :=
  Linear in_features out_features
         (tabulate2 out_features in_features w)
         (if has_bias then Some (map b (seq 0 out_features)) else None).

Definition new_CosineSimLinear (dim_in dim_out : nat) (scale : T)
           (w : nat -> nat -> T) : module :=
  CosineSimLinear dim_in dim_out scale (tabulate2 dim_in dim_out w).

(** The attributes and buffers of an [LFQ] instance. *)
Record LFQ : Type := mkLFQ {
  codebook_size : Z;
  project_in : module;
  project_out : module;
  has_projections : bool;
  dim : nat;
  codebook_dim : nat;
  num_codebooks : nat;
  keep_num_codebooks_dim : bool;
  channel_first : bool;
  activation : T -> T;
  spherical : bool;
  frac_per_sample_entropy : spec_float;
  diversity_gamma : T;
  entropy_loss_weight : T;
  codebook_scale : T;
  commitment_loss_weight : T;
  soft_clamp_input_value : option T;
  entropy_loss_offset : T;
  experimental_softplus_entropy_loss : bool;
  mask : list Z;
  zero_buffer : T;
  codebook : list (list T)
}.

(** [bits * self.codebook_scale * 2 - self.codebook_scale], on one
    element. *)
Definition bits_to_codes_at (scale : T) (bit : T) : T :=
  bit * scale * of_int ops 2 - scale.

(** [((i[..., None].int() & mask) != 0).float()] for one index [i]. *)
Definition index_bits (msk : list Z) (i : Z) : list T :=
  map (fun m => of_bool (negb (Z.land (int32 i) m =? 0)%Z)) msk.

(** [2 ** torch.arange(codebook_dim - 1, -1, -1)], an int64 tensor. *)
Definition make_mask (codebook_dim : nat) : list Z :=
  map (fun k => int64 (2 ^ Z.of_nat k)) (rev (seq 0 codebook_dim)).

Definition arange (n : Z) : list Z := map Z.of_nat (seq 0 (Z.to_nat n)).

Definition LFQ_init (a : LFQ_args) (w : init_weights) : result LFQ :=
  (_ <- assert_ (match a_dim a, a_codebook_size a with
                 | None, None => false
                 | _, _ => true
                 end) MsgDimOrCodebookSize ;;
   _ <- match a_codebook_size a with
        | None => Ok tt
        | Some n =>
            _ <- guard (0 <? n)%Z ValueError ;;
            assert_ (log2_is_integer n) (MsgPowerOfTwo (2 ^ ceil_log2 n))
        end ;;
   let codebook_size :=
     match a_codebook_size a, a_dim a with
     | Some n, _ => n
     | None, Some d => (2 ^ Z.of_nat d)%Z
     | None, None => 0%Z
     end in
   let codebook_dim := Z.to_nat (int_log2 codebook_size) in
   let codebook_dims := (codebook_dim * a_num_codebooks a)%nat in
   let dim := match a_dim a with Some d => d | None => codebook_dims end in
   let has_projections :=
     match a_has_projections a with
     | Some h => h
     | None => negb (dim =? codebook_dims)
     end in
   let project_in :=
     if has_projections then
       if a_cosine_sim_project_in a
       then new_CosineSimLinear dim codebook_dims (of_bool true) (in_weight w)
       else new_Linear dim codebook_dims (a_projection_has_bias a)
                       (in_weight w) (in_bias w)
     else Identity in
   let project_out :=
     if has_projections
     then new_Linear codebook_dims dim (a_projection_has_bias a)
                     (out_weight w) (out_bias w)
     else Identity in
   let keep_num_codebooks_dim :=
     match a_keep_num_codebooks_dim a with
     | Some k => k
     | None => (1 <? a_num_codebooks a)
     end in
   _ <- assert_ (negb ((1 <? a_num_codebooks a) && negb keep_num_codebooks_dim))
                MsgKeepNumCodebooksDim ;;
   _ <- assert_ (Binary64.ltb Binary64.fzero (a_frac_per_sample_entropy a)
                 && Binary64.leb (a_frac_per_sample_entropy a) Binary64.fone)
                MsgFracPerSampleEntropy ;;
   _ <- assert_ (match a_soft_clamp_input_value a with
                 | None => true
                 | Some v => v >= a_codebook_scale a
                 end) MsgSoftClamp ;;
   let mask := make_mask codebook_dim in
   let all_codes := arange codebook_size in
   let bits := map (index_bits mask) all_codes in
   let codebook := map (map (bits_to_codes_at (a_codebook_scale a))) bits in
   Ok {| codebook_size := codebook_size;
         project_in := project_in;
         project_out := project_out;
         has_projections := has_projections;
         dim := dim;
         codebook_dim := codebook_dim;
         num_codebooks := a_num_codebooks a;
         keep_num_codebooks_dim := keep_num_codebooks_dim;
         channel_first := a_channel_first a;
         activation := a_straight_through_activation a;
         spherical := a_spherical a;
         frac_per_sample_entropy := a_frac_per_sample_entropy a;
         diversity_gamma := a_diversity_gamma a;
         entropy_loss_weight := a_entropy_loss_weight a;
         codebook_scale := a_codebook_scale a;
         commitment_loss_weight := a_commitment_loss_weight a;
         soft_clamp_input_value := a_soft_clamp_input_value a;
         entropy_loss_offset := a_entropy_loss_offset a;
         experimental_softplus_entropy_loss :=
           a_experimental_softplus_entropy_loss a;
         mask := mask;
         zero_buffer := zeroT;
         codebook := codebook |})%result.

Variable self : LFQ.

Definition bits_to_codes (bits : list T) : list T :=
  map (bits_to_codes_at (codebook_scale self)) bits.

(** [(lambda t: l2norm(t) * self.codebook_scale) if spherical else identity] *)
Definition maybe_l2norm (t : list T) : list T :=
  if spherical self
  then map (fun v => v * codebook_scale self) (l2norm t)
  else t.

(** Whether a layer accepts vectors of size [n]. *)
Definition accepts (m : module) (n : nat) : bool :=
  match m with
  | Identity => true
  | Linear in_features _ _ _ => n =? in_features
  | CosineSimLinear dim_in _ _ _ => n =? dim_in
  end.

Definition indices_to_codes (indices : tensor Z) (project_out_flag : bool)
  : result (tensor T) :=
  (let should_transpose := channel_first self in
   (* rearrange(indices, "... -> ... 1") *)
   let shp := if keep_num_codebooks_dim self
              then shape indices
              else shape indices ++ [1%nat] in
   _ <- guard (negb (length shp =? 0)) EinopsError ;;
   let c := last shp O in
   let lead := removelast shp in
   let groups := chunks (numel lead) c (data indices) in
   (* bits, bits_to_codes, maybe_l2norm on every index;
      rearrange(codes, "... c d -> ... (c d)") *)
   let codes :=
     map (fun g =>
            concat (map (fun i =>
                           maybe_l2norm (bits_to_codes (index_bits (mask self) i)))
                        g)) groups in
   let feat := (c * codebook_dim self)%nat in
   codes <- (if project_out_flag
             then _ <- guard (accepts (project_out self) feat) RuntimeError ;;
                  Ok (map (apply_module (project_out self)) codes,
                      out_size (project_out self) feat)
             else Ok (codes, feat)) ;;
   let t := {| shape := lead ++ [snd codes]; data := concat (fst codes) |} in
   if should_transpose then channel_first_layout t else Ok t)%result.

(** The named tuples [Return] and [LossBreakdown]. *)
Record Return : Type := mkReturn {
  quantized : tensor T;
  indices : tensor Z;
  entropy_aux_loss : T
}.

Record LossBreakdown : Type := mkLossBreakdown {
  per_sample_entropy : T;
  batch_entropy : T;
  commitment : T
}.

(** [torch.where(x > 0, codebook_value, -codebook_value)] with
    [codebook_value = torch.ones_like(x) * self.codebook_scale]. *)
Definition codebook_value : T := oneT * codebook_scale self.

Definition quantize_at (x : T) : T :=
  if x > zeroT then codebook_value else - codebook_value.

(** [reduce((quantized > 0).int() * self.mask.int(), "b n c d -> b n c",
    "sum")] on one vector of the last axis: int32 products, summed into an
    int64. *)
Definition index_of (q : list T) : result Z :=
  (products <- broadcast2 (fun b m => int32 (b * m)%Z)
                          (map (fun v => if v > zeroT then 1%Z else 0%Z) q)
                          (map int32 (mask self)) ;;
   Ok (int64 (fold_left Z.add products 0%Z)))%result.

(** [x + (quantized - x).detach()]: the forward value. *)
Definition straight_through (x q : T) : T :=
  let x := activation self x in
  x + (q - x).

(** [torch.randn(n).argsort(dim=-1)]: the indices that sort the noise,
    those of equal values in increasing order. *)
Fixpoint insert_by (key : nat -> T) (i : nat) (s : list nat) : list nat :=
  match s with
  | [] => [i]
  | j :: r => if key j >= key i then i :: j :: r else j :: insert_by key i r
  end.

Definition argsort (l : list T) : list nat :=
  fold_right (insert_by (fun i => nth i l zeroT)) [] (seq 0 (length l)).

Definition randn (noise : nat -> T) (n : nat) : list T :=
  map noise (seq 0 n).

(** [(-distance * inv_temperature).softmax(dim=-1)] with
    [distance = -2 * einsum("... i d, j d -> ... i j", original_input,
    codebook)], for the codebook slots of one position. *)
Definition soft_assignment (inv_temperature : T) (tok : list (list T))
  : result (list (list T)) :=
  let codebook := map maybe_l2norm (codebook self) in
  mapM (fun xi =>
          (products <- mapM (fun cw => broadcast2 (mul ops) xi cw) codebook ;;
           let distance := map (fun p => of_int ops (-2) * sum p) products in
           Ok (softmax (map (fun dj => (- dj) * inv_temperature) distance))
          )%result) tok.

(** The tokens kept for the per-sample entropy:
    [prob[rand_mask]] when [frac_per_sample_entropy < 1.0]. *)
Definition num_sampled_tokens (num_tokens : nat) : result Z :=
  match Binary64.to_int (Binary64.mul (Binary64.of_Z (Z.of_nat num_tokens))
                                      (frac_per_sample_entropy self)) with
  | Some k => Ok k
  | None => Err ValueError
  end.

Definition per_sample_probs_of (noise : nat -> T) (prob : list (list (list T)))
  : result (list (list (list T))) :=
  if Binary64.ltb (frac_per_sample_entropy self) Binary64.fone then
    (let num_tokens := length prob in
     k <- num_sampled_tokens num_tokens ;;
     let rand_mask :=
       map (fun r => (Z.of_nat r <? k)%Z) (argsort (randn noise num_tokens)) in
     Ok (select rand_mask prob))%result
  else Ok prob.

(** [reduce(per_sample_probs, "... c d -> c d", "mean")] *)
Definition avg_prob_of (per_sample_probs : list (list (list T)))
  : list (list T) :=
  map (fun i =>
         map (fun j =>
                mean (map (fun p => nth j (nth i p []) zeroT) per_sample_probs))
             (seq 0 (length (codebook self))))
      (seq 0 (num_codebooks self)).

(** A boolean mask over the positions: shape (b, n).  (Boolean indexing
    also takes a mask over another prefix of the axes, such as (b,); the
    model covers the masks of shape (b, n), and the properties are stated
    for those.) *)
Definition apply_mask {A} (mask : option (tensor bool)) (b n : nat)
           (l : list A) : result (list A) :=
  match mask with
  | None => Ok l
  | Some m =>
      match shape m with
      | [mb; mn] =>
          if (mb =? b) && (mn =? n) && (length (data m) =? b * n)
          then Ok (select (data m) l)
          else Err IndexError
      | _ => Err IndexError
      end
  end.

Definition mse_at (a b : T) : T := let d := a - b in d * d.

Definition map2 {A B C} (f : A -> B -> C) (l1 : list A) (l2 : list B)
  : list C :=
  map (fun p => f (fst p) (snd p)) (combine l1 l2).

(** The entropy auxiliary loss of training mode (lines "entropy aux
    loss"): [(entropy_aux_loss, per_sample_entropy, codebook_entropy)]. *)
Definition entropy_losses (noise : nat -> T) (inv_temperature : T)
           (mask : option (tensor bool)) (b n : nat)
           (original_input : list (list (list T))) : result (T * T * T) :=
  (prob <- mapM (soft_assignment inv_temperature) original_input ;;
   (* account for mask *)
   prob <- apply_mask mask b n prob ;;
   (* whether to only use a fraction of probs, for reducing memory *)
   per_sample_probs <- per_sample_probs_of noise prob ;;
   (* calculate per sample entropy *)
   let per_sample_entropy := mean (map entropy (concat per_sample_probs)) in
   (* distribution over all available tokens in the batch *)
   let avg_prob := avg_prob_of per_sample_probs in
   let avg_prob := maybe_distributed_mean avg_prob in
   let codebook_entropy := mean (map entropy avg_prob) in
   Ok (per_sample_entropy - diversity_gamma self * codebook_entropy,
       per_sample_entropy, codebook_entropy))%result.

(** [F.mse_loss(original_input, quantized.detach(), reduction="none")],
    masked, then [.mean()]. *)
Definition commit_loss_of (mask : option (tensor bool)) (b n : nat)
           (original_input quantized : list (list (list T))) : result T :=
  (let commit_loss := map2 (map2 (map2 mse_at)) original_input quantized in
   commit_loss <- apply_mask mask b n commit_loss ;;
   Ok (mean (concat (concat commit_loss))))%result.

(** [LFQ.forward], first lines: "standardize image or video into (batch,
    seq, dimension)"; returns the standardized input and the packed shape
    [ps]. *)
Definition standardize (is_img_or_video : bool) (x : tensor T)
  : result (tensor T * list nat) :=
  (x <- (if channel_first self then channel_last x else Ok x) ;;
   if is_img_or_video then pack_one x else Ok (x, []))%result.

(** From the assertion on the last axis to "maybe l2norm": the input of
    the quantization, as [(b, n, feat, x)] with [x] of shape (b n) c d. *)
Definition pre_quantize (x : tensor T)
  : result (nat * nat * nat * list (list (list T))) :=
  (_ <- guard (negb (length (shape x) =? 0)) IndexError ;;
   let last_dim := last (shape x) O in
   _ <- assert_ (last_dim =? dim self)
                (MsgExpectedDimension (dim self) last_dim) ;;
   (* project_in, on the vectors of the last axis *)
   _ <- guard (accepts (project_in self) last_dim) RuntimeError ;;
   let vectors := chunks (numel (removelast (shape x))) last_dim (data x) in
   let vectors := map (apply_module (project_in self)) vectors in
   let feat := out_size (project_in self) last_dim in
   (* maybe soft clamp *)
   let vectors :=
     match soft_clamp_input_value self with
     | Some clamp_value =>
         map (map (fun v => tanh ops (v / clamp_value) * clamp_value)) vectors
     | None => vectors
     end in
   (* split out number of codebooks: "b n (c d) -> b n c d" *)
   bn <- match shape x with
         | [b; n; _] => Ok (b, n)
         | _ => Err EinopsError
         end ;;
   let c := num_codebooks self in
   _ <- guard ((0 <? c) && (feat mod c =? 0)) EinopsError ;;
   let d := (feat / c)%nat in
   let x := map (chunks c d) vectors in
   (* maybe l2norm *)
   let x := map (map maybe_l2norm) x in
   Ok (fst bn, snd bn, feat, x))%result.

(** "merge back codebook dim", "project out", "reconstitute image or video
    dimensions". *)
Definition restore_quantized (is_img_or_video : bool) (ps : list nat)
           (b n feat : nat) (x : list (list (list T))) : result (tensor T) :=
  (_ <- guard (accepts (project_out self) feat) RuntimeError ;;
   let x := map (fun tok => apply_module (project_out self) (concat tok)) x in
   let x := {| shape := [b; n; out_size (project_out self) feat];
               data := concat x |} in
   x <- (if is_img_or_video then unpack_one x ps else Ok x) ;;
   if channel_first self then channel_first_layout x else Ok x)%result.

(** The indices: unpacked, and "whether to remove single codebook dim". *)
Definition restore_indices (is_img_or_video : bool) (ps : list nat)
           (b n : nat) (indices : list (list Z)) : result (tensor Z) :=
  (let indices := {| shape := [b; n; num_codebooks self];
                     data := concat indices |} in
   indices <- (if is_img_or_video then unpack_one indices ps
               else Ok indices) ;;
   (* rearrange(indices, "... 1 -> ...") *)
   if keep_num_codebooks_dim self then Ok indices
   else if last (shape indices) O =? 1
        then Ok {| shape := removelast (shape indices);
                   data := data indices |}
        else Err EinopsError)%result.

(** [LFQ.forward] with [return_loss_breakdown=True].  [training] is
    [self.training]; [noise] is the draw of [torch.randn] of this call. *)
Definition forward_with_breakdown (training : bool) (noise : nat -> T)
           (x : tensor T) (inv_temperature : T)
           (mask : option (tensor bool)) : result (Return * LossBreakdown) :=
  (let is_img_or_video := 4 <=? length (shape x) in
   xps <- standardize is_img_or_video x ;;
   let ps := snd xps in
   pre <- pre_quantize (fst xps) ;;
   let b := fst (fst (fst pre)) in
   let n := snd (fst (fst pre)) in
   let feat := snd (fst pre) in
   let x := snd pre in
   (* quantize by eq 3. *)
   let original_input := x in
   let quantized := map (map (map quantize_at)) x in
   (* calculate indices *)
   indices <- mapM (mapM index_of) quantized ;;
   (* maybe l2norm *)
   let quantized := map (map maybe_l2norm) quantized in
   (* use straight-through gradients if training *)
   let x := if training
            then map2 (map2 (map2 straight_through)) x quantized
            else quantized in
   (* entropy aux loss *)
   ent <- (if training
           then entropy_losses noise inv_temperature mask b n original_input
           else Ok (zero_buffer self, zero_buffer self, zero_buffer self)) ;;
   let entropy_aux_loss := fst (fst ent) in
   let per_sample_entropy := snd (fst ent) in
   let codebook_entropy := snd ent in
   (* whether to make the entropy loss positive through a softplus *)
   let entropy_aux_loss :=
     if training && experimental_softplus_entropy_loss self
     then softplus ops (entropy_aux_loss + entropy_loss_offset self)
     else entropy_aux_loss in
   (* commit loss *)
   commit_loss <- (if training && (commitment_loss_weight self > zeroT)
                   then commit_loss_of mask b n original_input quantized
                   else Ok (zero_buffer self)) ;;
   (* merge back codebook dim, project out, reconstitute the dimensions *)
   x <- restore_quantized is_img_or_video ps b n feat x ;;
   indices <- restore_indices is_img_or_video ps b n indices ;;
   (* complete aux loss *)
   let aux_loss := entropy_aux_loss * entropy_loss_weight self
                   + commit_loss * commitment_loss_weight self in
   Ok ({| quantized := x; indices := indices; entropy_aux_loss := aux_loss |},
       {| per_sample_entropy := per_sample_entropy;
          batch_entropy := codebook_entropy;
          commitment := commit_loss |}))%result.

Definition forward (training : bool) (noise : nat -> T) (x : tensor T)
           (inv_temperature : T) (return_loss_breakdown : bool)
           (mask : option (tensor bool))
  : result (Return * option LossBreakdown) :=
  (r <- forward_with_breakdown training noise x inv_temperature mask ;;
   Ok (fst r, if return_loss_breakdown then Some (snd r) else None))%result.

End LFQ.

(* ================================================================== *)
(** ** Notions the properties are stated with *)

Definition is_power_of_two (n : Z) : Prop :=
  exists k, (0 <= k)%Z /\ n = (2 ^ k)%Z.

(** [p] is a power of two at the least distance from [n]. *)
Definition nearest_power_of_two (n p : Z) : Prop :=
  is_power_of_two p /\
  forall q, is_power_of_two q -> (Z.abs (n - p) <= Z.abs (n - q))%Z.

(** [p] is the least power of two that is not below [n]. *)
Definition next_power_of_two (n p : Z) : Prop :=
  is_power_of_two p /\ (n <= p)%Z /\
  forall q, is_power_of_two q -> (n <= q)%Z -> (p <= q)%Z.

(** The defaults of the signature of [LFQ.__init__]. *)
Definition default_args {T} (ops : ScalarOps T)
           (dim : option nat) (codebook_size : option Z) : LFQ_args T :=
  {| a_dim := dim;
     a_codebook_size := codebook_size;
     a_entropy_loss_weight := div ops (of_int ops 1) (of_int ops 10);
     a_commitment_loss_weight := div ops (of_int ops 1) (of_int ops 4);
     a_diversity_gamma := of_int ops 1;
     a_straight_through_activation := fun x => x;
     a_num_codebooks := 1;
     a_keep_num_codebooks_dim := None;
     a_codebook_scale := of_int ops 1;
     a_frac_per_sample_entropy := Binary64.fone;
     a_has_projections := None;
     a_projection_has_bias := true;
     a_soft_clamp_input_value := None;
     a_cosine_sim_project_in := false;
     a_cosine_sim_project_in_scale := None;
     a_channel_first := false;
     a_experimental_softplus_entropy_loss := false;
     a_entropy_loss_offset := of_int ops 5;
     a_spherical := false |}.

Definition zero_init {T} (ops : ScalarOps T) : init_weights T :=
  {| in_weight := fun _ _ => zero ops;
     in_bias := fun _ => zero ops;
     out_weight := fun _ _ => zero ops;
     out_bias := fun _ => zero ops |}.

(** A binary32 element type for running the model: the transcendental
    kernels, which [SpecFloat] does not provide, are constant here. *)
Definition ops32 : ScalarOps spec_float :=
  Binary32.ops (fun _ => Binary32.pone) (fun _ => Binary32.pzero)
               (fun _ => Binary32.pzero).

(** What [LFQ.__init__] establishes about the module it returns. *)
Record constructed {T} (ops : ScalarOps T) (self : LFQ T) : Prop := {
  c_size_pos : (0 < codebook_size self)%Z;
  c_size : codebook_size self = (2 ^ Z.of_nat (codebook_dim self))%Z;
  c_mask : mask self = make_mask (codebook_dim self);
  c_codebook :
    codebook self
    = map (fun i => map (bits_to_codes_at ops (codebook_scale self))
                        (index_bits ops (mask self) i))
          (arange (codebook_size self));
  c_zero : zero_buffer self = zero ops;
  c_keep : keep_num_codebooks_dim self = false -> num_codebooks self <= 1;
  c_no_proj :
    has_projections self = false ->
    project_in self = Identity T /\ project_out self = Identity T;
  c_proj :
    has_projections self = true ->
    accepts (project_in self) (dim self) = true
    /\ out_size (project_in self) (dim self)
       = codebook_dim self * num_codebooks self
    /\ accepts (project_out self) (codebook_dim self * num_codebooks self) = true
    /\ out_size (project_out self) (codebook_dim self * num_codebooks self)
       = dim self
}.

(** The bit of weight [2 ^ k] of [i]. *)
Definition bit_at (i k : Z) : Z := ((i / 2 ^ k) mod 2)%Z.

(** The binary digits of [i] on [d] bits, most significant first. *)
Definition bits_of (d : nat) (i : Z) : list bool :=
  map (fun k => Z.testbit i (Z.of_nat k)) (rev (seq 0 d)).

(** The vectors of the last axis of the standardized input after
    [project_in] and the soft clamp of [forward]. *)
Definition projected {T} (ops : ScalarOps T) (self : LFQ T) (x : tensor T)
  : list (list T) :=
  let vectors :=
    map (apply_module ops (project_in self))
        (chunks (numel (removelast (shape x))) (last (shape x) O) (data x)) in
  match soft_clamp_input_value self with
  | Some clamp_value =>
      map (map (fun v => mul ops (tanh ops (div ops v clamp_value)) clamp_value))
          vectors
  | None => vectors
  end.

(** The hard-quantized tensor of [forward] (after the second
    [maybe_l2norm]) and the value [forward] passes on: in training mode
    [x + (quantized - x).detach()], else [quantized]. *)
Definition hard_quantized {T} (ops : ScalarOps T) (self : LFQ T)
           (x : list (list (list T))) : list (list (list T)) :=
  map (map (maybe_l2norm ops self)) (map (map (map (quantize_at ops self))) x).

Definition forward_value {T} (ops : ScalarOps T) (self : LFQ T)
           (training : bool) (x : list (list (list T))) : list (list (list T)) :=
  if training
  then map2 (map2 (map2 (straight_through ops self))) x (hard_quantized ops self x)
  else hard_quantized ops self x.

(** The codeword [indices_to_codes] computes for one index, before the
    projection: mask bits, [bits_to_codes], [maybe_l2norm]. *)
Definition decode_index {T} (ops : ScalarOps T) (self : LFQ T) (i : Z) : list T :=
  maybe_l2norm ops self (bits_to_codes ops self (index_bits ops (mask self) i)).

(** The index [forward] computes for one codebook slot of a position, from
    the vector [x] of that slot after the projection: [maybe_l2norm], the
    threshold at zero, the weighted sum of the bits. *)
Definition encode_vector {T} (ops : ScalarOps T) (self : LFQ T) (x : list T)
  : result Z :=
  index_of ops self (map (quantize_at ops self) (maybe_l2norm ops self x)).

(** Concrete inputs the properties are exercised on. *)
Definition args16R : LFQ_args R := default_args ExactR.ops None (Some 16%Z).
Definition indices_1x2 : tensor Z := {| shape := [1; 2]; data := [5%Z; 10%Z] |}.

Definition indices_1x2x2 : tensor Z :=
  {| shape := [1; 2; 2]; data := [5%Z; 10%Z; 0%Z; 15%Z] |}.

(** A module that quantizes its input directly: no projection, no soft
    clamp, not spherical. *)
Record plain {T} (self : LFQ T) : Prop := {
  p_in : project_in self = Identity T;
  p_out : project_out self = Identity T;
  p_clamp : soft_clamp_input_value self = None;
  p_spherical : spherical self = false;
  p_codebooks : 0 < num_codebooks self;
  p_dim : dim self = codebook_dim self * num_codebooks self;
  p_mask : length (mask self) = codebook_dim self;
  p_keep : keep_num_codebooks_dim self = false -> num_codebooks self = 1
}.

(** The hard decision of [forward] on one element, with the scale written
    as the claim has it. *)
Definition hard_threshold {T} (ops : ScalarOps T) (self : LFQ T) (v : T) : T :=
  if gt ops v (zero ops) then codebook_scale self
  else neg ops (codebook_scale self).

Definition args2_32 : LFQ_args spec_float := default_args ops32 None (Some 2%Z).
Definition args4_32 : LFQ_args spec_float := default_args ops32 None (Some 4%Z).

(** One position holding the float32 value 2 ** 25. *)
Definition x_2p25 : tensor spec_float :=
  {| shape := [1; 1; 1]; data := [Binary32.of_Z 33554432] |}.

Definition x_1x2x2 : tensor spec_float :=
  {| shape := [1; 2; 2];
     data := map Binary32.of_Z [3%Z; (-1)%Z; 0%Z; 33554432%Z] |}.

Definition entropy0 (p : list spec_float) : spec_float := Binary32.pzero.
Definition no_reduction (m : list (list spec_float)) : list (list spec_float) := m.
Definition noise0 (i : nat) : spec_float := Binary32.pzero.

(** The same module with another [frac_per_sample_entropy]. *)
Definition set_frac_per_sample_entropy {T} (self : LFQ T) (f : spec_float)
  : LFQ T :=
  {| codebook_size := codebook_size self;
     project_in := project_in self;
     project_out := project_out self;
     has_projections := has_projections self;
     dim := dim self;
     codebook_dim := codebook_dim self;
     num_codebooks := num_codebooks self;
     keep_num_codebooks_dim := keep_num_codebooks_dim self;
     channel_first := channel_first self;
     activation := activation self;
     spherical := spherical self;
     frac_per_sample_entropy := f;
     diversity_gamma := diversity_gamma self;
     entropy_loss_weight := entropy_loss_weight self;
     codebook_scale := codebook_scale self;
     commitment_loss_weight := commitment_loss_weight self;
     soft_clamp_input_value := soft_clamp_input_value self;
     entropy_loss_offset := entropy_loss_offset self;
     experimental_softplus_entropy_loss := experimental_softplus_entropy_loss self;
     mask := mask self;
     zero_buffer := zero_buffer self;
     codebook := codebook self |}.

(** 0.5 and 0.75 as Python floats. *)
Definition half64 : spec_float := Eval vm_compute in binary_normalize 53 1024 1 (-1) false.
Definition three_quarters64 : spec_float :=
  Eval vm_compute in binary_normalize 53 1024 3 (-2) false.

(** [LFQ(codebook_size=4, commitment_loss_weight=0.)] *)
Definition args4_32_no_commitment : LFQ_args spec_float :=
  {| a_dim := None;
     a_codebook_size := Some 4%Z;
     a_entropy_loss_weight := a_entropy_loss_weight args4_32;
     a_commitment_loss_weight := Binary32.pzero;
     a_diversity_gamma := a_diversity_gamma args4_32;
     a_straight_through_activation := fun x => x;
     a_num_codebooks := 1;
     a_keep_num_codebooks_dim := None;
     a_codebook_scale := a_codebook_scale args4_32;
     a_frac_per_sample_entropy := Binary64.fone;
     a_has_projections := None;
     a_projection_has_bias := true;
     a_soft_clamp_input_value := None;
     a_cosine_sim_project_in := false;
     a_cosine_sim_project_in_scale := None;
     a_channel_first := false;
     a_experimental_softplus_entropy_loss := false;
     a_entropy_loss_offset := a_entropy_loss_offset args4_32;
     a_spherical := false |}.

(** [LFQ(codebook_size=2)] over the reals, and one position whose single
    codebook slot holds the vector [1.0]. *)
Definition args2R : LFQ_args R := default_args ExactR.ops None (Some 2%Z).
Definition token_one : list (list R) := [[1%R]].

(** The distribution C2 describes: the softmax of [score * inv_temperature]
    with [score = -2 * dot(x, codeword)]. *)
Definition softmax_of_scores (self : LFQ R) (inv_temperature : R)
           (tok : list (list R)) : list (list R) :=
  map (fun xi =>
         softmax ExactR.ops
                 (map (fun cw => (-2 * dot ExactR.ops xi cw * inv_temperature)%R)
                      (map (maybe_l2norm ExactR.ops self) (codebook self))))
      tok.

(** The distribution the code computes, in exact arithmetic: the softmax of
    [-distance * inv_temperature], that is of
    [+2 * dot(x, codeword) * inv_temperature]. *)
Definition softmax_of_similarities (self : LFQ R) (inv_temperature : R)
           (tok : list (list R)) : list (list R) :=
  map (fun xi =>
         softmax ExactR.ops
                 (map (fun cw => (2 * dot ExactR.ops xi cw * inv_temperature)%R)
                      (map (maybe_l2norm ExactR.ops self) (codebook self))))
      tok.

(** Number of [True] entries of a boolean mask. *)
Fixpoint count_true (m : list bool) : nat :=
  match m with
  | [] => 0
  | b :: m' => (if b then 1 else 0) + count_true m'
  end.

(** [z] is an integer nearest to the value of the float [f]: what
    [round(f)] may return. *)
Definition is_rounding (f : spec_float) (z : Z) : Prop :=
  match f with
  | S754_zero _ => z = 0%Z
  | S754_finite s m e =>
      let v := if s then Zneg m else Zpos m in
      match e with
      | Zneg p => (2 * Z.abs (v - z * 2 ^ Zpos p) <= 2 ^ Zpos p)%Z
      | _ => z = (v * 2 ^ e)%Z
      end
  | _ => False
  end.

(** [LFQ(codebook_size=4, frac_per_sample_entropy=0.75)] *)
Definition args4_32_frac : LFQ_args spec_float :=
  {| a_dim := None;
     a_codebook_size := Some 4%Z;
     a_entropy_loss_weight := a_entropy_loss_weight args4_32;
     a_commitment_loss_weight := a_commitment_loss_weight args4_32;
     a_diversity_gamma := a_diversity_gamma args4_32;
     a_straight_through_activation := fun x => x;
     a_num_codebooks := 1;
     a_keep_num_codebooks_dim := None;
     a_codebook_scale := a_codebook_scale args4_32;
     a_frac_per_sample_entropy := three_quarters64;
     a_has_projections := None;
     a_projection_has_bias := true;
     a_soft_clamp_input_value := None;
     a_cosine_sim_project_in := false;
     a_cosine_sim_project_in_scale := None;
     a_channel_first := false;
     a_experimental_softplus_entropy_loss := false;
     a_entropy_loss_offset := a_entropy_loss_offset args4_32;
     a_spherical := false |}.

(** The soft assignments of five tokens, told apart by their first entry. *)
Definition prob5 : list (list (list spec_float)) :=
  map (fun i => [[Binary32.of_Z i]]) [0%Z; 1%Z; 2%Z; 3%Z; 4%Z].

(** Two draws of the noise: increasing, and decreasing. *)
Definition noise_up (i : nat) : spec_float := Binary32.of_Z (Z.of_nat i).
Definition noise_down (i : nat) : spec_float := Binary32.of_Z (- Z.of_nat i).

(** The vectors of the last axis of a standardized input: one per position
    (b, n), in row-major order, as the boolean mask indexes them. *)
Definition positions {A} (x : tensor A) : list (list A) :=
  chunks (numel (removelast (shape x))) (last (shape x) O) (data x).

(** What [forward] makes of one position before quantizing: [project_in],
    the soft clamp, the split into codebook slots, [maybe_l2norm]. *)
Definition pre_quantize_position {T} (ops : ScalarOps T) (self : LFQ T)
           (feat : nat) (v : list T) : list (list T) :=
  let v := apply_module ops (project_in self) v in
  let v := match soft_clamp_input_value self with
           | Some clamp_value =>
               map (fun e => mul ops (tanh ops (div ops e clamp_value)) clamp_value) v
           | None => v
           end in
  map (maybe_l2norm ops self)
      (chunks (num_codebooks self) (feat / num_codebooks self) v).

(** Two inputs of shape (1, 2, 2) that agree on the first position only, and
    the mask that keeps the first position. *)
Definition x_garbage : tensor spec_float :=
  {| shape := [1; 2; 2];
     data := [Binary32.of_Z 3; Binary32.of_Z (-1); S754_nan; S754_infinity false] |}.

Definition mask_first : tensor bool :=
  {| shape := [1; 2]; data := [true; false] |}.

(** The end-to-end example: [LFQ(dim=4, codebook_size=16)] on a batch of
    shape (2, 10, 4), and its channel-first variant on an image of shape
    (1, 4, 2, 2). *)
Definition args16_32 : LFQ_args spec_float :=
  default_args ops32 (Some 4) (Some 16%Z).

Definition args16_32_channel_first : LFQ_args spec_float :=
  {| a_dim := Some 4;
     a_codebook_size := Some 16%Z;
     a_entropy_loss_weight := a_entropy_loss_weight args16_32;
     a_commitment_loss_weight := a_commitment_loss_weight args16_32;
     a_diversity_gamma := a_diversity_gamma args16_32;
     a_straight_through_activation := fun x => x;
     a_num_codebooks := 1;
     a_keep_num_codebooks_dim := None;
     a_codebook_scale := a_codebook_scale args16_32;
     a_frac_per_sample_entropy := Binary64.fone;
     a_has_projections := None;
     a_projection_has_bias := true;
     a_soft_clamp_input_value := None;
     a_cosine_sim_project_in := false;
     a_cosine_sim_project_in_scale := None;
     a_channel_first := true;
     a_experimental_softplus_entropy_loss := false;
     a_entropy_loss_offset := a_entropy_loss_offset args16_32;
     a_spherical := false |}.

Definition x_2x10x4 : tensor spec_float :=
  {| shape := [2; 10; 4];
     data := map (fun i => Binary32.of_Z (Z.of_nat i - 40)) (seq 0 80) |}.

Definition x_image : tensor spec_float :=
  {| shape := [1; 4; 2; 2];
     data := map (fun i => Binary32.of_Z (Z.of_nat i - 8)) (seq 0 16) |}.

(** The last lines of the shape adaptation of [forward], on a tensor of
    shape (b, n, d): [unpack_one] for images and videos, then the
    channel-first rearrangement. *)
Definition restore_layout {A} (channel_first is_img_or_video : bool)
           (ps : list nat) (x : tensor A) : result (tensor A) :=
  (x <- (if is_img_or_video then unpack_one x ps else Ok x) ;;
   if channel_first then channel_first_layout x else Ok x)%result.

(** The size of the feature axis of an input of [forward]. *)
Definition feature_axis (channel_first : bool) (s : list nat) : nat :=
  if channel_first then nth 1 s 0 else last s 0.

(** The float32 module of codebook size 16 with the default scale,
    fixed-scale or spherical. *)
Definition args16_32_variant (spherical : bool) : LFQ_args spec_float :=
  {| a_dim := Some 4;
     a_codebook_size := Some 16%Z;
     a_entropy_loss_weight := a_entropy_loss_weight args16_32;
     a_commitment_loss_weight := a_commitment_loss_weight args16_32;
     a_diversity_gamma := a_diversity_gamma args16_32;
     a_straight_through_activation := fun x => x;
     a_num_codebooks := 1;
     a_keep_num_codebooks_dim := None;
     a_codebook_scale := a_codebook_scale args16_32;
     a_frac_per_sample_entropy := Binary64.fone;
     a_has_projections := None;
     a_projection_has_bias := true;
     a_soft_clamp_input_value := None;
     a_cosine_sim_project_in := false;
     a_cosine_sim_project_in_scale := None;
     a_channel_first := false;
     a_experimental_softplus_entropy_loss := false;
     a_entropy_loss_offset := a_entropy_loss_offset args16_32;
     a_spherical := spherical |}.

(** The divisor [l2norm] computes for a vector of [d] elements whose
    squares all are [v]. *)
Definition uniform_denominator {T} (ops : ScalarOps T) (v : T) (d : nat) : T :=
  clamp_min ops (sqrt ops (sum ops (repeat v d))) (normalize_eps ops).

(** [maybe_l2norm] on one element [c] of such a vector. *)
Definition maybe_l2norm_at {T} (ops : ScalarOps T) (self : LFQ T) (d : nat)
           (c : T) : T :=
  if spherical self
  then mul ops (div ops c (uniform_denominator ops (mul ops c c) d))
           (codebook_scale self)
  else c.

(** The element [indices_to_codes] returns for a bit of a code of [d] bits,
    and what the threshold of [forward] sees of it, after the
    [maybe_l2norm] of [forward]. *)
Definition decoded_value {T} (ops : ScalarOps T) (self : LFQ T) (d : nat)
           (b : bool) : T :=
  maybe_l2norm_at ops self d
                  (bits_to_codes_at ops (codebook_scale self) (of_bool ops b)).

Definition encoded_value {T} (ops : ScalarOps T) (self : LFQ T) (d : nat)
           (b : bool) : T :=
  maybe_l2norm_at ops self d (decoded_value ops self d b).

(** The two values of a bit survive the round trip: they have the same
    square, before and after decoding, and the threshold tells them
    apart. *)
Record bits_survive {T} (ops : ScalarOps T) (self : LFQ T) (d : nat) : Prop := {
  bs_codes :
    mul ops (bits_to_codes_at ops (codebook_scale self) (of_bool ops true))
            (bits_to_codes_at ops (codebook_scale self) (of_bool ops true))
    = mul ops (bits_to_codes_at ops (codebook_scale self) (of_bool ops false))
              (bits_to_codes_at ops (codebook_scale self) (of_bool ops false));
  bs_decoded :
    mul ops (decoded_value ops self d true) (decoded_value ops self d true)
    = mul ops (decoded_value ops self d false) (decoded_value ops self d false);
  bs_high :
    gt ops (quantize_at ops self (encoded_value ops self d true)) (zero ops)
    = true;
  bs_low :
    gt ops (quantize_at ops self (encoded_value ops self d false)) (zero ops)
    = false
}.

(** 2 ** -100 in float32, and [LFQ(codebook_size=16, spherical=True,
    codebook_scale=2 ** -100)]. *)
Definition tiny_scale32 : spec_float := S754_finite false 8388608 (-123).

Definition args16_32_tiny_spherical : LFQ_args spec_float :=
  {| a_dim := Some 4;
     a_codebook_size := Some 16%Z;
     a_entropy_loss_weight := a_entropy_loss_weight args16_32;
     a_commitment_loss_weight := a_commitment_loss_weight args16_32;
     a_diversity_gamma := a_diversity_gamma args16_32;
     a_straight_through_activation := fun x => x;
     a_num_codebooks := 1;
     a_keep_num_codebooks_dim := None;
     a_codebook_scale := tiny_scale32;
     a_frac_per_sample_entropy := Binary64.fone;
     a_has_projections := None;
     a_projection_has_bias := true;
     a_soft_clamp_input_value := None;
     a_cosine_sim_project_in := false;
     a_cosine_sim_project_in_scale := None;
     a_channel_first := false;
     a_experimental_softplus_entropy_loss := false;
     a_entropy_loss_offset := a_entropy_loss_offset args16_32;
     a_spherical := true |}.

(** [LFQ(codebook_size=4, entropy_loss_weight=float("inf"))] *)
Definition args4_32_infinite_weight : LFQ_args spec_float :=
  {| a_dim := None;
     a_codebook_size := Some 4%Z;
     a_entropy_loss_weight := S754_infinity false;
     a_commitment_loss_weight := a_commitment_loss_weight args4_32;
     a_diversity_gamma := a_diversity_gamma args4_32;
     a_straight_through_activation := fun x => x;
     a_num_codebooks := 1;
     a_keep_num_codebooks_dim := None;
     a_codebook_scale := a_codebook_scale args4_32;
     a_frac_per_sample_entropy := Binary64.fone;
     a_has_projections := None;
     a_projection_has_bias := true;
     a_soft_clamp_input_value := None;
     a_cosine_sim_project_in := false;
     a_cosine_sim_project_in_scale := None;
     a_channel_first := false;
     a_experimental_softplus_entropy_loss := false;
     a_entropy_loss_offset := a_entropy_loss_offset args4_32;
     a_spherical := false |}.

(* ================================================================== *)
(** * Further properties of the code *)

(** ** Construction: all the validations of [__init__] *)

Definition valid_codebook_size {T} (a : LFQ_args T) : Prop :=
  (a_dim a <> None \/ a_codebook_size a <> None)
  /\ forall n, a_codebook_size a = Some n -> is_power_of_two n.

(** Arguments with a soft clamp value, 0.0, below the default
    [codebook_scale]. *)
Definition args4_32_clamp_below_scale : LFQ_args spec_float :=
  {| a_dim := None;
     a_codebook_size := Some 4%Z;
     a_entropy_loss_weight := a_entropy_loss_weight args4_32;
     a_commitment_loss_weight := a_commitment_loss_weight args4_32;
     a_diversity_gamma := a_diversity_gamma args4_32;
     a_straight_through_activation := fun x => x;
     a_num_codebooks := 1;
     a_keep_num_codebooks_dim := None;
     a_codebook_scale := a_codebook_scale args4_32;
     a_frac_per_sample_entropy := Binary64.fone;
     a_has_projections := None;
     a_projection_has_bias := true;
     a_soft_clamp_input_value := Some Binary32.pzero;
     a_cosine_sim_project_in := false;
     a_cosine_sim_project_in_scale := None;
     a_channel_first := false;
     a_experimental_softplus_entropy_loss := false;
     a_entropy_loss_offset := a_entropy_loss_offset args4_32;
     a_spherical := false |}.

(** The number a list of binary digits spells, most significant first. *)
Definition binary_value (bits : list bool) : Z :=
  fold_left (fun acc (b : bool) => (2 * acc + (if b then 1 else 0))%Z) bits 0%Z.

(** The codeword of a sign pattern: [bits_to_codes] of the pattern as a
    float tensor. *)
Definition codeword_of_pattern {T} (ops : ScalarOps T) (self : LFQ T)
           (pattern : list bool) : list T :=
  bits_to_codes ops self (map (of_bool ops) pattern).

(** The axes of an input of [forward] other than the feature axis: the
    batch axis and the position axes. *)
Definition position_axes (channel_first : bool) (s : list nat) : list nat :=
  if channel_first
  then match s with
       | b :: _ :: rest => b :: rest
       | _ => s
       end
  else removelast s.

(** The sign pattern of a vector: where it is greater than zero. *)
Definition sign_pattern {T} (ops : ScalarOps T) (v : list T) : list bool :=
  map (fun e => gt ops e (zero ops)) v.

(** The two code values are what the threshold of [forward] produces, and
    the threshold tells them apart: so it is for a positive
    [codebook_scale] in exact arithmetic, and for the default scale in
    float32. *)
Record sign_coded {T} (ops : ScalarOps T) (self : LFQ T) : Prop := {
  sc_high : bits_to_codes_at ops (codebook_scale self) (one ops)
            = codebook_value ops self;
  sc_low : bits_to_codes_at ops (codebook_scale self) (zero ops)
           = neg ops (codebook_value ops self);
  sc_pos : gt ops (codebook_value ops self) (zero ops) = true;
  sc_neg : gt ops (neg ops (codebook_value ops self)) (zero ops) = false
}.

(** A mask that fits an input of [forward]: none, or a boolean tensor of
    shape (batch, positions), the position axes taken together. *)
Definition mask_fits (channel_first : bool) (s : list nat)
           (mask : option (tensor bool)) : Prop :=
  match mask with
  | None => True
  | Some m =>
      let n := numel (tl (position_axes channel_first s)) in
      shape m = [hd 0 s; n] /\ length (data m) = hd 0 s * n
  end.

(** ** [utils/kmeans.py]: [batched_bincount] *)

(** [t[i] += v] on a row of int64. *)
Fixpoint add_at (i : nat) (v : Z) (t : list Z) : list Z :=
  match t, i with
  | [], _ => []
  | a :: t', O => int64 (a + v) :: t'
  | a :: t', S i' => a :: add_at i' v t'
  end.

(** [target.scatter_add_(-1, index, values)] on one row of a rank-two
    [target]: [target[index[j]] += values[j]] for every [j]; an index that
    is not a position of the row raises (negative indices do not wrap). *)
Fixpoint scatter_add_row (target index values : list Z) : result (list Z) :=
  match index, values with
  | i :: index', v :: values' =>
      if ((0 <=? i) && (i <? Z.of_nat (length target)))%Z
      then scatter_add_row (add_at (Z.to_nat i) v target) index' values'
      else Err RuntimeError
  | _, _ => Ok target
  end.

(** [batched_bincount(x, minlength=...)] for an int64 tensor [x], the index
    type [scatter_add_] accepts.  [x.shape[0]] needs an axis;
    [torch.zeros] refuses a negative size; [scatter_add_] does nothing for
    an index without elements, and otherwise wants the index to have the
    rank of [target], which is two. *)
Definition batched_bincount (x : tensor Z) (minlength : Z)
  : result (tensor Z) :=
  match shape x with
  | [] => Err IndexError
  | batch :: rest =>
      (_ <- guard (0 <=? minlength)%Z RuntimeError ;;
       let m := Z.to_nat minlength in
       let target := repeat (repeat 0%Z m) batch in
       if numel (shape x) =? 0
       then Ok {| shape := [batch; m]; data := concat target |}
       else
         match rest with
         | [n] =>
             rows <- mapM (fun ti : list Z * list Z =>
                             scatter_add_row (fst ti) (snd ti)
                                             (map (fun _ => 1%Z) (snd ti)))
                          (combine target (chunks batch n (data x))) ;;
             Ok {| shape := [batch; m]; data := concat rows |}
         | _ => Err RuntimeError
         end)%result
  end.

(** The rows of a rank-two tensor. *)
Definition rows_of {A} (t : tensor A) : list (list A) :=
  chunks (nth 0 (shape t) 0) (nth 1 (shape t) 0) (data t).

(** The sum of a row of integers that does not overflow. *)
Definition Zsum (l : list Z) : Z := fold_right Z.add 0%Z l.

Definition bincount_input : tensor Z :=
  {| shape := [2; 4]; data := [0; 2; 2; 1; 1; 1; 1; 0]%Z |}.

(* ================================================================== *)
(** * Properties *)

Unset Implicit Arguments.

(** ** Construction: validation of [codebook_size] *)

Lemma log2_is_integer_spec (n : Z) :
  (0 < n)%Z -> log2_is_integer n = true <-> is_power_of_two n.
Proof.
  intros Hn. unfold log2_is_integer, is_power_of_two. split.
  - intros H. apply Z.eqb_eq in H. exists (Z.log2 n).
    split; [apply Z.log2_nonneg | exact H].
  - intros [k [Hk ->]]. rewrite Z.log2_pow2 by exact Hk. apply Z.eqb_refl.
Qed.

Lemma ceil_log2_next_power_of_two (n : Z) :
  (0 < n)%Z -> next_power_of_two n (2 ^ ceil_log2 n).
Proof.
  intros Hn. unfold next_power_of_two, ceil_log2. repeat split.
  - exists (Z.log2_up n). split; [apply Z.log2_up_nonneg | reflexivity].
  - destruct (Z.eq_dec n 1) as [-> | Hne]; [cbn; lia |].
    apply Z.log2_up_spec. lia.
  - intros q [k [Hk ->]] Hle.
    apply Z.pow_le_mono_r; [lia |].
    apply Z.log2_up_le_pow2; assumption.
Qed.

Lemma not_power_of_two_5 : ~ is_power_of_two 5.
Proof.
  intros H. apply log2_is_integer_spec in H; [| lia]. discriminate H.
Qed.

(** C5, as stated, fails: for [codebook_size = 5] the message suggests 8,
    while the nearest power of two is 4. *)
Lemma LFQ_init_suggestion_not_nearest :
  exists p,
    LFQ_init ops32 (default_args ops32 None (Some 5%Z)) (zero_init ops32)
    = Err (AssertionError (MsgPowerOfTwo p))
    /\ ~ nearest_power_of_two 5 p.
Proof.
  exists 8%Z. split; [reflexivity |].
  intros [_ H]. specialize (H 4%Z).
  assert (is_power_of_two 4) as H4 by (exists 2%Z; split; [lia | reflexivity]).
  apply H in H4. cbn in H4. lia.
Qed.

(** C5 (amended): construction fails when neither [dim] nor [codebook_size]
    is given; when [codebook_size] is given, positive, below 2^47 (where the
    binary64 logarithm of [math.log2] decides as the exact one) and not a
    power of two, it fails with the assertion whose message suggests
    [2 ** ceil(log2(codebook_size))], the least power of two that is not
    below [codebook_size]; when it is given and not positive, [math.log2]
    raises its [ValueError]. *)
Theorem LFQ_init_validation :
  forall (T : Type) (ops : ScalarOps T) (a : LFQ_args T) (w : init_weights T),
    (a_dim a = None -> a_codebook_size a = None ->
     LFQ_init ops a w = Err (AssertionError MsgDimOrCodebookSize))
    /\
    (forall n, a_codebook_size a = Some n -> (0 < n < 2 ^ 47)%Z ->
               ~ is_power_of_two n ->
       LFQ_init ops a w = Err (AssertionError (MsgPowerOfTwo (2 ^ ceil_log2 n)))
       /\ next_power_of_two n (2 ^ ceil_log2 n))
    /\
    (forall n, a_codebook_size a = Some n -> (n <= 0)%Z ->
       LFQ_init ops a w = Err ValueError).
Proof.
  intros T ops a w. split; [| split].
  - intros Hd Hc. unfold LFQ_init. rewrite Hd, Hc. reflexivity.
  - intros n Hc [Hn _] Hnp. split; [| apply ceil_log2_next_power_of_two; exact Hn].
    assert (log2_is_integer n = false) as Hf.
    { destruct (log2_is_integer n) eqn:E; [| reflexivity].
      exfalso. apply Hnp. apply log2_is_integer_spec; assumption. }
    unfold LFQ_init. rewrite Hc.
    assert ((0 <? n)%Z = true) as Hpos by (apply Z.ltb_lt; exact Hn).
    destruct (a_dim a); cbn; rewrite Hpos; cbn; rewrite Hf; reflexivity.
  - intros n Hc Hn. unfold LFQ_init. rewrite Hc.
    assert ((0 <? n)%Z = false) as Hneg by (apply Z.ltb_ge; exact Hn).
    destruct (a_dim a); cbn; rewrite Hneg; reflexivity.
Qed.

Lemma LFQ_init_validation_witness :
  LFQ_init ops32 (default_args ops32 None (Some 5%Z)) (zero_init ops32)
  = Err (AssertionError (MsgPowerOfTwo 8))
  /\ next_power_of_two 5 8.
Proof.
  exact (proj1 (proj2 (LFQ_init_validation spec_float ops32
                         (default_args ops32 None (Some 5%Z)) (zero_init ops32)))
               5%Z eq_refl ltac:(split; reflexivity) not_power_of_two_5).
Defined.

(** ** What a constructed module satisfies *)

Ltac step_assert H :=
  match type of H with
  | context [guard ?b ?e] =>
      destruct b eqn:?; cbn [guard assert_ bind] in H; [| discriminate H]
  | context [assert_ ?b ?m] =>
      destruct b eqn:?; cbn [guard assert_ bind] in H; [| discriminate H]
  end.

Lemma pow2_int_log2 (n : Z) :
  (0 < n)%Z -> log2_is_integer n = true ->
  n = (2 ^ Z.of_nat (Z.to_nat (int_log2 n)))%Z.
Proof.
  intros Hn H. unfold int_log2. rewrite Z2Nat.id by apply Z.log2_nonneg.
  apply Z.eqb_eq. exact H.
Qed.

Lemma int_log2_pow2 (d : nat) : Z.to_nat (int_log2 (2 ^ Z.of_nat d)) = d.
Proof.
  unfold int_log2. rewrite Z.log2_pow2 by lia. apply Nat2Z.id.
Qed.

Lemma keep_flag_bound (c : nat) (k : bool) :
  negb ((1 <? c) && negb k) = true -> k = false -> c <= 1.
Proof.
  intros H ->. rewrite andb_true_r in H. apply negb_true_iff in H.
  apply Nat.ltb_ge in H. exact H.
Qed.

Section Constructed.
Variable T : Type.
Variable ops : ScalarOps T.

Lemma LFQ_init_constructed (a : LFQ_args T) (w : init_weights T) (self : LFQ T) :
  LFQ_init ops a w = Ok self -> constructed ops self.
Proof.
  unfold LFQ_init. intros H.
  destruct (a_dim a) as [d |] eqn:Hd; destruct (a_codebook_size a) as [n |] eqn:Hn;
    cbn [assert_ bind] in H; try discriminate H;
    repeat step_assert H; injection H as <-;
    (constructor; cbn [codebook_size codebook_dim mask codebook codebook_scale
                       zero_buffer keep_num_codebooks_dim num_codebooks
                       has_projections project_in project_out dim];
     [ try (apply Z.ltb_lt; assumption); try (apply Z.pow_pos_nonneg; lia)
     | try (apply pow2_int_log2; [apply Z.ltb_lt |]; assumption);
       try (rewrite int_log2_pow2; reflexivity)
     | reflexivity
     | rewrite map_map; reflexivity
     | reflexivity
     | intros Hk; eapply keep_flag_bound; eassumption
     | intros Hh; rewrite Hh; split; reflexivity
     | intros Hh; rewrite Hh; destruct (a_cosine_sim_project_in a);
       cbn; rewrite ?Nat.eqb_refl; repeat split; reflexivity ]).
Qed.
End Constructed.

(** ** The enumerated codebook and the index codec *)

Lemma nth_error_arange (n i : Z) :
  (0 <= i < n)%Z -> nth_error (arange n) (Z.to_nat i) = Some i.
Proof.
  intros Hi. unfold arange.
  rewrite nth_error_map, nth_error_seq.
  assert ((Z.to_nat i <? Z.to_nat n) = true) as -> by (apply Nat.ltb_lt; lia).
  cbn. f_equal. lia.
Qed.

(** C10: row [i] of the codebook buffer built by [__init__] is
    [bits_to_codes] of the mask bits of [i], and [indices_to_codes] (without
    projection) returns the same codeword, passed through [maybe_l2norm]. *)
Theorem codebook_row_is_decoded_index :
  forall (T : Type) (ops : ScalarOps T) (a : LFQ_args T) (w : init_weights T)
         (self : LFQ T) (i : Z),
    LFQ_init ops a w = Ok self ->
    (0 <= i < codebook_size self)%Z ->
    exists row,
      nth_error (codebook self) (Z.to_nat i) = Some row
      /\ row = bits_to_codes ops self (index_bits ops (mask self) i)
      /\ (channel_first self = false ->
          indices_to_codes ops self
            {| shape := if keep_num_codebooks_dim self then [1] else [];
               data := [i] |} false
          = Ok {| shape := [codebook_dim self];
                  data := maybe_l2norm ops self row |}).
Proof.
  intros T ops a w self i Hinit Hi.
  pose proof (LFQ_init_constructed T ops a w self Hinit) as C.
  exists (bits_to_codes ops self (index_bits ops (mask self) i)).
  split; [| split; [reflexivity |]].
  - rewrite (c_codebook C), nth_error_map, nth_error_arange by exact Hi.
    reflexivity.
  - intros Hcf. unfold indices_to_codes. rewrite Hcf.
    destruct (keep_num_codebooks_dim self); cbn;
      rewrite ?app_nil_r, ?Nat.add_0_r; reflexivity.
Qed.

(** ** Machine integers and the bit mask *)

Lemma wrap_signed_small (w z : Z) :
  (0 < w)%Z -> (- 2 ^ (w - 1) <= z < 2 ^ (w - 1))%Z -> wrap_signed w z = z.
Proof.
  intros Hw Hz. unfold wrap_signed.
  assert (2 ^ w = 2 * 2 ^ (w - 1))%Z as Hp.
  { replace w with (Z.succ (w - 1)) at 1 by lia. apply Z.pow_succ_r. lia. }
  rewrite Z.mod_small by lia. lia.
Qed.

Lemma int32_small (z : Z) :
  (- 2 ^ 31 <= z < 2 ^ 31)%Z -> int32 z = z.
Proof. intros H. apply wrap_signed_small; [lia | exact H]. Qed.

Lemma int64_small (z : Z) :
  (- 2 ^ 63 <= z < 2 ^ 63)%Z -> int64 z = z.
Proof. intros H. apply wrap_signed_small; [lia | exact H]. Qed.

Lemma pow2_lt_mono (k d : Z) : (0 <= k < d)%Z -> (2 ^ k < 2 ^ d)%Z.
Proof. intros H. apply Z.pow_lt_mono_r; lia. Qed.

Lemma pow2_le_mono (k d : Z) : (0 <= k <= d)%Z -> (2 ^ k <= 2 ^ d)%Z.
Proof. intros H. apply Z.pow_le_mono_r; lia. Qed.

Lemma bit_at_range (i k : Z) : (0 <= bit_at i k < 2)%Z.
Proof. unfold bit_at. apply Z.mod_pos_bound. lia. Qed.

Lemma land_pow2_testbit (i k : Z) :
  (0 <= k)%Z ->
  (Z.land i (2 ^ k) =? 0)%Z = negb (Z.testbit i k).
Proof.
  intros Hk. destruct (Z.testbit i k) eqn:Hb; cbn.
  - apply Z.eqb_neq. intros H0.
    assert (Z.testbit (Z.land i (2 ^ k)) k = true) as Ht.
    { rewrite Z.land_spec, Hb, Z.pow2_bits_true by lia. reflexivity. }
    rewrite H0, Z.bits_0 in Ht. discriminate Ht.
  - apply Z.eqb_eq. apply Z.bits_inj'. intros n Hn.
    rewrite Z.land_spec, Z.bits_0.
    destruct (Z.eq_dec n k) as [-> | Hne].
    + rewrite Hb. reflexivity.
    + rewrite (Z.pow2_bits_false k n) by lia. apply andb_false_r.
Qed.

Lemma testbit_bit_at (i k : Z) :
  (0 <= k)%Z -> (if Z.testbit i k then 1 else 0)%Z = bit_at i k.
Proof.
  intros Hk. unfold bit_at.
  rewrite <- Z.testbit_spec' by exact Hk.
  destruct (Z.testbit i k); reflexivity.
Qed.

Lemma fold_add_shift (l : list Z) (a : Z) :
  fold_left Z.add l a = (a + fold_left Z.add l 0)%Z.
Proof.
  revert a. induction l as [| x l IH]; intros a; cbn; [lia |].
  rewrite (IH (a + x)%Z), (IH x). lia.
Qed.

(** The bits of [i], weighted and summed most significant first. *)
Lemma sum_of_bits (i : Z) (d : nat) :
  fold_left Z.add
            (map (fun k => (bit_at i (Z.of_nat k) * 2 ^ Z.of_nat k)%Z)
                 (rev (seq 0 d))) 0%Z
  = (i mod 2 ^ Z.of_nat d)%Z.
Proof.
  induction d as [| d IH].
  - cbn. rewrite Z.mod_1_r. reflexivity.
  - rewrite seq_S, rev_app_distr. cbn [rev app map fold_left Nat.add].
    rewrite fold_add_shift, IH. cbn [Z.add].
    rewrite Nat2Z.inj_succ, Z.pow_succ_r by lia.
    rewrite (Z.mul_comm 2), Z.rem_mul_r by lia.
    unfold bit_at. lia.
Qed.

Lemma combine_map_same {A B C} (f : A -> B) (g : A -> C) (l : list A) :
  combine (map f l) (map g l) = map (fun x => (f x, g x)) l.
Proof. induction l as [| a l IH]; cbn; [reflexivity | rewrite IH; reflexivity]. Qed.

Lemma make_mask_small (d : nat) :
  d <= 63 ->
  make_mask d = map (fun k => (2 ^ Z.of_nat k)%Z) (rev (seq 0 d)).
Proof.
  intros Hd. unfold make_mask. apply map_ext_in. intros k Hk.
  apply in_rev, in_seq in Hk.
  apply int64_small.
  pose proof (pow2_lt_mono (Z.of_nat k) 63 ltac:(lia)).
  pose proof (Z.pow_pos_nonneg 2 (Z.of_nat k) ltac:(lia) ltac:(lia)). lia.
Qed.

Lemma length_make_mask (d : nat) : length (make_mask d) = d.
Proof. unfold make_mask. rewrite length_map, length_rev, length_seq. reflexivity. Qed.

Lemma length_bits_of (d : nat) (i : Z) : length (bits_of d i) = d.
Proof. unfold bits_of. rewrite length_map, length_rev, length_seq. reflexivity. Qed.

Section Codec.
Variable T : Type.
Variable ops : ScalarOps T.

(** Decoding reads the binary digits of the index. *)
Lemma index_bits_spec (d : nat) (i : Z) :
  d <= 63 -> (- 2 ^ 31 <= i < 2 ^ 31)%Z ->
  index_bits ops (make_mask d) i = map (of_bool ops) (bits_of d i).
Proof.
  intros Hd Hi. unfold index_bits, bits_of.
  rewrite make_mask_small by exact Hd. rewrite !map_map.
  apply map_ext. intros k.
  rewrite int32_small by exact Hi.
  rewrite land_pow2_testbit by lia. rewrite negb_involutive. reflexivity.
Qed.

(** Encoding a sign pattern that spells the digits of [i] gives [i]. *)
Lemma index_of_spec (self : LFQ T) (d : nat) (i : Z) (q : list T) :
  mask self = make_mask d -> d <= 31 -> (0 <= i < 2 ^ Z.of_nat d)%Z ->
  map (fun v => if gt ops v (zero ops) then 1%Z else 0%Z) q
  = map (fun b : bool => if b then 1%Z else 0%Z) (bits_of d i) ->
  index_of ops self q = Ok i.
Proof.
  intros Hm Hd Hi Hq. unfold index_of. rewrite Hq, Hm.
  unfold broadcast2.
  rewrite !length_map, length_bits_of, length_make_mask, Nat.eqb_refl.
  cbn [bind]. f_equal.
  rewrite make_mask_small by lia. unfold bits_of.
  rewrite !map_map, combine_map_same, map_map. cbn [fst snd].
  assert (2 ^ Z.of_nat d <= 2 ^ 31)%Z as Hd31 by (apply pow2_le_mono; lia).
  rewrite (map_ext_in _ (fun k => (bit_at i (Z.of_nat k) * 2 ^ Z.of_nat k)%Z)).
  - rewrite sum_of_bits, Z.mod_small by exact Hi.
    apply int64_small. lia.
  - intros k Hk. apply in_rev, in_seq in Hk.
    rewrite testbit_bit_at by lia.
    pose proof (bit_at_range i (Z.of_nat k)) as Hb.
    pose proof (pow2_le_mono (Z.of_nat k) 30 ltac:(lia)) as Hk30.
    pose proof (Z.pow_pos_nonneg 2 (Z.of_nat k) ltac:(lia) ltac:(lia)) as Hkp.
    rewrite (int32_small (2 ^ Z.of_nat k)) by lia.
    apply int32_small. nia.
Qed.
End Codec.

(** ** Lists, blocks and traversals *)

Lemma length_chunks {A} (k s : nat) (l : list A) : length (chunks k s l) = k.
Proof.
  revert l. induction k as [| k IH]; intros l; cbn; [reflexivity |].
  rewrite IH. reflexivity.
Qed.

Lemma concat_chunks {A} (k s : nat) (l : list A) :
  length l = k * s -> concat (chunks k s l) = l.
Proof.
  revert l. induction k as [| k IH]; intros l Hl; cbn in *.
  - destruct l; [reflexivity | discriminate Hl].
  - rewrite IH.
    + apply firstn_skipn.
    + rewrite length_skipn. lia.
Qed.

Lemma Forall_length_chunks {A} (k s : nat) (l : list A) :
  length l = k * s -> Forall (fun c => length c = s) (chunks k s l).
Proof.
  revert l. induction k as [| k IH]; intros l Hl; cbn in *; constructor.
  - rewrite length_firstn. lia.
  - apply IH. rewrite length_skipn. lia.
Qed.

Lemma chunks_concat {A} (s : nat) (ls : list (list A)) :
  Forall (fun c => length c = s) ls ->
  chunks (length ls) s (concat ls) = ls.
Proof.
  induction 1 as [| c ls Hc _ IH]; cbn; [reflexivity |].
  rewrite firstn_app, Hc, Nat.sub_diag, firstn_all2 by lia.
  cbn. rewrite app_nil_r.
  rewrite skipn_app, Hc, Nat.sub_diag, skipn_all2 by lia.
  cbn. rewrite IH. reflexivity.
Qed.

Lemma chunks_map {A B} (f : A -> B) (k s : nat) (l : list A) :
  chunks k s (map f l) = map (map f) (chunks k s l).
Proof.
  revert l. induction k as [| k IH]; intros l; cbn; [reflexivity |].
  rewrite firstn_map, skipn_map, IH. reflexivity.
Qed.

Lemma length_concat_const {A} (s : nat) (ls : list (list A)) :
  Forall (fun c => length c = s) ls -> length (concat ls) = length ls * s.
Proof.
  induction 1 as [| c ls Hc _ IH]; cbn; [reflexivity |].
  rewrite length_app, IH, Hc. reflexivity.
Qed.

Lemma mapM_ok {A B} (f : A -> result B) (g : A -> B) (l : list A) :
  (forall a, In a l -> f a = Ok (g a)) -> mapM f l = Ok (map g l).
Proof.
  induction l as [| a l IH]; intros H; cbn; [reflexivity |].
  rewrite (H a) by (left; reflexivity).
  rewrite IH by (intros x Hx; apply H; right; exact Hx). reflexivity.
Qed.

Lemma mapM_inv {A B} (f : A -> result B) (l : list A) (r : list B) :
  mapM f l = Ok r -> Forall2 (fun a b => f a = Ok b) l r.
Proof.
  revert r. induction l as [| a l IH]; intros r H; cbn in H.
  - injection H as <-. constructor.
  - destruct (f a) as [b | e] eqn:Hb; [| discriminate H].
    destruct (mapM f l) as [bs | e]; [| discriminate H].
    injection H as <-. constructor; [exact Hb | apply IH; reflexivity].
Qed.

Lemma Forall2_length_eq {A B} (P : A -> B -> Prop) (l : list A) (r : list B) :
  Forall2 P l r -> length l = length r.
Proof. induction 1; cbn; congruence. Qed.

(** ** Exact arithmetic: signs through decoding and thresholding *)

Section ExactSigns.
Local Open Scope R_scope.
Local Abbreviation ops := ExactR.ops.

Lemma R_bits_to_codes_at (s : R) (b : bool) :
  bits_to_codes_at ops s (of_bool ops b) = if b then s else - s.
Proof. unfold bits_to_codes_at, of_bool. destruct b; cbn; lra. Qed.
End ExactSigns.

(** ** The stages of [forward] *)

Section ForwardStages.
Variable T : Type.
Variable ops : ScalarOps T.
Variable entropy : list T -> T.
Variable maybe_distributed_mean : list (list T) -> list (list T).
Variable self : LFQ T.

Lemma pre_quantize_ok (x : tensor T) (b n D : nat) :
  shape x = [b; n; D] -> D = dim self ->
  accepts (project_in self) D = true ->
  0 < num_codebooks self ->
  out_size (project_in self) D mod num_codebooks self = 0 ->
  pre_quantize ops self x
  = Ok (b, n, out_size (project_in self) D,
        map (map (maybe_l2norm ops self))
            (map (chunks (num_codebooks self)
                         (out_size (project_in self) D / num_codebooks self))
                 (projected ops self x))).
Proof.
  intros Hs HD Hacc Hc Hmod. unfold pre_quantize, projected. rewrite Hs.
  cbn [length Nat.eqb negb guard bind last removelast].
  rewrite <- HD, Nat.eqb_refl. cbn [assert_ bind]. rewrite Hacc. cbn [guard bind].
  apply Nat.ltb_lt in Hc. apply Nat.eqb_eq in Hmod. rewrite Hc, Hmod.
  cbn [andb guard bind fst snd]. reflexivity.
Qed.

Lemma pre_quantize_inv (x : tensor T) (b n feat : nat)
      (xs : list (list (list T))) :
  pre_quantize ops self x = Ok (b, n, feat, xs) ->
  exists D,
    shape x = [b; n; D] /\ D = dim self
    /\ accepts (project_in self) D = true
    /\ 0 < num_codebooks self
    /\ feat = out_size (project_in self) D
    /\ feat mod num_codebooks self = 0
    /\ xs = map (map (maybe_l2norm ops self))
                (map (chunks (num_codebooks self) (feat / num_codebooks self))
                     (projected ops self x)).
Proof.
  unfold pre_quantize, projected. intros H.
  repeat step_assert H.
  destruct (shape x) as [| b' [| n' [| D [| ? ?]]]] eqn:Hs;
    cbn [bind] in H; try discriminate H.
  step_assert H. cbn [fst snd last removelast] in *.
  injection H as <- <- <- <-.
  match goal with
  | E : (_ && _)%bool = true |- _ =>
      apply andb_true_iff in E; destruct E as [Ec Em]
  end.
  exists D. repeat split; try assumption.
  - apply Nat.eqb_eq. assumption.
  - apply Nat.ltb_lt. exact Ec.
  - apply Nat.eqb_eq. exact Em.
Qed.

Lemma standardize_sequence (x : tensor T) :
  channel_first self = false ->
  standardize self false x = Ok (x, []).
Proof. intros H. unfold standardize. rewrite H. reflexivity. Qed.

Lemma restore_indices_sequence (b n : nat) (idxs : list (list Z)) :
  (keep_num_codebooks_dim self = false -> num_codebooks self = 1) ->
  restore_indices self false [] b n idxs
  = Ok {| shape := if keep_num_codebooks_dim self
                   then [b; n; num_codebooks self] else [b; n];
          data := concat idxs |}.
Proof.
  intros Hk. unfold restore_indices. cbn [bind].
  destruct (keep_num_codebooks_dim self); [reflexivity |].
  rewrite Hk by reflexivity. reflexivity.
Qed.

Lemma restore_quantized_sequence (b n feat : nat) (xs : list (list (list T))) :
  channel_first self = false ->
  accepts (project_out self) feat = true ->
  restore_quantized ops self false [] b n feat xs
  = Ok {| shape := [b; n; out_size (project_out self) feat];
          data := concat (map (fun tok => apply_module ops (project_out self)
                                                       (concat tok)) xs) |}.
Proof.
  intros Hcf Hacc. unfold restore_quantized. rewrite Hacc, Hcf. reflexivity.
Qed.
End ForwardStages.

Section ForwardInversion.
Variable T : Type.
Variable ops : ScalarOps T.
Variable entropy : list T -> T.
Variable maybe_distributed_mean : list (list T) -> list (list T).
Variable self : LFQ T.

Local Abbreviation fwd := (forward_with_breakdown ops entropy maybe_distributed_mean self).

(** Every successful call went through the stages, in order. *)
Lemma forward_inv (training : bool) (noise : nat -> T) (x : tensor T)
      (inv_temperature : T) (mask : option (tensor bool))
      (ret : Return T) (bd : LossBreakdown T) :
  fwd training noise x inv_temperature mask = Ok (ret, bd) ->
  exists xs ps b n feat xq idxs ent commit,
    standardize self (4 <=? length (shape x)) x = Ok (xs, ps)
    /\ pre_quantize ops self xs = Ok (b, n, feat, xq)
    /\ mapM (mapM (index_of ops self))
            (map (map (map (quantize_at ops self))) xq) = Ok idxs
    /\ (if training
        then entropy_losses ops entropy maybe_distributed_mean self noise
                            inv_temperature mask b n xq
        else Ok (zero_buffer self, zero_buffer self, zero_buffer self)) = Ok ent
    /\ (if training && gt ops (commitment_loss_weight self) (zero ops)
        then commit_loss_of ops mask b n xq (hard_quantized ops self xq)
        else Ok (zero_buffer self)) = Ok commit
    /\ restore_quantized ops self (4 <=? length (shape x)) ps b n feat
                         (forward_value ops self training xq)
       = Ok (quantized ret)
    /\ restore_indices self (4 <=? length (shape x)) ps b n idxs
       = Ok (indices ret)
    /\ entropy_aux_loss ret
       = add ops
           (mul ops
              (if training && experimental_softplus_entropy_loss self
               then softplus ops (add ops (fst (fst ent)) (entropy_loss_offset self))
               else fst (fst ent))
              (entropy_loss_weight self))
           (mul ops commit (commitment_loss_weight self))
    /\ bd = {| per_sample_entropy := snd (fst ent);
               batch_entropy := snd ent;
               commitment := commit |}.
Proof.
  unfold forward_with_breakdown. intros H.
  destruct (standardize self (4 <=? length (shape x)) x) as [[xs ps] |] eqn:Hstd;
    cbn [bind fst snd] in H; [| discriminate H].
  destruct (pre_quantize ops self xs) as [[[[b n] feat] xq] |] eqn:Hpre;
    cbn [bind fst snd] in H; [| discriminate H].
  destruct (mapM _ _) as [idxs |] eqn:Hidx in H;
    cbn [bind fst snd] in H; [| discriminate H].
  match type of H with
  | bind ?e _ = _ => destruct e as [ent |] eqn:Hent
  end; cbn [bind fst snd] in H; [| discriminate H].
  match type of H with
  | bind ?e _ = _ => destruct e as [commit |] eqn:Hcommit
  end; cbn [bind fst snd] in H; [| discriminate H].
  match type of H with
  | bind ?e _ = _ => destruct e as [xo |] eqn:Hxo
  end; cbn [bind fst snd] in H; [| discriminate H].
  match type of H with
  | bind ?e _ = _ => destruct e as [io |] eqn:Hio
  end; cbn [bind fst snd] in H; [| discriminate H].
  injection H as <- <-.
  exists xs, ps, b, n, feat, xq, idxs, ent, commit.
  cbn [quantized indices entropy_aux_loss].
  repeat split; assumption || reflexivity.
Qed.

(** In inference mode the stages decide the result. *)
Lemma forward_eval (noise : nat -> T) (x : tensor T) (inv_temperature : T)
      (mask : option (tensor bool)) (xs : tensor T) (ps : list nat)
      (b n feat : nat) (xq : list (list (list T))) (idxs : list (list Z))
      (xo : tensor T) (io : tensor Z) :
  standardize self (4 <=? length (shape x)) x = Ok (xs, ps) ->
  pre_quantize ops self xs = Ok (b, n, feat, xq) ->
  mapM (mapM (index_of ops self))
       (map (map (map (quantize_at ops self))) xq) = Ok idxs ->
  restore_quantized ops self (4 <=? length (shape x)) ps b n feat
                    (hard_quantized ops self xq) = Ok xo ->
  restore_indices self (4 <=? length (shape x)) ps b n idxs = Ok io ->
  fwd false noise x inv_temperature mask
  = Ok ({| quantized := xo; indices := io;
           entropy_aux_loss :=
             add ops (mul ops (zero_buffer self) (entropy_loss_weight self))
                     (mul ops (zero_buffer self) (commitment_loss_weight self)) |},
        {| per_sample_entropy := zero_buffer self;
           batch_entropy := zero_buffer self;
           commitment := zero_buffer self |}).
Proof.
  intros Hstd Hpre Hidx Hxo Hio. unfold forward_with_breakdown.
  rewrite Hstd. cbn [bind fst snd]. rewrite Hpre. cbn [bind fst snd].
  rewrite Hidx. cbn [bind fst snd andb].
  unfold hard_quantized in Hxo. rewrite Hxo. cbn [bind]. rewrite Hio.
  reflexivity.
Qed.
End ForwardInversion.

(** ** Decoding, then encoding *)

Lemma mapM_map {A B C} (h : A -> B) (f : B -> result C) (l : list A) :
  mapM f (map h l) = mapM (fun a => f (h a)) l.
Proof.
  induction l as [| a l IH]; cbn; [reflexivity | rewrite IH; reflexivity].
Qed.

Lemma in_chunks {A} (k s : nat) (l : list A) (c : list A) (a : A) :
  In c (chunks k s l) -> In a c -> In a l.
Proof.
  revert l. induction k as [| k IH]; intros l Hc Ha; cbn in Hc; [contradiction |].
  destruct Hc as [<- | Hc].
  - rewrite <- (firstn_skipn s l). apply in_or_app. left. exact Ha.
  - rewrite <- (firstn_skipn s l). apply in_or_app. right. eapply IH; eassumption.
Qed.

Section Codewords.
Variable T : Type.
Variable ops : ScalarOps T.
Variable self : LFQ T.

Lemma length_maybe_l2norm (t : list T) :
  length (maybe_l2norm ops self t) = length t.
Proof.
  unfold maybe_l2norm, l2norm. destruct (spherical self); [| reflexivity].
  rewrite !length_map. reflexivity.
Qed.

Lemma length_decode_index (i : Z) :
  length (decode_index ops self i) = length (mask self).
Proof.
  unfold decode_index, bits_to_codes, index_bits.
  rewrite length_maybe_l2norm, !length_map. reflexivity.
Qed.
End Codewords.

(** ** Modules without projection: [forward] acts elementwise *)

Lemma map2_map_same {A B C} (f : A -> B -> C) (g : A -> B) (l : list A) :
  map2 f l (map g l) = map (fun a => f a (g a)) l.
Proof.
  unfold map2. induction l as [| a l IH]; cbn; [reflexivity |].
  rewrite IH. reflexivity.
Qed.

Lemma map_chunks_concat {A} (c d : nat) (toks : list (list A)) :
  Forall (fun tok => length tok = c * d) toks ->
  map (fun tok => concat (chunks c d tok)) toks = toks.
Proof.
  induction 1 as [| tok toks Ht _ IH]; cbn; [reflexivity |].
  rewrite IH, concat_chunks by exact Ht. reflexivity.
Qed.

Lemma Forall_chunks_lengths {A} (c d : nat) (tok : list A) :
  length tok = c * d -> Forall (fun v => length v = d) (chunks c d tok).
Proof. apply Forall_length_chunks. Qed.

Section Plain.
Variable T : Type.
Variable ops : ScalarOps T.
Variable entropy : list T -> T.
Variable maybe_distributed_mean : list (list T) -> list (list T).
Variable self : LFQ T.

Local Abbreviation fwd := (forward_with_breakdown ops entropy maybe_distributed_mean self).

Lemma index_of_defined (q : list T) :
  length q = length (mask self) -> exists z, index_of ops self q = Ok z.
Proof.
  intros Hl. unfold index_of, broadcast2.
  rewrite !length_map, Hl, Nat.eqb_refl. cbn [bind]. eexists. reflexivity.
Qed.

Lemma mapM_defined {A B} (f : A -> result B) (l : list A) :
  (forall a, In a l -> exists b, f a = Ok b) -> exists r, mapM f l = Ok r.
Proof.
  induction l as [| a l IH]; intros H; cbn; [eexists; reflexivity |].
  destruct (H a (or_introl eq_refl)) as [b ->].
  destruct IH as [r ->]; [intros x Hx; apply H; right; exact Hx |].
  eexists. reflexivity.
Qed.

Variable xs : tensor T.
Variables b n : nat.
Hypothesis Hplain : plain self.
Hypothesis Hshape : shape xs = [b; n; dim self].
Hypothesis Hws : well_shaped xs.

Local Abbreviation c := (num_codebooks self).
Local Abbreviation d := (codebook_dim self).
Local Abbreviation toks := (chunks (numel [b; n]) (dim self) (data xs)).

Lemma plain_tokens : Forall (fun tok => length tok = c * d) toks.
Proof.
  rewrite Nat.mul_comm, <- (p_dim Hplain).
  apply Forall_length_chunks.
  unfold well_shaped in Hws. rewrite Hws, Hshape. cbn. lia.
Qed.

Lemma plain_concat_tokens : concat toks = data xs.
Proof.
  apply concat_chunks.
  unfold well_shaped in Hws. rewrite Hws, Hshape. cbn. lia.
Qed.

Lemma plain_pre_quantize :
  pre_quantize ops self xs = Ok (b, n, dim self, map (chunks c d) toks).
Proof.
  rewrite (pre_quantize_ok T ops self xs b n (dim self) Hshape eq_refl).
  - rewrite (p_in Hplain). cbn [out_size].
    unfold projected. rewrite (p_in Hplain), (p_clamp Hplain), Hshape.
    cbn [apply_module last removelast]. rewrite map_id.
    rewrite (p_dim Hplain) at 2. rewrite Nat.div_mul by (pose proof (p_codebooks Hplain); lia).
    do 2 f_equal.
    unfold maybe_l2norm. rewrite (p_spherical Hplain).
    rewrite map_ext with (g := fun v => v) by (intros v; apply map_id).
    apply map_id.
  - rewrite (p_in Hplain). reflexivity.
  - exact (p_codebooks Hplain).
  - rewrite (p_in Hplain). cbn [out_size]. rewrite (p_dim Hplain).
    apply Nat.Div0.mod_mul.
Qed.

Lemma plain_hard_quantized (xq : list (list (list T))) :
  hard_quantized ops self xq = map (map (map (quantize_at ops self))) xq.
Proof.
  unfold hard_quantized, maybe_l2norm. rewrite (p_spherical Hplain).
  rewrite map_ext with (g := fun v => v) by (intros v; apply map_id).
  apply map_id.
Qed.

Lemma plain_forward_value (training : bool) (xq : list (list (list T))) :
  forward_value ops self training xq
  = map (map (map (fun v => if training
                            then straight_through ops self v (quantize_at ops self v)
                            else quantize_at ops self v))) xq.
Proof.
  unfold forward_value. rewrite plain_hard_quantized.
  destruct training; [| reflexivity].
  rewrite map2_map_same. apply map_ext. intros tok.
  rewrite map2_map_same. apply map_ext. intros v.
  apply map2_map_same.
Qed.

(** Merging the codebook axis back gives the elements in their order. *)
Lemma plain_merged (F : T -> T) :
  concat (map (fun tok => apply_module ops (project_out self) (concat tok))
              (map (map (map F)) (map (chunks c d) toks)))
  = map F (data xs).
Proof.
  rewrite (p_out Hplain). cbn [apply_module].
  rewrite !map_map.
  rewrite map_ext with (g := fun tok => map F (concat (chunks c d tok)))
    by (intros tok; rewrite <- concat_map; reflexivity).
  rewrite <- map_map with (f := fun tok => concat (chunks c d tok)) (g := map F).
  rewrite map_chunks_concat by exact plain_tokens.
  rewrite <- concat_map, plain_concat_tokens. reflexivity.
Qed.

Lemma plain_indices_defined :
  exists idxs,
    mapM (mapM (index_of ops self))
         (map (map (map (quantize_at ops self))) (map (chunks c d) toks))
    = Ok idxs.
Proof.
  apply mapM_defined. intros tok Htok.
  apply mapM_defined. intros v Hv.
  apply index_of_defined.
  rewrite (p_mask Hplain).
  rewrite map_map in Htok. apply in_map_iff in Htok.
  destruct Htok as [tok0 [<- Hin0]].
  apply in_map_iff in Hv. destruct Hv as [v0 [<- Hv0]].
  rewrite length_map.
  pose proof plain_tokens as Ht. rewrite Forall_forall in Ht.
  pose proof (Forall_chunks_lengths c d tok0 (Ht tok0 Hin0)) as Hc.
  rewrite Forall_forall in Hc. apply Hc. exact Hv0.
Qed.

(** The input [x] of [forward], of which [xs] is the standardized form
    and [ps] the packed shape. *)
Variable x : tensor T.
Variable ps : list nat.

Local Abbreviation is_img_or_video := (4 <=? length (shape x)).

Hypothesis Hstd : standardize self is_img_or_video x = Ok (xs, ps).
Hypothesis Hps : is_img_or_video = true -> n = numel ps.
Hypothesis Hlayout :
  forall F : T -> T,
    restore_layout (channel_first self) is_img_or_video ps
                   {| shape := [b; n; dim self]; data := map F (data xs) |}
    = Ok {| shape := shape x; data := map F (data x) |}.

Lemma plain_restore (F : T -> T) :
  restore_quantized ops self is_img_or_video ps b n (dim self)
                    (map (map (map F)) (map (chunks c d) toks))
  = Ok {| shape := shape x; data := map F (data x) |}.
Proof.
  unfold restore_quantized. rewrite plain_merged, (p_out Hplain).
  cbn [accepts guard bind out_size]. exact (Hlayout F).
Qed.

Lemma plain_restore_indices (idxs : list (list Z)) :
  exists io, restore_indices self is_img_or_video ps b n idxs = Ok io.
Proof.
  unfold restore_indices, unpack_one. cbn [shape].
  pose proof (p_keep Hplain) as Hk.
  destruct is_img_or_video.
  - rewrite (Hps eq_refl), Nat.eqb_refl. cbn [bind shape data].
    destruct (keep_num_codebooks_dim self); [eexists; reflexivity |].
    change (b :: ps ++ [c]) with ((b :: ps) ++ [c]).
    rewrite last_last, (Hk eq_refl). cbn [Nat.eqb]. eexists. reflexivity.
  - cbn [bind shape data last].
    destruct (keep_num_codebooks_dim self); [eexists; reflexivity |].
    rewrite (Hk eq_refl). cbn [Nat.eqb]. eexists. reflexivity.
Qed.

(** What [forward] returns as the quantized tensor of a plain module. *)
Lemma forward_plain_quantized (training : bool) (noise : nat -> T)
      (inv_temperature : T) (mask : option (tensor bool))
      (ret : Return T) (bd : LossBreakdown T) :
  fwd training noise x inv_temperature mask = Ok (ret, bd) ->
  quantized ret
  = {| shape := shape x;
       data := map (fun v => if training
                             then straight_through ops self v (quantize_at ops self v)
                             else quantize_at ops self v) (data x) |}.
Proof.
  intros H. apply forward_inv in H.
  destruct H as (xs' & ps' & b' & n' & feat & xq & idxs & ent & commit
                 & H1 & H2 & _ & _ & _ & H6 & _).
  rewrite Hstd in H1. injection H1 as <- <-.
  rewrite plain_pre_quantize in H2. injection H2 as <- <- <- <-.
  rewrite plain_forward_value, plain_restore in H6.
  injection H6 as <-. reflexivity.
Qed.

Lemma forward_plain_inference_returns (noise : nat -> T)
      (inv_temperature : T) (mask : option (tensor bool)) :
  exists ret bd,
    fwd false noise x inv_temperature mask = Ok (ret, bd).
Proof.
  destruct plain_indices_defined as [idxs Hidx].
  destruct (plain_restore_indices idxs) as [io Hio].
  eexists. eexists.
  eapply forward_eval.
  - exact Hstd.
  - exact plain_pre_quantize.
  - exact Hidx.
  - rewrite plain_hard_quantized. apply plain_restore.
  - exact Hio.
Qed.
End Plain.

Lemma constructed_plain {T} (ops : ScalarOps T) (self : LFQ T) :
  constructed ops self ->
  has_projections self = false ->
  dim self = codebook_dim self * num_codebooks self ->
  0 < num_codebooks self ->
  soft_clamp_input_value self = None ->
  spherical self = false ->
  plain self.
Proof.
  intros C Hp Hd Hc Hcl Hsp.
  destruct (c_no_proj C Hp) as [Hin Hout].
  constructor; try assumption.
  - rewrite (c_mask C). apply length_make_mask.
  - intros Hk. pose proof (c_keep C Hk). lia.
Qed.

(** ** binary32: multiplying by one, and the straight-through value *)

Lemma digits2_pos_shift23 (m : positive) :
  Zpos (digits2_pos (m~0~0~0~0~0~0~0~0~0~0~0~0~0~0~0~0~0~0~0~0~0~0~0))
  = (Zpos (digits2_pos m) + 23)%Z.
Proof. cbn [digits2_pos]. lia. Qed.

(** [1.0 * s = s] for every binary32 value: the product is exact. *)
Lemma b32_one_mul (s : spec_float) :
  valid_binary Binary32.prec Binary32.emax s = true ->
  SFmul Binary32.prec Binary32.emax Binary32.pone s = s.
Proof.
  destruct s as [sg | sg | | sg m e]; try reflexivity.
  unfold Binary32.prec, Binary32.emax.
  unfold valid_binary, bounded, canonical_mantissa.
  intros Hb. apply andb_true_iff in Hb. destruct Hb as [Hc He].
  apply Z.eqb_eq in Hc.
  unfold SFmul, Binary32.pone.
  change (8388608 * m)%positive
    with (m~0~0~0~0~0~0~0~0~0~0~0~0~0~0~0~0~0~0~0~0~0~0~0)%positive.
  unfold binary_round_aux, shr_fexp at 1.
  unfold Zdigits2. rewrite digits2_pos_shift23.
  replace (Z.pos (digits2_pos m) + 23 + (-23 + e))%Z
    with (Z.pos (digits2_pos m) + e)%Z by lia.
  rewrite Hc.
  replace (e - (-23 + e))%Z with 23%Z by lia.
  cbn [shr shr_record_of_loc SpecFloat.iter_pos shr_1 orb shr_m loc_of_shr_record
       round_nearest_even].
  unfold shr_fexp. cbn [Zdigits2].
  replace (-23 + e + 23)%Z with e by lia.
  rewrite Hc, Z.sub_diag. cbn [shr shr_record_of_loc shr_m].
  rewrite He. reflexivity.
Qed.

(** ** Inference mode: no randomness, no loss *)

Lemma b32_zero_terms (we wc : spec_float) :
  Binary32.is_finite we = true -> Binary32.is_finite wc = true ->
  Binary32.is_zero
    (SFadd Binary32.prec Binary32.emax
           (SFmul Binary32.prec Binary32.emax Binary32.pzero we)
           (SFmul Binary32.prec Binary32.emax Binary32.pzero wc)) = true.
Proof.
  destruct we as [s1 | s1 | | s1 m1 e1]; try discriminate;
    destruct wc as [s2 | s2 | | s2 m2 e2]; try discriminate;
    intros _ _; destruct s1, s2; reflexivity.
Qed.

Section Inference.
Variable T : Type.
Variable ops : ScalarOps T.
Variable entropy : list T -> T.
Variable maybe_distributed_mean : list (list T) -> list (list T).
Variable self : LFQ T.

(** Inference never reads [frac_per_sample_entropy], the noise or the
    mask. *)
Lemma forward_inference_independent (f1 f2 : spec_float)
      (noise1 noise2 : nat -> T) (x : tensor T) (inv_temperature : T)
      (mask1 mask2 : option (tensor bool)) :
  forward_with_breakdown ops entropy maybe_distributed_mean
                         (set_frac_per_sample_entropy self f1) false noise1 x
                         inv_temperature mask1
  = forward_with_breakdown ops entropy maybe_distributed_mean
                           (set_frac_per_sample_entropy self f2) false noise2 x
                           inv_temperature mask2.
Proof. reflexivity. Qed.

Lemma forward_inference_losses (noise : nat -> T) (x : tensor T)
      (inv_temperature : T) (mask : option (tensor bool))
      (ret : Return T) (bd : LossBreakdown T) :
  forward_with_breakdown ops entropy maybe_distributed_mean self false noise x
                         inv_temperature mask = Ok (ret, bd) ->
  entropy_aux_loss ret
  = add ops (mul ops (zero_buffer self) (entropy_loss_weight self))
            (mul ops (zero_buffer self) (commitment_loss_weight self))
  /\ bd = {| per_sample_entropy := zero_buffer self;
             batch_entropy := zero_buffer self;
             commitment := zero_buffer self |}.
Proof.
  intros H. apply forward_inv in H.
  destruct H as (xs & ps & b' & n' & feat & xq & idxs & ent & commit
                 & _ & _ & _ & H4 & H5 & _ & _ & H8 & H9).
  cbn [andb] in H5, H8. injection H4 as <-. injection H5 as <-.
  cbn [fst snd] in H8, H9. split; assumption.
Qed.
End Inference.

(** C4, as stated, fails: [__init__] does not validate the loss weights,
    and for [entropy_loss_weight = inf] the auxiliary loss of inference
    mode, [0 * inf + 0 * w2], is a NaN and not zero. *)
Lemma inference_loss_nan_for_infinite_weight :
  exists self ret bd,
    LFQ_init ops32 args4_32_infinite_weight (zero_init ops32) = Ok self
    /\ forward_with_breakdown ops32 entropy0 no_reduction self false noise0
                              x_1x2x2 (Binary32.of_Z 100) None = Ok (ret, bd)
    /\ entropy_aux_loss ret = S754_nan
    /\ Binary32.is_zero (entropy_aux_loss ret) = false.
Proof.
  do 3 eexists.
  split; [vm_compute; reflexivity |].
  split; [vm_compute; reflexivity |].
  split; reflexivity.
Qed.

(** C4 (amended): in binary32, for a module whose two loss weights are
    finite, in inference mode [forward] is a function of the module and the
    input alone: with any other value of [frac_per_sample_entropy] and any
    other random draw it gives the same result (quantized tensor, indices
    and losses); and every loss it returns is zero: the breakdown holds the
    [zero] buffer three times and the auxiliary loss is [0 * w1 + 0 * w2],
    a zero. *)
Theorem inference_deterministic_zero_loss :
  forall (fexp ftanh fsoftplus : spec_float -> spec_float)
         (entropy : list spec_float -> spec_float)
         (maybe_distributed_mean : list (list spec_float) -> list (list spec_float))
         (a : LFQ_args spec_float) (w : init_weights spec_float)
         (self : LFQ spec_float) (x : tensor spec_float)
         (inv_temperature : spec_float) (mask : option (tensor bool)),
    LFQ_init (Binary32.ops fexp ftanh fsoftplus) a w = Ok self ->
    Binary32.is_finite (entropy_loss_weight self) = true ->
    Binary32.is_finite (commitment_loss_weight self) = true ->
    (forall f noise1 noise2,
        forward_with_breakdown (Binary32.ops fexp ftanh fsoftplus) entropy
                               maybe_distributed_mean
                               (set_frac_per_sample_entropy self f) false noise1
                               x inv_temperature mask
        = forward_with_breakdown (Binary32.ops fexp ftanh fsoftplus) entropy
                                 maybe_distributed_mean self false noise2
                                 x inv_temperature mask)
    /\ (forall noise ret bd,
           forward_with_breakdown (Binary32.ops fexp ftanh fsoftplus) entropy
                                  maybe_distributed_mean self false noise
                                  x inv_temperature mask = Ok (ret, bd) ->
           Binary32.is_zero (entropy_aux_loss ret) = true
           /\ per_sample_entropy bd = Binary32.pzero
           /\ batch_entropy bd = Binary32.pzero
           /\ commitment bd = Binary32.pzero).
Proof.
  intros fexp ftanh fsoftplus entropy hook a w self x invT mask Hinit Hwe Hwc.
  pose proof (LFQ_init_constructed _ _ a w self Hinit) as C.
  split.
  - intros f noise1 noise2. reflexivity.
  - intros noise ret bd H.
    apply forward_inference_losses in H. destruct H as [Haux ->].
    rewrite Haux, (c_zero C). cbn [per_sample_entropy batch_entropy commitment].
    repeat split; try reflexivity.
    apply b32_zero_terms; assumption.
Qed.

Lemma inference_deterministic_zero_loss_witness :
  exists self,
    LFQ_init ops32 args4_32 (zero_init ops32) = Ok self
    /\ (forall f noise1 noise2,
          forward_with_breakdown ops32 entropy0 no_reduction
                                 (set_frac_per_sample_entropy self f) false noise1
                                 x_1x2x2 (Binary32.of_Z 100) None
          = forward_with_breakdown ops32 entropy0 no_reduction self false noise2
                                   x_1x2x2 (Binary32.of_Z 100) None)
    /\ (forall noise ret bd,
          forward_with_breakdown ops32 entropy0 no_reduction self false noise
                                 x_1x2x2 (Binary32.of_Z 100) None = Ok (ret, bd) ->
          Binary32.is_zero (entropy_aux_loss ret) = true
          /\ per_sample_entropy bd = Binary32.pzero
          /\ batch_entropy bd = Binary32.pzero
          /\ commitment bd = Binary32.pzero).
Proof.
  eexists. split; [vm_compute; reflexivity |].
  apply (inference_deterministic_zero_loss _ _ _ entropy0 no_reduction
           args4_32 (zero_init ops32)); reflexivity.
Defined.

(** ** Commitment loss with weight zero *)

(** C9: in binary32, when [commitment_loss_weight] is zero, the guard
    [self.training and self.commitment_loss_weight > 0.0] is false for every
    mode, so the mean squared error is not computed; every result of
    [forward] carries the [zero] buffer as commitment loss, and the term the
    auxiliary loss adds for it, [zero * commitment_loss_weight], is a zero. *)
Theorem zero_commitment_weight :
  forall (fexp ftanh fsoftplus : spec_float -> spec_float)
         (entropy : list spec_float -> spec_float)
         (maybe_distributed_mean : list (list spec_float) -> list (list spec_float))
         (a : LFQ_args spec_float) (w : init_weights spec_float)
         (self : LFQ spec_float),
    LFQ_init (Binary32.ops fexp ftanh fsoftplus) a w = Ok self ->
    Binary32.is_zero (commitment_loss_weight self) = true ->
    forall training,
      training && gt (Binary32.ops fexp ftanh fsoftplus)
                     (commitment_loss_weight self) Binary32.pzero = false
      /\ forall noise x inv_temperature mask ret bd,
          forward_with_breakdown (Binary32.ops fexp ftanh fsoftplus) entropy
                                 maybe_distributed_mean self training noise
                                 x inv_temperature mask = Ok (ret, bd) ->
          commitment bd = Binary32.pzero
          /\ exists e t,
              entropy_aux_loss ret = SFadd Binary32.prec Binary32.emax e t
              /\ t = SFmul Binary32.prec Binary32.emax (commitment bd)
                           (commitment_loss_weight self)
              /\ Binary32.is_zero t = true.
Proof.
  intros fexp ftanh fsoftplus entropy hook a w self Hinit Hw training.
  pose proof (LFQ_init_constructed _ _ a w self Hinit) as C.
  assert (gt (Binary32.ops fexp ftanh fsoftplus)
             (commitment_loss_weight self) Binary32.pzero = false) as Hgt.
  { destruct (commitment_loss_weight self); try discriminate Hw. reflexivity. }
  split; [rewrite Hgt; apply andb_false_r |].
  intros noise x invT mask ret bd H.
  apply forward_inv in H.
  destruct H as (xs & ps & b' & n' & feat & xq & idxs & ent & commit
                 & _ & _ & _ & _ & H5 & _ & _ & H8 & ->).
  change (zero (Binary32.ops fexp ftanh fsoftplus)) with Binary32.pzero in H5.
  rewrite Hgt, andb_false_r in H5. injection H5 as <-.
  rewrite (c_zero C) in *. cbn [commitment].
  split; [reflexivity |].
  eexists. eexists. split; [exact H8 |]. split; [reflexivity |].
  destruct (commitment_loss_weight self) as [s | | |]; try discriminate Hw.
  destruct s; reflexivity.
Qed.

Lemma zero_commitment_weight_witness :
  exists self ret bd,
    LFQ_init ops32 args4_32_no_commitment (zero_init ops32) = Ok self
    /\ forward_with_breakdown ops32 entropy0 no_reduction self true noise0
                              x_1x2x2 (Binary32.of_Z 100) None = Ok (ret, bd)
    /\ commitment bd = Binary32.pzero
    /\ exists e t,
        entropy_aux_loss ret = SFadd Binary32.prec Binary32.emax e t
        /\ t = SFmul Binary32.prec Binary32.emax (commitment bd)
                     (commitment_loss_weight self)
        /\ Binary32.is_zero t = true.
Proof.
  eexists. eexists. eexists.
  split; [vm_compute; reflexivity |].
  split; [vm_compute; reflexivity |].
  match goal with
  | |- context [commitment_loss_weight ?s] =>
      apply (proj2 (zero_commitment_weight (fun _ => Binary32.pone)
                      (fun _ => Binary32.pzero) (fun _ => Binary32.pzero)
                      entropy0 no_reduction
                      args4_32_no_commitment (zero_init ops32) s
                      eq_refl eq_refl true)
                   noise0 x_1x2x2 (Binary32.of_Z 100) None)
  end.
  vm_compute. reflexivity.
Defined.

Lemma codebook_row_is_decoded_index_witness :
  exists self row,
    LFQ_init ops32 args4_32 (zero_init ops32) = Ok self
    /\ nth_error (codebook self) (Z.to_nat 2) = Some row
    /\ row = bits_to_codes ops32 self (index_bits ops32 (mask self) 2%Z)
    /\ row = [Binary32.of_Z 1; Binary32.of_Z (-1)]
    /\ indices_to_codes ops32 self
         {| shape := if keep_num_codebooks_dim self then [1] else [];
            data := [2%Z] |} false
       = Ok {| shape := [codebook_dim self];
               data := maybe_l2norm ops32 self row |}.
Proof.
  eexists.
  match goal with
  | |- exists row, _ = Ok ?s /\ _ =>
      destruct (codebook_row_is_decoded_index spec_float ops32 args4_32
                  (zero_init ops32) s 2%Z)
        as (row & Hrow & Hdec & Hcodes)
  end.
  - vm_compute. reflexivity.
  - vm_compute. split; discriminate || reflexivity.
  - exists row. split; [reflexivity |]. split; [exact Hrow |].
    split; [exact Hdec |]. split; [rewrite Hdec; vm_compute; reflexivity |].
    apply Hcodes. reflexivity.
Defined.

(** ** The soft assignment of the entropy loss *)

Section SoftAssignment.
Variable T : Type.
Variable ops : ScalarOps T.
Variable self : LFQ T.

Lemma broadcast2_same_length {A B C} (f : A -> B -> C) (l1 : list A) (l2 : list B) :
  length l1 = length l2 ->
  broadcast2 f l1 l2 = Ok (map (fun p => f (fst p) (snd p)) (combine l1 l2)).
Proof. intros H. unfold broadcast2. rewrite H, Nat.eqb_refl. reflexivity. Qed.

(** The einsum of [forward] is the dot product with every codeword. *)
Lemma soft_assignment_dot (inv_temperature : T) (tok : list (list T)) :
  (forall xi cw, In xi tok -> In cw (codebook self) -> length xi = length cw) ->
  soft_assignment ops self inv_temperature tok
  = Ok (map (fun xi =>
               softmax ops
                 (map (fun cw => mul ops (neg ops (mul ops (of_int ops (-2))
                                                       (dot ops xi cw)))
                                     inv_temperature)
                      (map (maybe_l2norm ops self) (codebook self))))
            tok).
Proof.
  intros Hlen. unfold soft_assignment. apply mapM_ok. intros xi Hxi.
  rewrite (mapM_ok _ (fun cw => map (fun p => mul ops (fst p) (snd p)) (combine xi cw))).
  - cbn [bind]. rewrite !map_map. reflexivity.
  - intros cw Hcw. apply broadcast2_same_length.
    apply in_map_iff in Hcw. destruct Hcw as [cw0 [<- Hcw0]].
    rewrite length_maybe_l2norm. apply Hlen; assumption.
Qed.
End SoftAssignment.

Lemma soft_assignment_exact (self : LFQ R) (inv_temperature : R)
      (tok : list (list R)) :
  (forall xi cw, In xi tok -> In cw (codebook self) -> length xi = length cw) ->
  soft_assignment ExactR.ops self inv_temperature tok
  = Ok (softmax_of_similarities self inv_temperature tok).
Proof.
  intros Hlen.
  rewrite soft_assignment_dot by exact Hlen.
  unfold softmax_of_similarities. f_equal.
  apply map_ext. intros xi. f_equal. apply map_ext. intros cw.
  cbn. ring.
Qed.

(** C2 (amended): in exact arithmetic the tensor [prob] of the entropy loss
    holds, for every position and codebook slot, the softmax over the
    codewords of [+2 * dot(x, codeword) * inv_temperature]: the code negates
    its [distance = -2 * dot] before the softmax. *)
Theorem soft_assignment_is_softmax_of_similarities :
  forall (self : LFQ R) (inv_temperature : R)
         (original_input : list (list (list R))),
    (forall tok xi cw, In tok original_input -> In xi tok ->
                       In cw (codebook self) -> length xi = length cw) ->
    mapM (soft_assignment ExactR.ops self inv_temperature) original_input
    = Ok (map (softmax_of_similarities self inv_temperature) original_input).
Proof.
  intros self invT original_input Hlen.
  apply mapM_ok. intros tok Htok.
  apply soft_assignment_exact. intros xi cw Hxi Hcw.
  exact (Hlen tok xi cw Htok Hxi Hcw).
Qed.

(** C2, as stated, fails: with the codebook {-1, +1}, the input [1.0] and
    [inv_temperature = 1], the distribution the code computes is not the
    softmax of [-2 * dot(x, codeword) * inv_temperature]. *)
Lemma soft_assignment_not_softmax_of_scores :
  exists self p,
    LFQ_init ExactR.ops args2R (zero_init ExactR.ops) = Ok self
    /\ soft_assignment ExactR.ops self 1%R token_one = Ok p
    /\ p <> softmax_of_scores self 1%R token_one.
Proof.
  eexists. eexists. split; [reflexivity |].
  split.
  - apply soft_assignment_exact.
    intros xi cw [<- | []] Hcw. cbn in Hcw.
    destruct Hcw as [<- | [<- | []]]; reflexivity.
  - unfold softmax_of_similarities, softmax_of_scores, token_one.
    lazy -[Rplus Rmult Rminus Ropp Rdiv Rinv IZR Rtrigo_def.exp Rlt_dec].
    intros H. injection H as H1 _.
    repeat match type of H1 with
           | context [Rlt_dec ?a ?b] =>
               destruct (Rlt_dec a b); try (exfalso; lra)
           end.
    repeat match type of H1 with
           | context [Rtrigo_def.exp ?e] =>
               first [ progress (replace e with (-4)%R in H1 by lra)
                     | progress (replace e with 0%R in H1 by lra) ]
           end.
    rewrite exp_0 in H1.
    pose proof (exp_pos (-4)) as Hpos.
    pose proof (exp_increasing (-4) 0 ltac:(lra)) as Hlt.
    rewrite exp_0 in Hlt.
    set (E := Rtrigo_def.exp (-4)) in *.
    replace (0 + E + 1)%R with (0 + 1 + E)%R in H1 by ring.
    unfold Rdiv in H1.
    apply Rmult_eq_reg_r in H1; [lra | apply Rinv_neq_0_compat; lra].
Qed.

Lemma soft_assignment_is_softmax_of_similarities_witness :
  exists self,
    LFQ_init ExactR.ops args2R (zero_init ExactR.ops) = Ok self
    /\ mapM (soft_assignment ExactR.ops self 100%R) [token_one; token_one]
       = Ok (map (softmax_of_similarities self 100%R) [token_one; token_one]).
Proof.
  eexists. split; [reflexivity |].
  apply soft_assignment_is_softmax_of_similarities.
  intros tok xi cw Htok Hxi Hcw.
  destruct Htok as [<- | [<- | []]]; destruct Hxi as [<- | []];
    cbn in Hcw; destruct Hcw as [<- | [<- | []]]; reflexivity.
Defined.

(** ** Subsampling the tokens of the per-sample entropy *)

Lemma length_select {A} (m : list bool) (l : list A) :
  length m = length l -> length (select m l) = count_true m.
Proof.
  revert l. induction m as [| b m IH]; intros l Hl; [reflexivity |].
  destruct l as [| a l]; [discriminate Hl |]. injection Hl as Hl.
  cbn. destruct b; cbn; rewrite IH by exact Hl; reflexivity.
Qed.

Lemma count_true_filter {A} (p : A -> bool) (l : list A) :
  count_true (map p l) = length (filter p l).
Proof.
  induction l as [| a l IH]; cbn; [reflexivity |].
  destruct (p a); cbn; rewrite IH; reflexivity.
Qed.

Lemma length_filter_Permutation {A} (p : A -> bool) (l1 l2 : list A) :
  Permutation l1 l2 -> length (filter p l1) = length (filter p l2).
Proof.
  induction 1 as [| a l1 l2 _ IH | a b l | l1 l2 l3 _ IH1 _ IH2]; cbn.
  - reflexivity.
  - destruct (p a); cbn; rewrite IH; reflexivity.
  - destruct (p a), (p b); reflexivity.
  - congruence.
Qed.

(** Among 0 .. n-1, the integers below [k]. *)
Lemma length_filter_below (k : Z) (n : nat) :
  length (filter (fun r => (Z.of_nat r <? k)%Z) (seq 0 n))
  = Z.to_nat (Z.min k (Z.of_nat n)).
Proof.
  induction n as [| n IH]; [cbn; lia |].
  rewrite seq_S, filter_app, length_app, IH. cbn [filter Nat.add].
  destruct (Z.of_nat n <? k)%Z eqn:E; cbn [length].
  - apply Z.ltb_lt in E. lia.
  - apply Z.ltb_ge in E. lia.
Qed.

Section Sampling.
Variable T : Type.
Variable ops : ScalarOps T.

Lemma insert_by_Permutation (key : nat -> T) (i : nat) (s : list nat) :
  Permutation (insert_by ops key i s) (i :: s).
Proof.
  induction s as [| j s IH]; cbn; [reflexivity |].
  destruct (ge ops (key j) (key i)); [reflexivity |].
  rewrite IH. apply perm_swap.
Qed.

Lemma sort_by_Permutation (key : nat -> T) (l : list nat) :
  Permutation (fold_right (insert_by ops key) [] l) l.
Proof.
  induction l as [| i l IH]; cbn; [reflexivity |].
  rewrite insert_by_Permutation. constructor. exact IH.
Qed.

(** [argsort] returns a permutation of the positions. *)
Lemma argsort_Permutation (l : list T) :
  Permutation (argsort ops l) (seq 0 (length l)).
Proof. unfold argsort. apply sort_by_Permutation. Qed.

Lemma length_randn (noise : nat -> T) (n : nat) : length (randn noise n) = n.
Proof. unfold randn. rewrite length_map, length_seq. reflexivity. Qed.

(** The mask [argsort < k] keeps [min k n] of [n] positions. *)
Lemma rand_mask_count (noise : nat -> T) (n : nat) (k : Z) :
  count_true (map (fun r => (Z.of_nat r <? k)%Z) (argsort ops (randn noise n)))
  = Z.to_nat (Z.min k (Z.of_nat n)).
Proof.
  rewrite count_true_filter.
  rewrite (length_filter_Permutation _ _ _ (argsort_Permutation (randn noise n))).
  rewrite length_randn. apply length_filter_below.
Qed.
End Sampling.

(** C3, as stated, fails on the size: with five tokens and
    [frac_per_sample_entropy = 0.75] the code keeps [int(3.75) = 3] tokens,
    while [round(3.75)] is 4. *)
Lemma subsample_size_is_not_rounded :
  exists self sampled,
    LFQ_init ops32 args4_32_frac (zero_init ops32) = Ok self
    /\ per_sample_probs_of ops32 self noise_up prob5 = Ok sampled
    /\ length sampled = 3
    /\ is_rounding (Binary64.mul (Binary64.of_Z 5) (frac_per_sample_entropy self)) 4
    /\ ~ is_rounding (Binary64.mul (Binary64.of_Z 5) (frac_per_sample_entropy self)) 3.
Proof.
  eexists. eexists.
  split; [vm_compute; reflexivity |].
  split; [vm_compute; reflexivity |].
  split; [reflexivity |].
  split; vm_compute; intros H; discriminate H || (apply H; reflexivity).
Qed.

(** C3 (amended): when [frac_per_sample_entropy < 1] and [k] is
    [int(num_tokens * frac_per_sample_entropy)] (truncation, not rounding),
    the tokens kept are those at the positions where the argsort of the noise
    drawn on this call, a permutation of the positions, is below [k]: they
    are [min k num_tokens] many, and the per-sample entropy and the
    batch entropy are both computed from exactly these tokens. *)
Theorem entropy_subsample :
  forall (T : Type) (ops : ScalarOps T) (entropy : list T -> T)
         (maybe_distributed_mean : list (list T) -> list (list T))
         (self : LFQ T) (noise : nat -> T) (prob : list (list (list T))) (k : Z),
    Binary64.ltb (frac_per_sample_entropy self) Binary64.fone = true ->
    Binary64.to_int (Binary64.mul (Binary64.of_Z (Z.of_nat (length prob)))
                                  (frac_per_sample_entropy self)) = Some k ->
    let perm := argsort ops (randn noise (length prob)) in
    let sampled := select (map (fun r => (Z.of_nat r <? k)%Z) perm) prob in
    Permutation perm (seq 0 (length prob))
    /\ per_sample_probs_of ops self noise prob = Ok sampled
    /\ length sampled = Z.to_nat (Z.min k (Z.of_nat (length prob)))
    /\ forall inv_temperature mask b n original_input prob0,
        mapM (soft_assignment ops self inv_temperature) original_input = Ok prob0 ->
        apply_mask mask b n prob0 = Ok prob ->
        entropy_losses ops entropy maybe_distributed_mean self noise
                       inv_temperature mask b n original_input
        = Ok (sub ops (mean ops (map entropy (concat sampled)))
                      (mul ops (diversity_gamma self)
                           (mean ops (map entropy
                                          (maybe_distributed_mean
                                             (avg_prob_of ops self sampled))))),
              mean ops (map entropy (concat sampled)),
              mean ops (map entropy
                            (maybe_distributed_mean (avg_prob_of ops self sampled)))).
Proof.
  intros T ops entropy hook self noise prob k Hfrac Hk perm sampled.
  assert (per_sample_probs_of ops self noise prob = Ok sampled) as Hsel.
  { unfold per_sample_probs_of, num_sampled_tokens. rewrite Hfrac, Hk.
    reflexivity. }
  split; [| split; [exact Hsel | split]].
  - unfold perm. rewrite <- (length_randn T noise (length prob)) at 2.
    apply argsort_Permutation.
  - unfold sampled, perm. rewrite length_select.
    + apply rand_mask_count.
    + rewrite length_map.
      rewrite (Permutation_length (argsort_Permutation T ops (randn noise (length prob)))).
      rewrite length_seq. apply length_randn.
  - intros invT mask b n original_input prob0 Hprob Hmask.
    unfold entropy_losses. rewrite Hprob. cbn [bind]. rewrite Hmask. cbn [bind].
    rewrite Hsel. reflexivity.
Qed.

Lemma entropy_subsample_witness :
  exists self,
    LFQ_init ops32 args4_32_frac (zero_init ops32) = Ok self
    /\ Permutation (argsort ops32 (randn noise_up 5)) (seq 0 5)
    /\ per_sample_probs_of ops32 self noise_up prob5
       = Ok (select (map (fun r => (Z.of_nat r <? 3)%Z)
                         (argsort ops32 (randn noise_up 5))) prob5)
    /\ length (select (map (fun r => (Z.of_nat r <? 3)%Z)
                           (argsort ops32 (randn noise_up 5))) prob5) = 3
    /\ per_sample_probs_of ops32 self noise_up prob5
       <> per_sample_probs_of ops32 self noise_down prob5.
Proof.
  eexists. split; [vm_compute; reflexivity |].
  match goal with
  | |- context [per_sample_probs_of _ ?s] =>
      pose proof (entropy_subsample spec_float ops32 entropy0 no_reduction s
                    noise_up prob5 3%Z eq_refl eq_refl) as H
  end.
  cbv zeta in H. destruct H as (H1 & H2 & H3 & _).
  split; [exact H1 |]. split; [exact H2 |]. split; [exact H3 |].
  vm_compute. discriminate.
Defined.

(** ** Masked-out positions *)

Lemma select_map {A B} (f : A -> B) (m : list bool) (l : list A) :
  select m (map f l) = map f (select m l).
Proof.
  revert l. induction m as [| b m IH]; intros l; [reflexivity |].
  destruct l as [| a l]; [destruct b; reflexivity |].
  cbn. destruct b; cbn; rewrite IH; reflexivity.
Qed.

Lemma select_mapM {A B} (f : A -> result B) (m : list bool)
      (l1 l2 : list A) (r1 r2 : list B) :
  length l1 = length l2 ->
  mapM f l1 = Ok r1 -> mapM f l2 = Ok r2 ->
  select m l1 = select m l2 ->
  select m r1 = select m r2.
Proof.
  revert l1 l2 r1 r2.
  induction m as [| b m IH]; intros l1 l2 r1 r2 Hlen H1 H2 Hsel; [reflexivity |].
  destruct l1 as [| a1 l1], l2 as [| a2 l2]; try discriminate Hlen.
  - cbn in H1, H2. injection H1 as <-. injection H2 as <-. reflexivity.
  - injection Hlen as Hlen. cbn in H1, H2.
    destruct (f a1) as [b1 |] eqn:E1; [| discriminate H1].
    destruct (mapM f l1) as [t1 |] eqn:M1; [| discriminate H1].
    destruct (f a2) as [b2 |] eqn:E2; [| discriminate H2].
    destruct (mapM f l2) as [t2 |] eqn:M2; [| discriminate H2].
    injection H1 as <-. injection H2 as <-.
    cbn in Hsel |- *. destruct b.
    + injection Hsel as -> Hsel. rewrite E1 in E2. injection E2 as ->.
      f_equal. eapply IH; eassumption || reflexivity.
    + eapply IH; eassumption || reflexivity.
Qed.

Section Masking.
Variable T : Type.
Variable ops : ScalarOps T.
Variable entropy : list T -> T.
Variable maybe_distributed_mean : list (list T) -> list (list T).
Variable self : LFQ T.

Local Abbreviation fwd := (forward_with_breakdown ops entropy maybe_distributed_mean self).

Lemma pre_quantize_positions (x : tensor T) (b n feat : nat)
      (xq : list (list (list T))) :
  pre_quantize ops self x = Ok (b, n, feat, xq) ->
  xq = map (pre_quantize_position ops self feat) (positions x).
Proof.
  intros H. apply pre_quantize_inv in H.
  destruct H as (D & Hs & _ & _ & _ & _ & _ & ->).
  unfold projected, positions, pre_quantize_position.
  destruct (soft_clamp_input_value self); rewrite !map_map; reflexivity.
Qed.

Lemma apply_mask_Some_inv {A} (m : tensor bool) (b n : nat) (l r : list A) :
  apply_mask (Some m) b n l = Ok r -> r = select (data m) l.
Proof.
  unfold apply_mask. intros H.
  destruct (shape m) as [| mb [| mn [| ? ?]]]; try discriminate H.
  destruct ((mb =? b) && (mn =? n) && (length (data m) =? b * n));
    [| discriminate H].
  injection H as <-. reflexivity.
Qed.

Lemma entropy_losses_inv (noise : nat -> T) (inv_temperature : T)
      (mask : option (tensor bool)) (b n : nat)
      (original_input : list (list (list T))) (ent : T * T * T) :
  entropy_losses ops entropy maybe_distributed_mean self noise inv_temperature
                 mask b n original_input = Ok ent ->
  exists prob0 prob sampled,
    mapM (soft_assignment ops self inv_temperature) original_input = Ok prob0
    /\ apply_mask mask b n prob0 = Ok prob
    /\ per_sample_probs_of ops self noise prob = Ok sampled
    /\ ent = (sub ops (mean ops (map entropy (concat sampled)))
                      (mul ops (diversity_gamma self)
                           (mean ops (map entropy
                                          (maybe_distributed_mean
                                             (avg_prob_of ops self sampled))))),
              mean ops (map entropy (concat sampled)),
              mean ops (map entropy
                            (maybe_distributed_mean (avg_prob_of ops self sampled)))).
Proof.
  unfold entropy_losses. intros H.
  destruct (mapM _ original_input) as [prob0 |] eqn:H0; cbn [bind] in H;
    [| discriminate H].
  destruct (apply_mask mask b n prob0) as [prob |] eqn:H1; cbn [bind] in H;
    [| discriminate H].
  destruct (per_sample_probs_of ops self noise prob) as [sampled |] eqn:H2;
    cbn [bind] in H; [| discriminate H].
  injection H as <-. exists prob0, prob, sampled. repeat split; assumption.
Qed.

(** The commitment loss reads the positions one by one. *)
Lemma commit_loss_positions (m : tensor bool) (b n : nat)
      (xq : list (list (list T))) (cl : T) :
  commit_loss_of ops (Some m) b n xq (hard_quantized ops self xq) = Ok cl ->
  cl = mean ops
         (concat (concat
            (map (fun tok =>
                    map2 (map2 (mse_at ops)) tok
                         (map (maybe_l2norm ops self)
                              (map (map (quantize_at ops self)) tok)))
                 (select (data m) xq)))).
Proof.
  unfold commit_loss_of, hard_quantized. intros H.
  rewrite map_map, map2_map_same in H.
  destruct (apply_mask (Some m) b n _) as [r |] eqn:E; cbn [bind] in H;
    [| discriminate H].
  injection H as <-. apply apply_mask_Some_inv in E. rewrite E, select_map.
  reflexivity.
Qed.

Lemma length_positions {A} (x1 x2 : tensor A) :
  shape x1 = shape x2 -> length (positions x1) = length (positions x2).
Proof. intros H. unfold positions. rewrite !length_chunks, H. reflexivity. Qed.

(** Two inputs that hold the same vectors at the positions the mask keeps
    give the same losses. *)
Lemma masked_losses_agree (noise : nat -> T) (inv_temperature : T)
      (m : tensor bool) (x1 x2 xs1 xs2 : tensor T) (ps1 ps2 : list nat)
      (ret1 ret2 : Return T) (bd1 bd2 : LossBreakdown T) :
  standardize self (4 <=? length (shape x1)) x1 = Ok (xs1, ps1) ->
  standardize self (4 <=? length (shape x2)) x2 = Ok (xs2, ps2) ->
  shape xs1 = shape xs2 ->
  select (data m) (positions xs1) = select (data m) (positions xs2) ->
  fwd true noise x1 inv_temperature (Some m) = Ok (ret1, bd1) ->
  fwd true noise x2 inv_temperature (Some m) = Ok (ret2, bd2) ->
  bd1 = bd2 /\ entropy_aux_loss ret1 = entropy_aux_loss ret2.
Proof.
  intros Hs1 Hs2 Hshape Hsel F1 F2.
  apply forward_inv in F1, F2.
  destruct F1 as (xs1' & ps1' & b1 & n1 & feat1 & xq1 & idxs1 & ent1 & commit1
                  & A1 & B1 & _ & D1 & E1 & _ & _ & G1 & ->).
  destruct F2 as (xs2' & ps2' & b2 & n2 & feat2 & xq2 & idxs2 & ent2 & commit2
                  & A2 & B2 & _ & D2 & E2 & _ & _ & G2 & ->).
  rewrite Hs1 in A1. injection A1 as <- <-.
  rewrite Hs2 in A2. injection A2 as <- <-.
  pose proof (pre_quantize_positions _ _ _ _ _ B1) as Q1.
  pose proof (pre_quantize_positions _ _ _ _ _ B2) as Q2.
  apply pre_quantize_inv in B1, B2.
  destruct B1 as (D & S1 & _ & _ & _ & Hf1 & _ & _).
  destruct B2 as (D' & S2 & _ & _ & _ & Hf2 & _ & _).
  rewrite S1 in Hshape. rewrite S2 in Hshape. injection Hshape as <- <- <-.
  rewrite <- Hf1 in Hf2. subst feat2.
  assert (select (data m) xq1 = select (data m) xq2) as Hxq.
  { rewrite Q1, Q2, !select_map, Hsel. reflexivity. }
  assert (length xq1 = length xq2) as Hlen.
  { rewrite Q1, Q2, !length_map. apply length_positions.
    rewrite S1, S2. reflexivity. }
  assert (ent1 = ent2) as ->.
  { apply entropy_losses_inv in D1, D2.
    destruct D1 as (p01 & p1 & s1 & M1 & K1 & R1 & ->).
    destruct D2 as (p02 & p2 & s2 & M2 & K2 & R2 & ->).
    apply apply_mask_Some_inv in K1, K2.
    assert (p1 = p2) as ->.
    { rewrite K1, K2. eapply select_mapM; eassumption. }
    rewrite R1 in R2. injection R2 as <-. reflexivity. }
  assert (commit1 = commit2) as ->.
  { cbn [andb] in E1, E2.
    destruct (gt ops (commitment_loss_weight self) (zero ops)).
    - apply commit_loss_positions in E1, E2. rewrite E1, E2, Hxq. reflexivity.
    - injection E1 as <-. injection E2 as <-. reflexivity. }
  split; [reflexivity |]. rewrite G1, G2. reflexivity.
Qed.
End Masking.

(** C6: in training mode, two inputs that, once standardized to
    (batch, positions, features), have the same shape and hold the same
    vectors at all the positions the mask marks valid, give the same
    per-sample entropy, batch entropy, commitment loss and auxiliary loss,
    whatever they hold at the masked-out positions (same random draw). *)
Theorem masked_positions_do_not_influence_losses :
  forall (T : Type) (ops : ScalarOps T) (entropy : list T -> T)
         (maybe_distributed_mean : list (list T) -> list (list T))
         (self : LFQ T) (noise : nat -> T) (inv_temperature : T)
         (m : tensor bool) (x1 x2 xs1 xs2 : tensor T) (ps1 ps2 : list nat)
         (ret1 ret2 : Return T) (bd1 bd2 : LossBreakdown T),
    standardize self (4 <=? length (shape x1)) x1 = Ok (xs1, ps1) ->
    standardize self (4 <=? length (shape x2)) x2 = Ok (xs2, ps2) ->
    shape xs1 = shape xs2 ->
    select (data m) (positions xs1) = select (data m) (positions xs2) ->
    forward_with_breakdown ops entropy maybe_distributed_mean self true noise
                           x1 inv_temperature (Some m) = Ok (ret1, bd1) ->
    forward_with_breakdown ops entropy maybe_distributed_mean self true noise
                           x2 inv_temperature (Some m) = Ok (ret2, bd2) ->
    per_sample_entropy bd1 = per_sample_entropy bd2
    /\ batch_entropy bd1 = batch_entropy bd2
    /\ commitment bd1 = commitment bd2
    /\ entropy_aux_loss ret1 = entropy_aux_loss ret2.
Proof.
  intros T ops entropy hook self noise invT m x1 x2 xs1 xs2 ps1 ps2
         ret1 ret2 bd1 bd2 Hs1 Hs2 Hshape Hsel F1 F2.
  destruct (masked_losses_agree T ops entropy hook self noise invT m
              x1 x2 xs1 xs2 ps1 ps2 ret1 ret2 bd1 bd2 Hs1 Hs2 Hshape Hsel F1 F2)
    as [-> Haux].
  repeat split; try reflexivity. exact Haux.
Qed.

Lemma masked_positions_do_not_influence_losses_witness :
  exists self ret1 bd1 ret2 bd2,
    LFQ_init ops32 args4_32 (zero_init ops32) = Ok self
    /\ forward_with_breakdown ops32 entropy0 no_reduction self true noise0
                              x_1x2x2 (Binary32.of_Z 100) (Some mask_first)
       = Ok (ret1, bd1)
    /\ forward_with_breakdown ops32 entropy0 no_reduction self true noise0
                              x_garbage (Binary32.of_Z 100) (Some mask_first)
       = Ok (ret2, bd2)
    /\ data (quantized ret1) <> data (quantized ret2)
    /\ per_sample_entropy bd1 = per_sample_entropy bd2
    /\ batch_entropy bd1 = batch_entropy bd2
    /\ commitment bd1 = commitment bd2
    /\ entropy_aux_loss ret1 = entropy_aux_loss ret2.
Proof.
  evar (self : LFQ spec_float).
  assert (LFQ_init ops32 args4_32 (zero_init ops32) = Ok self) as Hself
      by (vm_compute; unfold self; reflexivity).
  exists self. eexists. eexists. eexists. eexists.
  split; [exact Hself |].
  split; [vm_compute; reflexivity |].
  split; [vm_compute; reflexivity |].
  split; [vm_compute; discriminate |].
  match goal with
  | |- per_sample_entropy ?b1 = per_sample_entropy ?b2 /\ _ /\ _
       /\ entropy_aux_loss ?r1 = entropy_aux_loss ?r2 =>
      match type of r1 with
      | Return _ => idtac
      end;
      eapply (masked_positions_do_not_influence_losses spec_float ops32 entropy0
                no_reduction self noise0 (Binary32.of_Z 100) mask_first
                x_1x2x2 x_garbage x_1x2x2 x_garbage [] [] r1 r2 b1 b2)
  end.
  - reflexivity.
  - reflexivity.
  - reflexivity.
  - reflexivity.
  - vm_compute. reflexivity.
  - vm_compute. reflexivity.
Defined.

(** ** Shapes *)

Lemma length_flat_map_const {A B} (f : A -> list B) (k : nat) (l : list A) :
  (forall a, In a l -> length (f a) = k) ->
  length (flat_map f l) = length l * k.
Proof.
  induction l as [| a l IH]; intros H; cbn; [reflexivity |].
  rewrite length_app, (H a (or_introl eq_refl)), IH; [reflexivity |].
  intros x Hx. apply H. right. exact Hx.
Qed.

Lemma length_transpose2 {A} (r c : nat) (l : list A) :
  length l = r * c -> length (transpose2 r c l) = c * r.
Proof.
  intros Hl. unfold transpose2.
  rewrite (length_flat_map_const _ r); [rewrite length_seq; reflexivity |].
  intros j Hj. apply in_seq in Hj.
  rewrite (length_flat_map_const _ 1); [rewrite length_seq; lia |].
  intros i Hi. apply in_seq in Hi.
  destruct (nth_error l (i * c + j)) eqn:E; [reflexivity |].
  apply nth_error_None in E. nia.
Qed.

Lemma length_concat_map_const {A B} (f : list A -> list B) (k : nat)
      (ls : list (list A)) :
  (forall a, In a ls -> length (f a) = k) ->
  length (concat (map f ls)) = length ls * k.
Proof.
  intros H. rewrite <- flat_map_concat_map. apply length_flat_map_const. exact H.
Qed.

(** The sum of [d] weighted bits lies in [0, 2 ^ d). *)
Lemma weighted_bits_range (d : nat) (bits : list Z) :
  length bits = d ->
  Forall (fun b => (0 <= b <= 1)%Z) bits ->
  (0 <= fold_left Z.add
          (map (fun p => (fst p * 2 ^ Z.of_nat (snd p))%Z)
               (combine bits (rev (seq 0 d)))) 0
   < 2 ^ Z.of_nat d)%Z.
Proof.
  revert bits. induction d as [| d IH]; intros bits Hl Hb.
  - destruct bits; [cbn; lia | discriminate Hl].
  - destruct bits as [| b bits]; [discriminate Hl |]. injection Hl as Hl.
    apply Forall_cons_iff in Hb. destruct Hb as [Hb0 Hb'].
    rewrite seq_S, rev_app_distr. cbn [rev app combine map fold_left fst snd Nat.add].
    rewrite fold_add_shift.
    specialize (IH bits Hl Hb').
    rewrite Nat2Z.inj_succ, Z.pow_succ_r by lia.
    pose proof (Z.pow_pos_nonneg 2 (Z.of_nat d) ltac:(lia) ltac:(lia)).
    nia.
Qed.

Lemma combine_map_r {A B C} (g : B -> C) (l1 : list A) (l2 : list B) :
  combine l1 (map g l2) = map (fun p => (fst p, g (snd p))) (combine l1 l2).
Proof.
  revert l2. induction l1 as [| a l1 IH]; intros l2; [reflexivity |].
  destruct l2 as [| b l2]; [reflexivity |]. cbn. rewrite IH. reflexivity.
Qed.

Section Shapes.
Variable T : Type.
Variable ops : ScalarOps T.
Variable self : LFQ T.

Lemma index_of_range (d : nat) (q : list T) (z : Z) :
  mask self = make_mask d -> d <= 31 -> length q = d ->
  index_of ops self q = Ok z ->
  (0 <= z < 2 ^ Z.of_nat d)%Z.
Proof.
  intros Hm Hd Hq H. unfold index_of in H.
  rewrite broadcast2_same_length in H
    by (rewrite !length_map, Hm, length_make_mask; exact Hq).
  cbn [bind] in H. injection H as <-.
  rewrite Hm, make_mask_small by lia.
  rewrite map_map, combine_map_r, map_map. cbn [fst snd].
  set (bits := map (fun v => if gt ops v (zero ops) then 1%Z else 0%Z) q).
  assert (length bits = d) as Hbl by (unfold bits; rewrite length_map; exact Hq).
  assert (Forall (fun b => (0 <= b <= 1)%Z) bits) as Hb.
  { unfold bits. apply Forall_map. apply Forall_forall. intros v _.
    destruct (gt ops v (zero ops)); lia. }
  pose proof (weighted_bits_range d bits Hbl Hb) as Hr.
  assert (2 ^ Z.of_nat d <= 2 ^ 31)%Z as Hd31 by (apply pow2_le_mono; lia).
  rewrite (map_ext_in _ (fun p => (fst p * 2 ^ Z.of_nat (snd p))%Z)).
  - rewrite int64_small by lia. exact Hr.
  - intros [b k] Hin. cbn [fst snd].
    pose proof (in_combine_l _ _ _ _ Hin) as Hbin.
    pose proof (in_combine_r _ _ _ _ Hin) as Hkin.
    rewrite Forall_forall in Hb. specialize (Hb b Hbin).
    apply in_rev, in_seq in Hkin.
    pose proof (pow2_le_mono (Z.of_nat k) 30 ltac:(lia)) as Hk30.
    pose proof (Z.pow_pos_nonneg 2 (Z.of_nat k) ltac:(lia) ltac:(lia)) as Hkp.
    rewrite (int32_small (2 ^ Z.of_nat k)) by lia.
    apply int32_small. nia.
Qed.

Lemma length_apply_module (m : module T) (x : list T) :
  length (apply_module ops m x) = out_size m (length x).
Proof.
  destruct m; cbn; [reflexivity | |]; rewrite length_map, length_seq; reflexivity.
Qed.

Lemma length_pre_quantize_position (feat : nat) (v : list T) :
  length (pre_quantize_position ops self feat v) = num_codebooks self.
Proof.
  unfold pre_quantize_position. rewrite length_map, length_chunks. reflexivity.
Qed.

(** The slots of a position hold [feat / c] elements each. *)
Lemma pre_quantize_position_slots (feat : nat) (v : list T) :
  out_size (project_in self) (length v) = feat ->
  feat mod num_codebooks self = 0 ->
  Forall (fun s => length s = feat / num_codebooks self)
         (pre_quantize_position ops self feat v).
Proof.
  intros Hf Hmod. unfold pre_quantize_position.
  apply Forall_map. eapply Forall_impl.
  - intros s Hs. rewrite length_maybe_l2norm. exact Hs.
  - apply Forall_length_chunks.
    assert (length (apply_module ops (project_in self) v) = feat) as Hl
        by (rewrite length_apply_module; exact Hf).
    destruct (soft_clamp_input_value self); rewrite ?length_map, Hl;
      apply Nat.Div0.div_exact; exact Hmod.
Qed.

Lemma Forall_positions_length {A} (x : tensor A) (b n D : nat) :
  shape x = [b; n; D] -> well_shaped x ->
  length (positions x) = b * n
  /\ Forall (fun v => length v = D) (positions x).
Proof.
  intros Hs Hw. unfold positions. rewrite Hs. cbn [removelast last numel fold_right].
  split; [rewrite length_chunks; lia |].
  apply Forall_length_chunks. unfold well_shaped in Hw. rewrite Hw, Hs.
  cbn. lia.
Qed.
End Shapes.

Lemma mapM_Forall {A B} (f : A -> result B) (P : B -> Prop)
      (l : list A) (r : list B) :
  (forall a b, In a l -> f a = Ok b -> P b) ->
  mapM f l = Ok r -> Forall P r.
Proof.
  intros H Hm. apply mapM_inv in Hm.
  induction Hm as [| a b l r Hab _ IH]; constructor.
  - apply (H a b (or_introl eq_refl) Hab).
  - apply IH. intros a' b' Hin. apply H. right. exact Hin.
Qed.

Lemma mapM_length {A B} (f : A -> result B) (l : list A) (r : list B) :
  mapM f l = Ok r -> length r = length l.
Proof.
  intros H. apply mapM_inv in H. symmetry.
  eapply Forall2_length_eq. exact H.
Qed.

Section ShapesCore.
Variable T : Type.
Variable ops : ScalarOps T.
Variable self : LFQ T.

Hypothesis C : constructed ops self.
Hypothesis Hd : codebook_dim self <= 31.
Hypothesis Hc : 0 < num_codebooks self.
Hypothesis Hdim :
  has_projections self = false ->
  dim self = codebook_dim self * num_codebooks self.

Local Abbreviation c := (num_codebooks self).
Local Abbreviation cd := (codebook_dim self).

(** The sizes around the two projections. *)
Lemma projection_sizes :
  accepts (project_in self) (dim self) = true
  /\ out_size (project_in self) (dim self) = cd * c
  /\ accepts (project_out self) (cd * c) = true
  /\ out_size (project_out self) (cd * c) = dim self.
Proof.
  destruct (has_projections self) eqn:Hp.
  - exact (c_proj C Hp).
  - destruct (c_no_proj C Hp) as [-> ->]. cbn.
    rewrite (Hdim eq_refl). repeat split; reflexivity.
Qed.

Lemma keep_flag_codebooks : keep_num_codebooks_dim self = false -> c = 1.
Proof. intros Hk. pose proof (c_keep C Hk). lia. Qed.

Variable xs : tensor T.
Variables b n : nat.
Hypothesis Hshape : shape xs = [b; n; dim self].
Hypothesis Hws : well_shaped xs.

Lemma core_pre_quantize :
  pre_quantize ops self xs
  = Ok (b, n, cd * c, map (pre_quantize_position ops self (cd * c)) (positions xs)).
Proof.
  destruct projection_sizes as (Ha & Hf & _ & _).
  rewrite (pre_quantize_ok T ops self xs b n (dim self) Hshape eq_refl Ha Hc).
  - rewrite Hf. do 2 f_equal.
    unfold projected, positions, pre_quantize_position.
    destruct (soft_clamp_input_value self); rewrite !map_map; reflexivity.
  - rewrite Hf. apply Nat.Div0.mod_mul.
Qed.

Lemma core_slots :
  Forall (fun tok => length tok = c /\ Forall (fun s => length s = cd) tok)
         (map (pre_quantize_position ops self (cd * c)) (positions xs)).
Proof.
  destruct projection_sizes as (_ & Hf & _ & _).
  destruct (Forall_positions_length xs b n (dim self) Hshape Hws) as [_ Hpos].
  apply Forall_map. eapply Forall_impl; [| exact Hpos].
  intros v Hv. cbn. split; [apply length_pre_quantize_position |].
  pose proof (pre_quantize_position_slots T ops self (cd * c) v) as H.
  rewrite Nat.div_mul in H by lia. apply H.
  - rewrite Hv. exact Hf.
  - apply Nat.Div0.mod_mul.
Qed.

(** The indices exist, one per position and codebook slot, all in range. *)
Lemma core_indices :
  exists idxs,
    mapM (mapM (index_of ops self))
         (map (map (map (quantize_at ops self)))
              (map (pre_quantize_position ops self (cd * c)) (positions xs)))
    = Ok idxs
    /\ length idxs = b * n
    /\ Forall (fun g => length g = c
                        /\ Forall (fun i => (0 <= i < codebook_size self)%Z) g)
              idxs.
Proof.
  pose proof core_slots as Hslots. rewrite Forall_forall in Hslots.
  destruct (mapM_defined (mapM (index_of ops self))
              (map (map (map (quantize_at ops self)))
                   (map (pre_quantize_position ops self (cd * c)) (positions xs))))
    as [idxs Hidx].
  { intros tok Htok. apply mapM_defined. intros q Hq.
    apply index_of_defined.
    apply in_map_iff in Htok. destruct Htok as [tok0 [<- Htok0]].
    apply in_map_iff in Hq. destruct Hq as [s [<- Hs]].
    destruct (Hslots tok0 Htok0) as [_ Hs0]. rewrite Forall_forall in Hs0.
    rewrite length_map, (Hs0 s Hs), (c_mask C), length_make_mask. reflexivity. }
  exists idxs. split; [exact Hidx |]. split.
  - rewrite (mapM_length _ _ _ Hidx), !length_map.
    apply (Forall_positions_length xs b n (dim self) Hshape Hws).
  - eapply mapM_Forall; [| exact Hidx].
    intros tok g Htok Hg.
    apply in_map_iff in Htok. destruct Htok as [tok0 [<- Htok0]].
    destruct (Hslots tok0 Htok0) as [Hlen Hs0]. rewrite Forall_forall in Hs0.
    split.
    + rewrite (mapM_length _ _ _ Hg), length_map. exact Hlen.
    + eapply mapM_Forall; [| exact Hg].
      intros q z Hq Hz.
      apply in_map_iff in Hq. destruct Hq as [s [<- Hs]].
      rewrite (c_size C).
      apply (index_of_range T ops self cd (map (quantize_at ops self) s) z
               (c_mask C) Hd); [| exact Hz].
      rewrite length_map. apply Hs0. exact Hs.
Qed.
End ShapesCore.

Section Layouts.
Variable T : Type.
Variable ops : ScalarOps T.
Variable entropy : list T -> T.
Variable maybe_distributed_mean : list (list T) -> list (list T).
Variable self : LFQ T.

Local Abbreviation fwd := (forward_with_breakdown ops entropy maybe_distributed_mean self).
Local Abbreviation c := (num_codebooks self).
Local Abbreviation cd := (codebook_dim self).

Hypothesis C : constructed ops self.
Hypothesis Hd : cd <= 31.
Hypothesis Hc : 0 < c.
Hypothesis Hdim : has_projections self = false -> dim self = cd * c.

(** Channel-first images: (B, D, H, W) becomes (B, H*W, D). *)
Lemma standardize_image_channel_first (x : tensor T) (B D H W : nat) :
  channel_first self = true -> shape x = [B; D; H; W] ->
  standardize self (4 <=? length (shape x)) x
  = Ok ({| shape := [B; numel [H; W]; D];
           data := concat (map (transpose2 D (numel [H; W]))
                               (chunks B (D * numel [H; W]) (data x))) |},
        [H; W]).
Proof.
  intros Hcf Hs. unfold standardize, channel_last, pack_one.
  rewrite Hcf, Hs. reflexivity.
Qed.

Lemma well_shaped_channel_last (x : tensor T) (B D H W : nat) :
  shape x = [B; D; H; W] -> well_shaped x ->
  well_shaped {| shape := [B; numel [H; W]; D];
                 data := concat (map (transpose2 D (numel [H; W]))
                                     (chunks B (D * numel [H; W]) (data x))) |}.
Proof.
  intros Hs Hw. unfold well_shaped in *. cbn [shape data].
  rewrite Hs in Hw.
  assert (length (data x) = B * (D * numel [H; W])) as Hl
      by (rewrite Hw; cbn; lia).
  rewrite (length_concat_map_const _ (numel [H; W] * D)).
  - rewrite length_chunks. cbn. lia.
  - intros blk Hblk. apply length_transpose2.
    pose proof (Forall_length_chunks B (D * numel [H; W]) (data x) Hl) as Hf.
    rewrite Forall_forall in Hf. apply Hf. exact Hblk.
Qed.

Lemma restore_quantized_image_channel_first (b H W feat : nat)
      (X : list (list (list T))) :
  channel_first self = true ->
  accepts (project_out self) feat = true ->
  exists xo,
    restore_quantized ops self true [H; W] b (numel [H; W]) feat X = Ok xo
    /\ shape xo = [b; out_size (project_out self) feat; H; W].
Proof.
  intros Hcf Hacc. unfold restore_quantized, unpack_one, channel_first_layout.
  rewrite Hacc, Hcf. cbn [guard bind shape]. rewrite Nat.eqb_refl.
  cbn [bind shape app]. eexists. split; reflexivity.
Qed.

Lemma restore_indices_image (b H W : nat) (idxs : list (list Z)) :
  (keep_num_codebooks_dim self = false -> c = 1) ->
  restore_indices self true [H; W] b (numel [H; W]) idxs
  = Ok {| shape := if keep_num_codebooks_dim self
                   then [b; H; W; c] else [b; H; W];
          data := concat idxs |}.
Proof.
  intros Hk. unfold restore_indices, unpack_one.
  cbn [bind shape]. rewrite Nat.eqb_refl. cbn [bind shape app].
  destruct (keep_num_codebooks_dim self); [reflexivity |].
  rewrite Hk by reflexivity. reflexivity.
Qed.

(** Once the layout is fixed, [forward] returns in inference mode, and every
    result has the shapes of the layout and indices in range. *)
Lemma forward_layout (x xs : tensor T) (ps : list nat) (b n : nat)
      (qshape ishape : list nat) :
  standardize self (4 <=? length (shape x)) x = Ok (xs, ps) ->
  shape xs = [b; n; dim self] ->
  well_shaped xs ->
  (forall X, exists xo,
        restore_quantized ops self (4 <=? length (shape x)) ps b n (cd * c) X = Ok xo
        /\ shape xo = qshape) ->
  (forall idxs,
      restore_indices self (4 <=? length (shape x)) ps b n idxs
      = Ok {| shape := ishape; data := concat idxs |}) ->
  numel ishape = b * n * c ->
  (forall noise inv_temperature mask,
      exists ret bd, fwd false noise x inv_temperature mask = Ok (ret, bd))
  /\ (forall training noise inv_temperature mask ret bd,
         fwd training noise x inv_temperature mask = Ok (ret, bd) ->
         shape (quantized ret) = qshape
         /\ shape (indices ret) = ishape
         /\ well_shaped (indices ret)
         /\ Forall (fun i => (0 <= i < codebook_size self)%Z)
                   (data (indices ret))).
Proof.
  intros Hstd Hs Hw Hrq Hri Hnum.
  pose proof (core_pre_quantize T ops self C Hc Hdim xs b n Hs) as Hpre.
  destruct (core_indices T ops self C Hd Hc Hdim xs b n Hs Hw)
    as (idxs & Hidx & Hlen & Hall).
  split.
  - intros noise invT mask.
    destruct (Hrq (hard_quantized ops self
                     (map (pre_quantize_position ops self (cd * c)) (positions xs))))
      as (xo & Hxo & _).
    eexists. eexists.
    eapply forward_eval; try eassumption. apply Hri.
  - intros training noise invT mask ret bd H.
    apply forward_inv in H.
    destruct H as (xs' & ps' & b' & n' & feat & xq & idxs' & ent & commit
                   & H1 & H2 & H3 & _ & _ & H6 & H7 & _).
    rewrite Hstd in H1. injection H1 as <- <-.
    rewrite Hpre in H2. injection H2 as <- <- <- <-.
    rewrite Hidx in H3. injection H3 as <-.
    destruct (Hrq (forward_value ops self training
                     (map (pre_quantize_position ops self (cd * c)) (positions xs))))
      as (xo & Hxo & Hqs).
    rewrite Hxo in H6. injection H6 as <-.
    rewrite Hri in H7. injection H7 as <-.
    cbn [shape data]. split; [exact Hqs |]. split; [reflexivity |].
    split.
    + unfold well_shaped. cbn [shape data]. rewrite Hnum.
      rewrite (length_concat_const c).
      * rewrite Hlen. reflexivity.
      * eapply Forall_impl; [| exact Hall]. intros g [Hg _]. exact Hg.
    + apply Forall_concat. eapply Forall_impl; [| exact Hall].
      intros g [_ Hg]. exact Hg.
Qed.
End Layouts.

(** C8: for a constructed module (at most 31 bits per code, and bit-space
    features when it has no projections) and a well-shaped input,
    [forward] returns in inference mode, and whatever it returns, in either
    mode, has: for a sequence input (B, N, dim), a quantized tensor of shape
    (B, N, dim) and indices of shape (B, N), or (B, N, num_codebooks) when the
    codebook axis is kept; for a channel-first image input (B, dim, H, W), a
    quantized tensor of shape (B, dim, H, W) and indices of shape (B, H, W),
    or (B, H, W, num_codebooks); and every index lies in
    [0, codebook_size). *)
Theorem forward_shapes_and_index_range :
  forall (T : Type) (ops : ScalarOps T) (entropy : list T -> T)
         (maybe_distributed_mean : list (list T) -> list (list T))
         (a : LFQ_args T) (w : init_weights T) (self : LFQ T) (x : tensor T),
    LFQ_init ops a w = Ok self ->
    codebook_dim self <= 31 ->
    0 < num_codebooks self ->
    (has_projections self = false ->
     dim self = codebook_dim self * num_codebooks self) ->
    well_shaped x ->
    (forall B N,
        channel_first self = false -> shape x = [B; N; dim self] ->
        (forall noise inv_temperature mask,
            exists ret bd,
              forward_with_breakdown ops entropy maybe_distributed_mean self
                                     false noise x inv_temperature mask
              = Ok (ret, bd))
        /\ forall training noise inv_temperature mask ret bd,
            forward_with_breakdown ops entropy maybe_distributed_mean self
                                   training noise x inv_temperature mask
            = Ok (ret, bd) ->
            shape (quantized ret) = [B; N; dim self]
            /\ shape (indices ret)
               = (if keep_num_codebooks_dim self
                  then [B; N; num_codebooks self] else [B; N])
            /\ well_shaped (indices ret)
            /\ Forall (fun i => (0 <= i < codebook_size self)%Z)
                      (data (indices ret)))
    /\ (forall B H W,
           channel_first self = true -> shape x = [B; dim self; H; W] ->
           (forall noise inv_temperature mask,
               exists ret bd,
                 forward_with_breakdown ops entropy maybe_distributed_mean self
                                        false noise x inv_temperature mask
                 = Ok (ret, bd))
           /\ forall training noise inv_temperature mask ret bd,
               forward_with_breakdown ops entropy maybe_distributed_mean self
                                      training noise x inv_temperature mask
               = Ok (ret, bd) ->
               shape (quantized ret) = [B; dim self; H; W]
               /\ shape (indices ret)
                  = (if keep_num_codebooks_dim self
                     then [B; H; W; num_codebooks self] else [B; H; W])
               /\ well_shaped (indices ret)
               /\ Forall (fun i => (0 <= i < codebook_size self)%Z)
                         (data (indices ret))).
Proof.
  intros T ops entropy hook a w self x Hinit Hd Hc Hdim Hw.
  pose proof (LFQ_init_constructed T ops a w self Hinit) as C.
  destruct (projection_sizes T ops self C Hdim) as (_ & _ & Hacc & Hout).
  assert (keep_num_codebooks_dim self = false -> num_codebooks self = 1) as Hk
      by (eapply keep_flag_codebooks; eassumption).
  split.
  - intros B N Hcf Hs.
    apply (forward_layout T ops entropy hook self C Hd Hc Hdim x x [] B N).
    + rewrite Hs. apply standardize_sequence. exact Hcf.
    + exact Hs.
    + exact Hw.
    + intros X. rewrite Hs. cbn [length Nat.leb].
      rewrite restore_quantized_sequence by assumption.
      eexists. split; [reflexivity |]. cbn [shape]. rewrite Hout. reflexivity.
    + intros idxs. rewrite Hs. cbn [length Nat.leb].
      apply restore_indices_sequence. exact Hk.
    + destruct (keep_num_codebooks_dim self); cbn; [lia |].
      rewrite Hk by reflexivity. lia.
  - intros B H W Hcf Hs.
    pose proof (standardize_image_channel_first T self x B (dim self) H W Hcf Hs)
      as Hstd.
    assert (well_shaped
              {| shape := [B; numel [H; W]; dim self];
                 data := concat (map (transpose2 (dim self) (numel [H; W]))
                                     (chunks B (dim self * numel [H; W]) (data x))) |})
      as Hw' by (eapply well_shaped_channel_last; eassumption).
    eapply (forward_layout T ops entropy hook self C Hd Hc Hdim x _ [H; W] B
              (numel [H; W])).
    + exact Hstd.
    + reflexivity.
    + exact Hw'.
    + intros X. rewrite Hs. cbn [length Nat.leb].
      destruct (restore_quantized_image_channel_first T ops self B H W
                  (codebook_dim self * num_codebooks self) X Hcf Hacc)
        as (xo & Hxo & Hshape).
      exists xo. split; [exact Hxo |]. rewrite Hshape, Hout. reflexivity.
    + intros idxs. rewrite Hs. cbn [length Nat.leb].
      apply restore_indices_image. exact Hk.
    + destruct (keep_num_codebooks_dim self); cbn; [lia |].
      rewrite Hk by reflexivity. lia.
Qed.

Lemma forward_shapes_and_index_range_witness :
  (exists self ret bd,
      LFQ_init ops32 args16_32 (zero_init ops32) = Ok self
      /\ forward_with_breakdown ops32 entropy0 no_reduction self false noise0
                                x_2x10x4 (Binary32.of_Z 100) None = Ok (ret, bd)
      /\ shape (quantized ret) = [2; 10; 4]
      /\ shape (indices ret) = [2; 10]
      /\ well_shaped (indices ret)
      /\ Forall (fun i => (0 <= i < 16)%Z) (data (indices ret)))
  /\ (exists self ret bd,
         LFQ_init ops32 args16_32_channel_first (zero_init ops32) = Ok self
         /\ forward_with_breakdown ops32 entropy0 no_reduction self false noise0
                                   x_image (Binary32.of_Z 100) None = Ok (ret, bd)
         /\ shape (quantized ret) = [1; 4; 2; 2]
         /\ shape (indices ret) = [1; 2; 2]
         /\ well_shaped (indices ret)
         /\ Forall (fun i => (0 <= i < 16)%Z) (data (indices ret))).
Proof.
  split.
  - evar (self : LFQ spec_float).
    assert (LFQ_init ops32 args16_32 (zero_init ops32) = Ok self) as Hself
        by (vm_compute; unfold self; reflexivity).
    destruct (forward_shapes_and_index_range spec_float ops32 entropy0 no_reduction
                args16_32 (zero_init ops32) self x_2x10x4 Hself
                ltac:(vm_compute; lia) ltac:(vm_compute; lia)
                ltac:(intros _; reflexivity) eq_refl) as [Hseq _].
    destruct (Hseq 2 10 eq_refl eq_refl) as [Hex Hall].
    destruct (Hex noise0 (Binary32.of_Z 100) None) as (ret & bd & Hfwd).
    exists self, ret, bd. split; [exact Hself |]. split; [exact Hfwd |].
    exact (Hall false noise0 (Binary32.of_Z 100) None ret bd Hfwd).
  - evar (self : LFQ spec_float).
    assert (LFQ_init ops32 args16_32_channel_first (zero_init ops32) = Ok self)
      as Hself by (vm_compute; unfold self; reflexivity).
    destruct (forward_shapes_and_index_range spec_float ops32 entropy0 no_reduction
                args16_32_channel_first (zero_init ops32) self x_image Hself
                ltac:(vm_compute; lia) ltac:(vm_compute; lia)
                ltac:(intros _; reflexivity) eq_refl) as [_ Himg].
    destruct (Himg 1 2 2 eq_refl eq_refl) as [Hex Hall].
    destruct (Hex noise0 (Binary32.of_Z 100) None) as (ret & bd & Hfwd).
    exists self, ret, bd. split; [exact Hself |]. split; [exact Hfwd |].
    exact (Hall false noise0 (Binary32.of_Z 100) None ret bd Hfwd).
Defined.

(** ** Transposition of the channel axis *)

Lemma nth_error_flat_map_option {A B} (f : A -> option B) (l : list A) (p : nat) :
  (forall a, In a l -> f a <> None) ->
  nth_error (flat_map (fun a => match f a with
                                | Some v => [v]
                                | None => []
                                end) l) p
  = match nth_error l p with
    | Some a => f a
    | None => None
    end.
Proof.
  revert p. induction l as [| a l IH]; intros p H.
  - destruct p; reflexivity.
  - cbn [flat_map]. destruct (f a) as [v |] eqn:E.
    + destruct p as [| p]; cbn; [symmetry; exact E |].
      apply IH. intros x Hx. apply H. right. exact Hx.
    + exfalso. apply (H a (or_introl eq_refl)). exact E.
Qed.

Lemma nth_error_flat_map_blocks {A B} (g : A -> list B) (r : nat) (l : list A)
      (j i : nat) :
  (forall a, In a l -> length (g a) = r) -> i < r ->
  nth_error (flat_map g l) (j * r + i)
  = match nth_error l j with
    | Some a => nth_error (g a) i
    | None => None
    end.
Proof.
  revert j. induction l as [| a l IH]; intros j H Hi.
  - cbn. destruct (j * r + i); destruct j; reflexivity.
  - cbn [flat_map]. pose proof (H a (or_introl eq_refl)) as Ha.
    destruct j as [| j]; cbn [nth_error Nat.mul Nat.add].
    + apply nth_error_app1. lia.
    + rewrite nth_error_app2 by lia.
      replace (r + j * r + i - length (g a)) with (j * r + i) by lia.
      apply IH; [| exact Hi]. intros x Hx. apply H. right. exact Hx.
Qed.

(** Entry (i, j) of the matrix is entry (j, i) of its transpose. *)
Lemma nth_error_transpose2 {A} (r c : nat) (l : list A) (i j : nat) :
  length l = r * c -> i < r -> j < c ->
  nth_error (transpose2 r c l) (j * r + i) = nth_error l (i * c + j).
Proof.
  intros Hl Hi Hj. unfold transpose2.
  assert (forall j0 i0, In j0 (seq 0 c) -> In i0 (seq 0 r) ->
                        nth_error l (i0 * c + j0) <> None) as Hin.
  { intros j0 i0 Hj0 Hi0. apply in_seq in Hj0, Hi0.
    apply nth_error_Some. nia. }
  rewrite (nth_error_flat_map_blocks _ r).
  - rewrite nth_error_seq. assert ((j <? c) = true) as -> by (apply Nat.ltb_lt; exact Hj).
    cbn [Nat.add].
    rewrite (nth_error_flat_map_option (fun i0 => nth_error l (i0 * c + j))).
    + rewrite nth_error_seq.
      assert ((i <? r) = true) as -> by (apply Nat.ltb_lt; exact Hi).
      reflexivity.
    + intros i0 Hi0. apply Hin; [apply in_seq; lia | exact Hi0].
  - intros j0 Hj0.
    rewrite (length_flat_map_const _ 1); [rewrite length_seq; lia |].
    intros i0 Hi0. destruct (nth_error l (i0 * c + j0)) eqn:E; [reflexivity |].
    exfalso. exact (Hin j0 i0 Hj0 Hi0 E).
  - exact Hi.
Qed.

Lemma nth_error_ext {A} (l1 l2 : list A) :
  (forall p, nth_error l1 p = nth_error l2 p) -> l1 = l2.
Proof.
  revert l2. induction l1 as [| a l1 IH]; intros l2 H.
  - destruct l2 as [| b l2]; [reflexivity |]. specialize (H 0). discriminate H.
  - destruct l2 as [| b l2]; [specialize (H 0); discriminate H |].
    pose proof (H 0) as H0. injection H0 as ->.
    f_equal. apply IH. intros p. exact (H (S p)).
Qed.

(** Transposing twice gives the matrix back. *)
Lemma transpose2_involutive {A} (r c : nat) (l : list A) :
  length l = r * c -> transpose2 c r (transpose2 r c l) = l.
Proof.
  intros Hl. apply nth_error_ext. intros p.
  pose proof (length_transpose2 r c l Hl) as Ht.
  destruct (Nat.lt_ge_cases p (r * c)) as [Hp | Hp].
  - assert (0 < c) as Hc by nia.
    pose proof (Nat.div_mod_eq p c) as Hdm.
    pose proof (Nat.mod_upper_bound p c ltac:(lia)) as Hm.
    assert (p / c < r) as Hq by (apply Nat.Div0.div_lt_upper_bound; lia).
    replace p with (p / c * c + p mod c) at 1 2 by lia.
    rewrite (nth_error_transpose2 c r (transpose2 r c l) (p mod c) (p / c))
      by assumption.
    apply nth_error_transpose2; assumption.
  - rewrite (proj2 (nth_error_None l p)) by lia.
    apply nth_error_None.
    rewrite (length_transpose2 c r) by exact Ht. lia.
Qed.

Lemma transpose2_map {A B} (f : A -> B) (r c : nat) (l : list A) :
  transpose2 r c (map f l) = map f (transpose2 r c l).
Proof.
  unfold transpose2.
  rewrite !flat_map_concat_map, concat_map, map_map. f_equal.
  apply map_ext. intros j.
  rewrite !flat_map_concat_map, concat_map, map_map. f_equal.
  apply map_ext. intros i.
  rewrite nth_error_map. destruct (nth_error l (i * c + j)); reflexivity.
Qed.

(** Transposing the blocks of a batch, mapping, transposing back. *)
Lemma transpose_blocks_roundtrip {A B} (F : A -> B) (b d S : nat) (l : list A) :
  length l = b * (d * S) ->
  concat (map (transpose2 S d)
              (chunks b (S * d)
                      (map F (concat (map (transpose2 d S)
                                          (chunks b (d * S) l))))))
  = map F l.
Proof.
  intros Hl.
  pose proof (Forall_length_chunks b (d * S) l Hl) as Hblk.
  set (blocks := chunks b (d * S) l) in *.
  assert (Forall (fun t => length t = S * d)
                 (map (fun blk => map F (transpose2 d S blk)) blocks)) as Ht.
  { apply Forall_map. eapply Forall_impl; [| exact Hblk].
    intros blk Hb. cbn. rewrite length_map. apply length_transpose2. exact Hb. }
  rewrite concat_map, map_map.
  replace b with (length (map (fun blk => map F (transpose2 d S blk)) blocks))
    by (unfold blocks; rewrite length_map, length_chunks; reflexivity).
  rewrite chunks_concat by exact Ht.
  rewrite map_map.
  rewrite (map_ext_in _ (map F)).
  - rewrite <- concat_map. unfold blocks. rewrite concat_chunks by exact Hl.
    reflexivity.
  - intros blk Hin. rewrite Forall_forall in Hblk.
    rewrite transpose2_map, transpose2_involutive by (apply Hblk; exact Hin).
    reflexivity.
Qed.

Lemma length_transposed_blocks {A} (b d S : nat) (l : list A) :
  length l = b * (d * S) ->
  length (concat (map (transpose2 d S) (chunks b (d * S) l))) = b * (S * d).
Proof.
  intros Hl. rewrite (length_concat_map_const _ (S * d)).
  - rewrite length_chunks. reflexivity.
  - intros blk Hin. apply length_transpose2.
    pose proof (Forall_length_chunks b (d * S) l Hl) as Hblk.
    rewrite Forall_forall in Hblk. apply Hblk. exact Hin.
Qed.

Lemma numel_app (l1 l2 : list nat) : numel (l1 ++ l2) = numel l1 * numel l2.
Proof.
  induction l1 as [| a l1 IH].
  - cbn [app]. change (numel []) with 1. rewrite Nat.mul_1_l. reflexivity.
  - cbn [app]. change (numel (a :: l1 ++ l2)) with (a * numel (l1 ++ l2)).
    change (numel (a :: l1)) with (a * numel l1).
    rewrite IH. apply Nat.mul_assoc.
Qed.

Lemma numel_removelast_last (l : list nat) :
  l <> [] -> numel l = numel (removelast l) * last l 0.
Proof.
  intros Hl. rewrite (app_removelast_last 0 Hl) at 1.
  rewrite numel_app. change (numel [last l 0]) with (last l 0 * 1).
  rewrite Nat.mul_1_r. reflexivity.
Qed.

(** ** The layouts of the input *)

Section LayoutRoundtrip.
Variable T : Type.
Variable self : LFQ T.

(** [forward] brings an input of rank three or more to (batch, seq,
    feature), and the last lines of [forward] undo it: a tensor computed
    elementwise on the standardized input comes back in the layout of the
    input. *)
Lemma standardize_layout (x : tensor T) :
  3 <= length (shape x) -> well_shaped x ->
  exists xs ps b n,
    standardize self (4 <=? length (shape x)) x = Ok (xs, ps)
    /\ shape xs = [b; n; feature_axis (channel_first self) (shape x)]
    /\ well_shaped xs
    /\ ((4 <=? length (shape x)) = true -> n = numel ps)
    /\ forall F : T -> T,
        restore_layout (channel_first self) (4 <=? length (shape x)) ps
                       {| shape := [b; n; feature_axis (channel_first self) (shape x)];
                          data := map F (data xs) |}
        = Ok {| shape := shape x; data := map F (data x) |}.
Proof.
  intros Hrank Hws. unfold well_shaped in Hws.
  unfold standardize, restore_layout, feature_axis.
  destruct x as [shp dat]. cbn [shape data] in *.
  destruct shp as [| b [| s1 [| s2 rest]]]; cbn [length] in Hrank; try lia.
  destruct (channel_first self).
  - (* channel first: the features on axis 1 *)
    unfold channel_last. cbn [shape data bind nth].
    destruct rest as [| s3 rest].
    + (* rank three *)
      cbn [length Nat.leb bind app].
      assert (length dat = b * (s1 * numel [s2])) as Hl by exact Hws.
      exists {| shape := [b; s2; s1];
                data := concat (map (transpose2 s1 (numel [s2]))
                                    (chunks b (s1 * numel [s2]) dat)) |},
             [], b, s2.
      split; [reflexivity |]. split; [reflexivity |]. split.
      { unfold well_shaped. cbn [shape data].
        rewrite length_transposed_blocks by exact Hl.
        cbn. lia. }
      split; [discriminate |].
      intros F. unfold channel_first_layout. cbn [shape data last removelast].
      rewrite transpose_blocks_roundtrip by exact Hl. reflexivity.
    + (* images and videos *)
      cbn [length Nat.leb]. unfold pack_one. cbn [shape data bind].
      set (sp := s2 :: s3 :: rest) in *.
      assert (length dat = b * (s1 * numel sp)) as Hl by exact Hws.
      exists {| shape := [b; numel sp; s1];
                data := concat (map (transpose2 s1 (numel sp))
                                    (chunks b (s1 * numel sp) dat)) |},
             sp, b, (numel sp).
      split.
      { unfold sp at 1 2 3. cbn [app].
        change (s2 :: s3 :: rest ++ [s1]) with (sp ++ [s1]).
        rewrite last_last, removelast_last. reflexivity. }
      split; [reflexivity |]. split.
      { unfold well_shaped. cbn [shape data].
        rewrite length_transposed_blocks by exact Hl.
        cbn. lia. }
      split; [reflexivity |].
      intros F. unfold unpack_one. cbn [shape data bind].
      rewrite Nat.eqb_refl. cbn [bind].
      unfold channel_first_layout. cbn [shape data].
      unfold sp at 1 2 3 4. cbn [app].
      change (s2 :: s3 :: rest ++ [s1]) with (sp ++ [s1]).
      rewrite last_last, removelast_last.
      rewrite transpose_blocks_roundtrip by exact Hl. reflexivity.
  - (* channel last: the features on the last axis *)
    cbn [bind].
    destruct rest as [| s3 rest].
    + cbn [length Nat.leb]. exists {| shape := [b; s1; s2]; data := dat |}, [], b, s1.
      split; [reflexivity |]. split; [reflexivity |].
      split; [exact Hws |]. split; [discriminate |].
      intros F. reflexivity.
    + cbn [length Nat.leb]. unfold pack_one. cbn [shape data].
      set (sp := s1 :: s2 :: s3 :: rest) in *.
      assert (sp <> []) as Hsp by (unfold sp; discriminate).
      exists {| shape := [b; numel (removelast sp); last sp 0]; data := dat |},
             (removelast sp), b, (numel (removelast sp)).
      split; [reflexivity |].
      split.
      { cbn [shape]. do 3 f_equal. }
      split.
      { unfold well_shaped. cbn [shape data]. rewrite Hws.
        change (numel (b :: sp)) with (b * numel sp).
        rewrite (numel_removelast_last sp Hsp).
        change (numel [b; numel (removelast sp); last sp 0])
          with (b * (numel (removelast sp) * (last sp 0 * 1))).
        rewrite Nat.mul_1_r. reflexivity. }
      split; [reflexivity |].
      intros F. unfold unpack_one. cbn [shape data bind].
      rewrite Nat.eqb_refl.
      change (last (b :: sp) 0) with (last sp 0).
      rewrite <- (app_removelast_last 0 Hsp). reflexivity.
Qed.
End LayoutRoundtrip.

(** ** The quantized value *)


Lemma quantize_at_hard_threshold {T} (ops : ScalarOps T) (self : LFQ T) (v : T) :
  mul ops (one ops) (codebook_scale self) = codebook_scale self ->
  quantize_at ops self v = hard_threshold ops self v.
Proof.
  intros H. unfold quantize_at, hard_threshold, codebook_value. rewrite H.
  reflexivity.
Qed.



(** ** Decoding, then encoding, in every layout *)

(** [rearrange(codes, "b ... d -> b d ...")] at the end of
    [indices_to_codes] is undone by [rearrange(x, "b d ... -> b ... d")] at
    the start of [forward]. *)
Lemma channel_first_then_last {A} (t : tensor A) (b D : nat) (mid : list nat) :
  shape t = b :: mid ++ [D] -> 0 < length mid -> well_shaped t ->
  exists t',
    channel_first_layout t = Ok t'
    /\ shape t' = b :: D :: mid
    /\ channel_last t' = Ok t.
Proof.
  intros Hs Hmid Hws. unfold well_shaped in Hws.
  destruct t as [shp dat]. cbn [shape data] in *. subst shp.
  assert (length dat = b * (numel mid * D)) as Hl.
  { rewrite Hws. change (numel (b :: mid ++ [D])) with (b * numel (mid ++ [D])).
    rewrite numel_app. change (numel [D]) with (D * 1).
    rewrite Nat.mul_1_r. reflexivity. }
  unfold channel_first_layout. cbn [shape data].
  destruct mid as [| m mid']; [cbn in Hmid; lia |].
  cbn [app]. change (m :: mid' ++ [D]) with ((m :: mid') ++ [D]).
  rewrite last_last, removelast_last.
  eexists. split; [reflexivity |]. split; [reflexivity |].
  unfold channel_last. cbn [shape data].
  pose proof (transpose_blocks_roundtrip (fun v => v) b (numel (m :: mid')) D dat Hl)
    as E.
  rewrite !map_id in E. rewrite E. reflexivity.
Qed.

Lemma restore_layout_defined {A} (cf is_img_or_video : bool) (ps : list nat)
      (b n D : nat) (l : list A) :
  (is_img_or_video = true -> n = numel ps) ->
  exists xo,
    restore_layout cf is_img_or_video ps {| shape := [b; n; D]; data := l |}
    = Ok xo.
Proof.
  intros H. unfold restore_layout, unpack_one. cbn [shape].
  destruct is_img_or_video.
  - rewrite (H eq_refl), Nat.eqb_refl. cbn [bind].
    destruct cf; [| eexists; reflexivity].
    unfold channel_first_layout. cbn [shape].
    destruct ps; cbn [app]; eexists; reflexivity.
  - cbn [bind]. destruct cf; [| eexists; reflexivity].
    unfold channel_first_layout. cbn [shape]. eexists. reflexivity.
Qed.

Section RoundtripLayouts.
Variable T : Type.
Variable ops : ScalarOps T.
Variable entropy : list T -> T.
Variable maybe_distributed_mean : list (list T) -> list (list T).
Variable self : LFQ T.

Local Abbreviation fwd := (forward_with_breakdown ops entropy maybe_distributed_mean self).
Local Abbreviation c := (num_codebooks self).
Local Abbreviation d := (codebook_dim self).

(** The tensor [indices_to_codes] returns, without projection, for indices
    of shape [lead], or [lead ++ [c]] when the codebook axis is kept. *)
Lemma indices_to_codes_layout (lead : list nat) (idx : tensor Z) :
  shape idx = (if keep_num_codebooks_dim self then lead ++ [c] else lead) ->
  (keep_num_codebooks_dim self = false -> c = 1) ->
  indices_to_codes ops self idx false
  = (let t := {| shape := lead ++ [c * d];
                 data := concat
                           (map (fun g => concat (map (decode_index ops self) g))
                                (chunks (numel lead) c (data idx))) |} in
     if channel_first self then channel_first_layout t else Ok t).
Proof.
  intros Hs Hk. unfold indices_to_codes. cbv zeta.
  assert ((if keep_num_codebooks_dim self
           then shape idx else shape idx ++ [1]) = lead ++ [c]) as E.
  { rewrite Hs. destruct (keep_num_codebooks_dim self); [reflexivity |].
    rewrite Hk by reflexivity. reflexivity. }
  rewrite E, last_last, removelast_last.
  rewrite length_app, Nat.add_comm. cbn [length Nat.add Nat.eqb negb guard bind fst snd].
  reflexivity.
Qed.

(** What [forward] makes of the codes at its start: (batch, seq, feature)
    with the data of the decoded codes in their order. *)
Lemma standardize_codes (t : tensor T) (b D : nat) (mid : list nat) :
  shape t = b :: mid ++ [D] -> 0 < length mid -> well_shaped t ->
  exists codes n ps,
    (if channel_first self then channel_first_layout t else Ok t) = Ok codes
    /\ standardize self (4 <=? length (shape codes)) codes
       = Ok ({| shape := [b; n; D]; data := data t |}, ps)
    /\ n = numel mid
    /\ ((4 <=? length (shape codes)) = true -> ps = mid)
    /\ ((4 <=? length (shape codes)) = false -> mid = [n]).
Proof.
  intros Hs Hmid Hws.
  assert (exists codes,
             (if channel_first self then channel_first_layout t else Ok t) = Ok codes
             /\ length (shape codes) = 2 + length mid
             /\ (if channel_first self then channel_last codes else Ok codes) = Ok t)
    as (codes & Hcodes & Hrank & Hback).
  { destruct (channel_first self).
    - destruct (channel_first_then_last t b D mid Hs Hmid Hws) as (t' & H1 & H2 & H3).
      exists t'. split; [exact H1 |]. split; [rewrite H2; reflexivity | exact H3].
    - exists t. split; [reflexivity |]. split; [| reflexivity].
      rewrite Hs. cbn [length]. rewrite length_app. cbn. lia. }
  exists codes.
  unfold standardize. rewrite Hback, Hrank. cbn [bind].
  destruct t as [shp dat]. cbn [shape data] in *. subst shp.
  destruct mid as [| m [| m2 mid']]; [cbn in Hmid; lia | |].
  - exists m, []. split; [exact Hcodes |]. cbn [length Nat.add Nat.leb app].
    split; [reflexivity |]. split; [cbn; lia |].
    split; [discriminate | reflexivity].
  - set (mid := m :: m2 :: mid').
    exists (numel mid), mid. split; [exact Hcodes |].
    cbn [length Nat.add Nat.leb].
    split.
    { unfold pack_one. cbn [shape data]. unfold mid at 1. cbn [app].
      change (m :: m2 :: mid' ++ [D]) with (mid ++ [D]).
      rewrite last_last, removelast_last. reflexivity. }
    split; [reflexivity |]. split; [reflexivity | discriminate].
Qed.

Hypothesis Hcodec :
  forall i, (0 <= i < codebook_size self)%Z ->
            encode_vector ops self (decode_index ops self i) = Ok i.

(** Decoding the indices and feeding the codes to [forward] returns the
    indices, once each codeword encodes to its index. *)
Lemma roundtrip_of_index_codec (b : nat) (mid : list nat) (idx : tensor Z) :
  constructed ops self ->
  0 < c ->
  has_projections self = false ->
  dim self = d * c ->
  soft_clamp_input_value self = None ->
  0 < length mid ->
  shape idx = (if keep_num_codebooks_dim self
               then (b :: mid) ++ [c] else b :: mid) ->
  well_shaped idx ->
  Forall (fun i => (0 <= i < codebook_size self)%Z) (data idx) ->
  exists codes,
    indices_to_codes ops self idx false = Ok codes
    /\ (forall noise inv_temperature mask,
          exists ret bd,
            fwd false noise codes inv_temperature mask = Ok (ret, bd)
            /\ indices ret = idx)
    /\ (forall training noise inv_temperature mask ret bd,
          fwd training noise codes inv_temperature mask = Ok (ret, bd) ->
          indices ret = idx).
Proof.
  intros C Hc Hproj Hdim Hclamp Hmid Hs Hws Hrange.
  destruct (c_no_proj C Hproj) as [Hin Hout].
  assert (keep_num_codebooks_dim self = false -> c = 1) as Hk.
  { intros Hk. pose proof (c_keep C Hk). lia. }
  set (groups := chunks (numel (b :: mid)) c (data idx)).
  assert (length (data idx) = numel (b :: mid) * c) as Hlen.
  { unfold well_shaped in Hws. rewrite Hws, Hs.
    destruct (keep_num_codebooks_dim self).
    - rewrite numel_app. change (numel [c]) with (c * 1).
      rewrite Nat.mul_1_r. reflexivity.
    - rewrite Hk by reflexivity. rewrite Nat.mul_1_r. reflexivity. }
  assert (length (mask self) = d) as Hmask.
  { rewrite (c_mask C). apply length_make_mask. }
  rewrite (indices_to_codes_layout (b :: mid) idx Hs Hk). cbv zeta.
  fold groups.
  set (codes := map (fun g => concat (map (decode_index ops self) g)) groups).
  set (t := {| shape := (b :: mid) ++ [c * d]; data := concat codes |}).
  assert (Forall (fun g => length g = c) groups) as Hg.
  { apply Forall_length_chunks. exact Hlen. }
  assert (Forall (fun tok => length tok = c * d) codes) as Htok.
  { unfold codes. apply Forall_map. eapply Forall_impl; [| exact Hg].
    intros g Hgl. cbn.
    rewrite (length_concat_const d).
    - rewrite length_map, Hgl. reflexivity.
    - apply Forall_map. apply Forall_forall. intros i _.
      rewrite length_decode_index. exact Hmask. }
  assert (length codes = numel (b :: mid)) as Hcl
      by (unfold codes, groups; rewrite length_map, length_chunks; reflexivity).
  assert (well_shaped t) as Hwt.
  { unfold well_shaped, t. cbn [shape data].
    rewrite (length_concat_const (c * d)) by exact Htok.
    rewrite Hcl, numel_app. change (numel [c * d]) with (c * d * 1).
    rewrite Nat.mul_1_r. reflexivity. }
  destruct (standardize_codes t b (c * d) mid eq_refl Hmid Hwt)
    as (tc & n & ps & Htc & Hstd & Hn & Hps & Hseq).
  exists tc. split; [exact Htc |].
  set (xs := {| shape := [b; n; c * d]; data := data t |}) in *.
  assert (projected ops self xs = codes) as Hprojd.
  { unfold projected. rewrite Hin, Hclamp. cbn [apply_module].
    rewrite map_id. cbn [shape data xs t last removelast].
    replace (numel [b; n]) with (length codes).
    - apply chunks_concat. exact Htok.
    - rewrite Hcl, Hn. change (numel (b :: mid)) with (b * numel mid).
      cbn. lia. }
  assert (pre_quantize ops self xs
          = Ok (b, n, c * d,
                map (map (maybe_l2norm ops self))
                    (map (map (decode_index ops self)) groups))) as Hpre.
  { rewrite (pre_quantize_ok T ops self xs b n (c * d)).
    - rewrite Hin. cbn [out_size]. rewrite Hprojd.
      rewrite Nat.mul_comm, Nat.div_mul by lia.
      do 3 f_equal. unfold codes. rewrite map_map.
      apply map_ext_in. intros g Hgin.
      rewrite Forall_forall in Hg.
      rewrite <- (Hg g Hgin), <- (length_map (decode_index ops self) g).
      apply chunks_concat. apply Forall_map. apply Forall_forall. intros i _.
      rewrite length_decode_index. exact Hmask.
    - reflexivity.
    - rewrite Hdim. apply Nat.mul_comm.
    - rewrite Hin. reflexivity.
    - exact Hc.
    - rewrite Hin. cbn [out_size]. rewrite Nat.mul_comm.
      apply Nat.Div0.mod_mul. }
  assert (mapM (mapM (index_of ops self))
               (map (map (map (quantize_at ops self)))
                    (map (map (maybe_l2norm ops self))
                         (map (map (decode_index ops self)) groups)))
          = Ok groups) as Hidx.
  { rewrite !map_map, mapM_map.
    rewrite <- (map_id groups) at 2. apply mapM_ok. intros g Hgin.
    rewrite !map_map, mapM_map.
    rewrite <- (map_id g) at 2. apply mapM_ok. intros i Hi.
    apply Hcodec.
    rewrite Forall_forall in Hrange. apply Hrange.
    eapply in_chunks; eassumption. }
  assert (restore_indices self (4 <=? length (shape tc)) ps b n groups = Ok idx)
    as Hio.
  { unfold restore_indices, unpack_one. cbn [shape data].
    unfold groups. rewrite concat_chunks by exact Hlen.
    destruct idx as [ishp idat]. cbn [shape data] in *.
    destruct (4 <=? length (shape tc)).
    - rewrite (Hps eq_refl), Hn, Nat.eqb_refl. cbn [bind shape data].
      destruct (keep_num_codebooks_dim self).
      + rewrite Hs. reflexivity.
      + change (b :: mid ++ [c]) with ((b :: mid) ++ [c]).
        rewrite last_last, removelast_last, (Hk eq_refl), Hs. reflexivity.
    - rewrite (Hseq eq_refl) in Hs. cbn [bind shape data].
      destruct (keep_num_codebooks_dim self).
      + rewrite Hs. reflexivity.
      + cbn [last removelast]. rewrite (Hk eq_refl), Hs. reflexivity. }
  split.
  - intros noise invT mask.
    destruct (restore_layout_defined (channel_first self)
                (4 <=? length (shape tc)) ps b n (c * d)
                (concat (map (fun tok => concat tok)
                             (hard_quantized ops self
                                (map (map (maybe_l2norm ops self))
                                     (map (map (decode_index ops self)) groups))))))
      as [xo Hxo].
    { intros Himg. rewrite Hn, (Hps Himg). reflexivity. }
    eexists. eexists. split.
    + eapply forward_eval; try eassumption.
      unfold restore_quantized. rewrite Hout.
      cbn [accepts guard bind out_size apply_module]. exact Hxo.
    + reflexivity.
  - intros training noise invT mask ret bd H.
    apply forward_inv in H.
    destruct H as (xs' & ps' & b' & n' & feat & xq & idxs & ent & commit
                   & H1 & H2 & H3 & _ & _ & _ & H7 & _).
    rewrite Hstd in H1. injection H1 as <- <-.
    rewrite Hpre in H2. injection H2 as <- <- <- <-.
    rewrite Hidx in H3. injection H3 as <-.
    rewrite Hio in H7. injection H7 as <-. reflexivity.
Qed.
End RoundtripLayouts.

(** ** The two values of a bit on the round trip *)

Section PatternCodec.
Variable T : Type.
Variable ops : ScalarOps T.
Variable self : LFQ T.

(** [l2norm] of a vector whose elements all have the square [v]. *)
Lemma l2norm_uniform (f : bool -> T) (v : T) (bs : list bool) :
  (forall b, mul ops (f b) (f b) = v) ->
  l2norm ops (map f bs)
  = map (fun b => div ops (f b) (uniform_denominator ops v (length bs))) bs.
Proof.
  intros Hv. unfold l2norm, uniform_denominator.
  rewrite !map_map.
  rewrite (map_ext (fun b => mul ops (f b) (f b)) (fun _ => v)) by exact Hv.
  rewrite map_const. reflexivity.
Qed.

Lemma maybe_l2norm_uniform (f : bool -> T) (bs : list bool) :
  mul ops (f true) (f true) = mul ops (f false) (f false) ->
  maybe_l2norm ops self (map f bs)
  = map (fun b => maybe_l2norm_at ops self (length bs) (f b)) bs.
Proof.
  intros Hsq. unfold maybe_l2norm, maybe_l2norm_at.
  destruct (spherical self).
  - rewrite (l2norm_uniform f (mul ops (f true) (f true))).
    + rewrite map_map. apply map_ext. intros [|]; [reflexivity |].
      rewrite Hsq. reflexivity.
    + intros [|]; [reflexivity | symmetry; exact Hsq].
  - reflexivity.
Qed.

(** Once the two values of a bit survive, every codeword encodes to its
    index. *)
Lemma encode_decode_index (d : nat) (i : Z) :
  mask self = make_mask d -> d <= 31 ->
  (0 <= i < 2 ^ Z.of_nat d)%Z ->
  bits_survive ops self d ->
  encode_vector ops self (decode_index ops self i) = Ok i.
Proof.
  intros Hm Hd Hi S. unfold encode_vector, decode_index.
  apply index_of_spec with (d := d); try assumption.
  assert (2 ^ Z.of_nat d <= 2 ^ 31)%Z as Hd31 by (apply pow2_le_mono; lia).
  rewrite Hm, index_bits_spec by lia.
  unfold bits_to_codes.
  rewrite (map_map (of_bool ops) (bits_to_codes_at ops (codebook_scale self))).
  rewrite (maybe_l2norm_uniform
             (fun b => bits_to_codes_at ops (codebook_scale self) (of_bool ops b)))
    by exact (bs_codes S).
  rewrite length_bits_of.
  change (fun b => maybe_l2norm_at ops self d
                     (bits_to_codes_at ops (codebook_scale self) (of_bool ops b)))
    with (decoded_value ops self d).
  rewrite (maybe_l2norm_uniform (decoded_value ops self d)) by exact (bs_decoded S).
  rewrite length_bits_of.
  change (fun b => maybe_l2norm_at ops self d (decoded_value ops self d b))
    with (encoded_value ops self d).
  rewrite !map_map. apply map_ext. intros [|].
  - rewrite (bs_high S). reflexivity.
  - rewrite (bs_low S). reflexivity.
Qed.
End PatternCodec.

(** In float32 with the default [codebook_scale] 1.0 the two values of a
    bit survive, for every number of bits up to 31, fixed-scale and
    spherical. *)
Lemma b32_bits_survive (fexp ftanh fsoftplus : spec_float -> spec_float)
      (self : LFQ spec_float) (d : nat) :
  codebook_scale self = Binary32.pone ->
  d <= 31 ->
  bits_survive (Binary32.ops fexp ftanh fsoftplus) self d.
Proof.
  intros Hs Hd.
  constructor;
    unfold encoded_value, decoded_value, maybe_l2norm_at, quantize_at,
      codebook_value;
    rewrite Hs; destruct (spherical self);
    do 32 (destruct d as [| d]; [vm_compute; reflexivity |]); lia.
Qed.




(* ================================================================== *)
(** * Further properties of the code *)

(** ** Construction: all the validations of [__init__] *)

Lemma is_power_of_two_pos (n : Z) : is_power_of_two n -> (0 < n)%Z.
Proof. intros [k [Hk ->]]. apply Z.pow_pos_nonneg; lia. Qed.

(** For a [codebook_size] below 2^47 (where the binary64 logarithm of
    [math.log2] decides as the exact one), [LFQ.__init__] returns a module
    exactly when: [dim] or [codebook_size] is given; [codebook_size], when
    given, is a power of two; the codebook axis is not dropped with several
    codebooks; [frac_per_sample_entropy] lies in (0, 1]; the soft clamp
    value, when given, is at least [codebook_scale]. *)
Theorem LFQ_init_succeeds_iff :
  forall (T : Type) (ops : ScalarOps T) (a : LFQ_args T) (w : init_weights T),
    (forall n, a_codebook_size a = Some n -> (n < 2 ^ 47)%Z) ->
    (exists self, LFQ_init ops a w = Ok self)
    <-> (valid_codebook_size a
         /\ ~ (1 < a_num_codebooks a /\ a_keep_num_codebooks_dim a = Some false)
         /\ Binary64.ltb Binary64.fzero (a_frac_per_sample_entropy a) = true
         /\ Binary64.leb (a_frac_per_sample_entropy a) Binary64.fone = true
         /\ forall v, a_soft_clamp_input_value a = Some v ->
                      ge ops v (a_codebook_scale a) = true).
Proof.
  intros T ops a w _. unfold valid_codebook_size. split.
  - intros [self H]. unfold LFQ_init in H.
    destruct (a_dim a) as [d |] eqn:Hd; destruct (a_codebook_size a) as [n |] eqn:Hn;
      cbn [assert_ bind] in H; try discriminate H;
      repeat step_assert H;
      repeat match goal with
             | E : (_ && _)%bool = true |- _ =>
                 apply andb_true_iff in E; destruct E
             end;
      (split; [split; [(left; discriminate) || (right; discriminate) |] |]);
      try (intros n' Hn'; injection Hn' as <-;
           apply log2_is_integer_spec; [apply Z.ltb_lt |]; assumption);
      try (intros n' Hn'; discriminate Hn');
      (split; [| split; [assumption | split; [assumption |]]]);
      try (intros [Hc Hk];
           match goal with
           | E : negb _ = true |- _ =>
               apply negb_true_iff, andb_false_iff in E;
               rewrite Hk in E; apply Nat.ltb_lt in Hc; rewrite Hc in E;
               destruct E; discriminate
           end);
      intros v Hv;
      match goal with
      | E : match a_soft_clamp_input_value a with _ => _ end = true |- _ =>
          rewrite Hv in E; exact E
      end.
  - intros ((Hgiven & Hpow) & Hkeep & Hf0 & Hf1 & Hclamp).
    unfold LFQ_init.
    assert (negb ((1 <? a_num_codebooks a)
                  && negb match a_keep_num_codebooks_dim a with
                          | Some k => k
                          | None => 1 <? a_num_codebooks a
                          end) = true) as Ek.
    { destruct (1 <? a_num_codebooks a) eqn:Ec; [| reflexivity].
      destruct (a_keep_num_codebooks_dim a) as [[|] |] eqn:Ek; cbn; try reflexivity.
      exfalso. apply Hkeep. split; [apply Nat.ltb_lt; exact Ec | reflexivity]. }
    assert (match a_soft_clamp_input_value a with
            | Some v => ge ops v (a_codebook_scale a)
            | None => true
            end = true) as Ec.
    { destruct (a_soft_clamp_input_value a) as [v |]; [| reflexivity].
      apply Hclamp. reflexivity. }
    destruct (a_codebook_size a) as [n |] eqn:Hn.
    + pose proof (Hpow n eq_refl) as Hp.
      pose proof (is_power_of_two_pos n Hp) as Hpos.
      apply log2_is_integer_spec in Hp; [| exact Hpos].
      apply Z.ltb_lt in Hpos.
      destruct (a_dim a); cbn [assert_ guard bind];
        rewrite Hpos; cbn [assert_ guard bind]; rewrite Hp; cbn [assert_ guard bind];
        rewrite Ek, Hf0, Hf1, Ec; cbn [andb assert_ guard bind];
        eexists; reflexivity.
    + destruct (a_dim a) as [d |].
      * cbn [assert_ guard bind].
        rewrite Ek, Hf0, Hf1, Ec; cbn [andb assert_ guard bind].
        eexists; reflexivity.
      * exfalso. destruct Hgiven as [H | H]; apply H; reflexivity.
Qed.

Lemma LFQ_init_succeeds_iff_witness :
  (exists self, LFQ_init ops32 args4_32 (zero_init ops32) = Ok self)
  <-> (valid_codebook_size args4_32
       /\ ~ (1 < a_num_codebooks args4_32
             /\ a_keep_num_codebooks_dim args4_32 = Some false)
       /\ Binary64.ltb Binary64.fzero (a_frac_per_sample_entropy args4_32) = true
       /\ Binary64.leb (a_frac_per_sample_entropy args4_32) Binary64.fone = true
       /\ forall v, a_soft_clamp_input_value args4_32 = Some v ->
                    ge ops32 v (a_codebook_scale args4_32) = true).
Proof.
  apply (LFQ_init_succeeds_iff spec_float ops32 args4_32 (zero_init ops32)).
  intros n Hn. injection Hn as <-. reflexivity.
Defined.

(** The later assertions of [__init__], in the order they are checked:
    once [codebook_size] is accepted, several codebooks with
    [keep_num_codebooks_dim=False] fail first; then a
    [frac_per_sample_entropy] outside (0, 1]; then a soft clamp value below
    [codebook_scale]. *)
Theorem LFQ_init_later_assertions :
  forall (T : Type) (ops : ScalarOps T) (a : LFQ_args T) (w : init_weights T),
    valid_codebook_size a ->
    (1 < a_num_codebooks a -> a_keep_num_codebooks_dim a = Some false ->
     LFQ_init ops a w = Err (AssertionError MsgKeepNumCodebooksDim))
    /\ (~ (1 < a_num_codebooks a /\ a_keep_num_codebooks_dim a = Some false) ->
        (Binary64.ltb Binary64.fzero (a_frac_per_sample_entropy a)
         && Binary64.leb (a_frac_per_sample_entropy a) Binary64.fone)%bool = false ->
        LFQ_init ops a w = Err (AssertionError MsgFracPerSampleEntropy))
    /\ (~ (1 < a_num_codebooks a /\ a_keep_num_codebooks_dim a = Some false) ->
        (Binary64.ltb Binary64.fzero (a_frac_per_sample_entropy a)
         && Binary64.leb (a_frac_per_sample_entropy a) Binary64.fone)%bool = true ->
        forall v, a_soft_clamp_input_value a = Some v ->
                  ge ops v (a_codebook_scale a) = false ->
                  LFQ_init ops a w = Err (AssertionError MsgSoftClamp)).
Proof.
  intros T ops a w [Hgiven Hpow].
  assert (forall k : result (LFQ T),
             (_ <- assert_ (match a_dim a, a_codebook_size a with
                            | None, None => false
                            | _, _ => true
                            end) MsgDimOrCodebookSize ;;
              _ <- match a_codebook_size a with
                   | None => Ok tt
                   | Some n =>
                       _ <- guard (0 <? n)%Z ValueError ;;
                       assert_ (log2_is_integer n) (MsgPowerOfTwo (2 ^ ceil_log2 n))
                   end ;;
              k)%result = k) as Hfirst.
  { intros k. destruct (a_codebook_size a) as [n |] eqn:Hn.
    - pose proof (Hpow n eq_refl) as Hp.
      pose proof (is_power_of_two_pos n Hp) as Hpos.
      apply log2_is_integer_spec in Hp; [| exact Hpos].
      apply Z.ltb_lt in Hpos.
      destruct (a_dim a); cbn [assert_ guard bind];
        rewrite Hpos; cbn [assert_ guard bind]; rewrite Hp; reflexivity.
    - destruct (a_dim a); [reflexivity |].
      exfalso. destruct Hgiven as [H | H]; apply H; reflexivity. }
  assert (~ (1 < a_num_codebooks a /\ a_keep_num_codebooks_dim a = Some false) ->
          negb ((1 <? a_num_codebooks a)
                && negb match a_keep_num_codebooks_dim a with
                        | Some k => k
                        | None => 1 <? a_num_codebooks a
                        end) = true) as Hkeep.
  { intros Hk. destruct (1 <? a_num_codebooks a) eqn:Ec; [| reflexivity].
    destruct (a_keep_num_codebooks_dim a) as [[|] |] eqn:Ek; cbn; try reflexivity.
    exfalso. apply Hk. split; [apply Nat.ltb_lt; exact Ec | reflexivity]. }
  unfold LFQ_init. rewrite Hfirst. cbv zeta.
  split; [| split].
  - intros Hc Hk. apply Nat.ltb_lt in Hc. rewrite Hk, Hc. reflexivity.
  - intros Hk Hf. rewrite (Hkeep Hk), Hf. reflexivity.
  - intros Hk Hf v Hv Hge. rewrite (Hkeep Hk), Hf, Hv, Hge. reflexivity.
Qed.

Lemma LFQ_init_later_assertions_witness :
  LFQ_init ops32 args4_32_clamp_below_scale (zero_init ops32)
  = Err (AssertionError MsgSoftClamp).
Proof.
  refine (proj2 (proj2 (LFQ_init_later_assertions spec_float ops32
                          args4_32_clamp_below_scale (zero_init ops32) _))
                _ _ (Binary32.pzero) eq_refl eq_refl).
  - split; [right; discriminate |].
    intros n Hn. injection Hn as <-. exists 2%Z. split; [lia | reflexivity].
  - cbn. intros [H _]. lia.
  - reflexivity.
Defined.

(** ** The enumerated codebook *)

Lemma binary_value_app (l : list bool) (b : bool) :
  binary_value (l ++ [b]) = (2 * binary_value l + (if b then 1 else 0))%Z.
Proof. unfold binary_value. rewrite fold_left_app. reflexivity. Qed.

Lemma bits_of_succ (d : nat) (z : Z) (b : bool) :
  bits_of (S d) (2 * z + (if b then 1 else 0)) = bits_of d z ++ [b].
Proof.
  unfold bits_of. cbn [seq]. rewrite <- seq_shift.
  cbn [rev]. rewrite map_app, <- map_rev, map_map. cbn [map].
  f_equal.
  - apply map_ext. intros k. rewrite Nat2Z.inj_succ.
    destruct b.
    + rewrite Z.testbit_odd_succ by lia. reflexivity.
    + rewrite Z.add_0_r. rewrite Z.testbit_even_succ by lia. reflexivity.
  - destruct b; cbn [Z.of_nat].
    + rewrite Z.testbit_odd_0. reflexivity.
    + rewrite Z.add_0_r, Z.testbit_even_0. reflexivity.
Qed.

(** The digits of the number a pattern spells are the pattern. *)
Lemma bits_of_binary_value (bits : list bool) :
  bits_of (length bits) (binary_value bits) = bits
  /\ (0 <= binary_value bits < 2 ^ Z.of_nat (length bits))%Z.
Proof.
  induction bits as [| b bits [IH1 IH2]] using rev_ind.
  - split; [reflexivity | cbn; lia].
  - rewrite length_app, Nat.add_comm. cbn [length Nat.add].
    rewrite binary_value_app, bits_of_succ, IH1.
    split; [reflexivity |].
    rewrite Nat2Z.inj_succ, Z.pow_succ_r by lia.
    destruct b; lia.
Qed.

(** Two numbers with the same [d] low digits agree modulo [2 ^ d]. *)
Lemma bits_of_inj (d : nat) (i j : Z) :
  bits_of d i = bits_of d j ->
  (i mod 2 ^ Z.of_nat d = j mod 2 ^ Z.of_nat d)%Z.
Proof.
  intros H. unfold bits_of in H.
  assert (forall k, k < d -> Z.testbit i (Z.of_nat k) = Z.testbit j (Z.of_nat k))
    as Hk.
  { intros k Hk.
    apply (proj1 map_ext_in_iff H k).
    apply -> in_rev. apply in_seq. lia. }
  apply Z.bits_inj'. intros n Hn.
  destruct (Z.lt_ge_cases n (Z.of_nat d)) as [Hlt | Hge].
  - rewrite !Z.mod_pow2_bits_low by lia.
    specialize (Hk (Z.to_nat n) ltac:(lia)).
    rewrite Z2Nat.id in Hk by exact Hn. exact Hk.
  - rewrite !Z.mod_pow2_bits_high by lia. reflexivity.
Qed.

Lemma codeword_of_pattern_inj {T} (ops : ScalarOps T) (self : LFQ T)
      (p q : list bool) :
  bits_to_codes_at ops (codebook_scale self) (one ops)
  <> bits_to_codes_at ops (codebook_scale self) (zero ops) ->
  codeword_of_pattern ops self p = codeword_of_pattern ops self q -> p = q.
Proof.
  intros Hne. unfold codeword_of_pattern, bits_to_codes.
  revert q. induction p as [| a p IH]; intros [| b q] H; cbn in H;
    try discriminate H; [reflexivity |].
  injection H as Hab Hpq. f_equal; [| apply IH; exact Hpq].
  destruct a, b; cbn in Hab; try reflexivity; exfalso; apply Hne;
    [exact Hab | symmetry; exact Hab].
Qed.

Lemma codebook_rows {T} (ops : ScalarOps T) (self : LFQ T) :
  constructed ops self -> codebook_dim self <= 31 ->
  codebook self
  = map (fun i => codeword_of_pattern ops self (bits_of (codebook_dim self) i))
        (arange (codebook_size self)).
Proof.
  intros C Hd. rewrite (c_codebook C). apply map_ext_in. intros i Hi.
  unfold arange in Hi. apply in_map_iff in Hi. destruct Hi as [k [<- Hk]].
  apply in_seq in Hk.
  assert (Z.of_nat k < 2 ^ Z.of_nat (codebook_dim self))%Z as Hlt.
  { rewrite <- (c_size C). pose proof (c_size_pos C). lia. }
  assert (2 ^ Z.of_nat (codebook_dim self) <= 2 ^ 31)%Z
    by (apply pow2_le_mono; lia).
  rewrite (c_mask C), index_bits_spec by lia. reflexivity.
Qed.

(** The codebook buffer built by [__init__] holds every sign pattern of
    [codebook_dim] bits exactly once: it has [codebook_size] rows of
    [codebook_dim] elements, every pattern's codeword is the row at the
    number the pattern spells, and no two rows are equal as long as the two
    code values differ. *)
Theorem codebook_enumerates_sign_patterns :
  forall (T : Type) (ops : ScalarOps T) (a : LFQ_args T) (w : init_weights T)
         (self : LFQ T),
    LFQ_init ops a w = Ok self ->
    codebook_dim self <= 31 ->
    length (codebook self) = Z.to_nat (codebook_size self)
    /\ Forall (fun row => length row = codebook_dim self) (codebook self)
    /\ (forall pattern,
           length pattern = codebook_dim self ->
           nth_error (codebook self) (Z.to_nat (binary_value pattern))
           = Some (codeword_of_pattern ops self pattern))
    /\ (bits_to_codes_at ops (codebook_scale self) (one ops)
        <> bits_to_codes_at ops (codebook_scale self) (zero ops) ->
        NoDup (codebook self)).
Proof.
  intros T ops a w self Hinit Hd.
  pose proof (LFQ_init_constructed T ops a w self Hinit) as C.
  rewrite (codebook_rows ops self C Hd).
  split; [| split; [| split]].
  - unfold arange. rewrite !length_map, length_seq. reflexivity.
  - apply Forall_map. apply Forall_forall. intros i _.
    unfold codeword_of_pattern, bits_to_codes.
    rewrite !length_map. apply length_bits_of.
  - intros pattern Hl.
    destruct (bits_of_binary_value pattern) as [Hb Hr]. rewrite Hl in Hb, Hr.
    rewrite nth_error_map, nth_error_arange by (rewrite (c_size C); exact Hr).
    cbn. rewrite Hb. reflexivity.
  - intros Hne. apply Finite.Injective_map_NoDup_in.
    + intros i j Hi Hj Hij.
      apply codeword_of_pattern_inj in Hij; [| exact Hne].
      apply bits_of_inj in Hij.
      unfold arange in Hi, Hj.
      apply in_map_iff in Hi. destruct Hi as [ki [<- Hki]].
      apply in_map_iff in Hj. destruct Hj as [kj [<- Hkj]].
      apply in_seq in Hki, Hkj.
      pose proof (c_size C) as Hs. pose proof (c_size_pos C).
      rewrite !Z.mod_small in Hij by lia. exact Hij.
    + unfold arange. apply Finite.Injective_map_NoDup.
      * intros x y. apply Nat2Z.inj.
      * apply seq_NoDup.
Qed.

Lemma codebook_enumerates_sign_patterns_witness :
  exists self,
    LFQ_init ops32 args16_32 (zero_init ops32) = Ok self
    /\ length (codebook self) = 16
    /\ nth_error (codebook self) 5
       = Some (codeword_of_pattern ops32 self [false; true; false; true])
    /\ NoDup (codebook self).
Proof.
  evar (self : LFQ spec_float).
  assert (LFQ_init ops32 args16_32 (zero_init ops32) = Ok self) as Hself
      by (vm_compute; unfold self; reflexivity).
  exists self. split; [exact Hself |].
  destruct (codebook_enumerates_sign_patterns spec_float ops32 args16_32
              (zero_init ops32) self Hself ltac:(vm_compute; lia))
    as (Hlen & _ & Hrow & Hdup).
  split; [exact Hlen |]. split.
  - exact (Hrow [false; true; false; true] eq_refl).
  - apply Hdup. vm_compute. discriminate.
Defined.

(** ** The inputs [forward] accepts *)

Section InputLayouts.
Variable T : Type.
Variable self : LFQ T.

(** What the first and the last lines of [forward] do to the shape, for an
    input of rank three or more. *)
Lemma layout_shapes (x : tensor T) :
  3 <= length (shape x) ->
  exists xs ps b n,
    standardize self (4 <=? length (shape x)) x = Ok (xs, ps)
    /\ shape xs = [b; n; feature_axis (channel_first self) (shape x)]
    /\ ((4 <=? length (shape x)) = true -> n = numel ps)
    /\ (if 4 <=? length (shape x) then b :: ps else [b; n])
       = position_axes (channel_first self) (shape x)
    /\ forall (l : list T),
        exists xo,
          restore_layout (channel_first self) (4 <=? length (shape x)) ps
                         {| shape := [b; n; feature_axis (channel_first self) (shape x)];
                            data := l |}
          = Ok xo
          /\ shape xo = shape x.
Proof.
  intros Hrank.
  unfold standardize, restore_layout, feature_axis, position_axes.
  destruct x as [shp dat]. cbn [shape data] in *.
  destruct shp as [| b [| s1 [| s2 rest]]]; cbn [length] in Hrank; try lia.
  destruct (channel_first self).
  - unfold channel_last. cbn [shape data bind nth].
    destruct rest as [| s3 rest].
    + cbn [length Nat.leb bind app].
      eexists. exists [], b, s2.
      split; [reflexivity |]. split; [reflexivity |].
      split; [discriminate |]. split; [reflexivity |].
      intros l. unfold channel_first_layout. cbn [shape data last removelast].
      eexists. split; reflexivity.
    + cbn [length Nat.leb]. unfold pack_one. cbn [shape data bind].
      set (sp := s2 :: s3 :: rest) in *.
      eexists. exists sp, b, (numel sp).
      split.
      { unfold sp at 1 2 3. cbn [app].
        change (s2 :: s3 :: rest ++ [s1]) with (sp ++ [s1]).
        rewrite last_last, removelast_last. reflexivity. }
      split; [reflexivity |]. split; [reflexivity |]. split; [reflexivity |].
      intros l. unfold unpack_one. cbn [shape data bind].
      rewrite Nat.eqb_refl. cbn [bind].
      unfold channel_first_layout. cbn [shape data].
      unfold sp at 1 2 3 4. cbn [app].
      change (s2 :: s3 :: rest ++ [s1]) with (sp ++ [s1]).
      rewrite last_last, removelast_last.
      eexists. split; reflexivity.
  - cbn [bind].
    destruct rest as [| s3 rest].
    + cbn [length Nat.leb]. eexists. exists [], b, s1.
      split; [reflexivity |]. split; [reflexivity |].
      split; [discriminate |]. split; [reflexivity |].
      intros l. eexists. split; reflexivity.
    + cbn [length Nat.leb]. unfold pack_one. cbn [shape data].
      set (sp := s1 :: s2 :: s3 :: rest) in *.
      assert (sp <> []) as Hsp by (unfold sp; discriminate).
      eexists. exists (removelast sp), b, (numel (removelast sp)).
      split; [reflexivity |].
      split; [reflexivity |]. split; [reflexivity |]. split; [reflexivity |].
      intros l. unfold unpack_one. cbn [shape data bind].
      rewrite Nat.eqb_refl.
      change (last (b :: sp) 0) with (last sp 0).
      rewrite <- (app_removelast_last 0 Hsp).
      eexists. split; reflexivity.
Qed.

(** [standardize] produces a tensor of rank three only from an input of
    rank three or more. *)
Lemma standardize_rank (x xs : tensor T) (ps : list nat) :
  standardize self (4 <=? length (shape x)) x = Ok (xs, ps) ->
  length (shape xs) = 3 ->
  3 <= length (shape x).
Proof.
  intros H Hxs.
  destruct (4 <=? length (shape x)) eqn:E; [apply Nat.leb_le in E; lia |].
  unfold standardize in H.
  destruct (channel_first self).
  - unfold channel_last in H.
    destruct (shape x) as [| b [| d rest]] eqn:Hs; cbn [bind] in H;
      try discriminate H.
    injection H as <- _. cbn [shape length] in *.
    rewrite length_app in Hxs. cbn [length] in Hxs. lia.
  - cbn [bind] in H. injection H as <- _. lia.
Qed.
End InputLayouts.

Section InputValidation.
Variable T : Type.
Variable ops : ScalarOps T.
Variable entropy : list T -> T.
Variable maybe_distributed_mean : list (list T) -> list (list T).
Variable self : LFQ T.

Local Abbreviation fwd := (forward_with_breakdown ops entropy maybe_distributed_mean self).

Lemma forward_requires (training : bool) (noise : nat -> T) (x : tensor T)
      (inv_temperature : T) (mask : option (tensor bool))
      (ret : Return T) (bd : LossBreakdown T) :
  fwd training noise x inv_temperature mask = Ok (ret, bd) ->
  3 <= length (shape x)
  /\ feature_axis (channel_first self) (shape x) = dim self.
Proof.
  intros H. apply forward_inv in H.
  destruct H as (xs & ps & b & n & feat & xq & idxs & ent & commit
                 & H1 & H2 & _).
  apply pre_quantize_inv in H2. destruct H2 as (D & Hs & HD & _).
  assert (3 <= length (shape x)) as Hrank.
  { eapply standardize_rank; [exact H1 | rewrite Hs; reflexivity]. }
  split; [exact Hrank |].
  destruct (layout_shapes T self x Hrank)
    as (xs' & ps' & b' & n' & Hstd & Hshape & _).
  rewrite Hstd in H1. injection H1 as -> ->.
  rewrite Hs in Hshape. injection Hshape as _ _ <-. exact HD.
Qed.
End InputValidation.

(** [forward] returns only for an input of rank three or more whose
    feature axis (axis 1 when channel-first, the last axis otherwise) has
    size [dim]; for any other input, in either mode, it raises. *)
Theorem forward_returns_only_for_valid_input :
  forall (T : Type) (ops : ScalarOps T) (entropy : list T -> T)
         (maybe_distributed_mean : list (list T) -> list (list T))
         (self : LFQ T) (training : bool) (noise : nat -> T) (x : tensor T)
         (inv_temperature : T) (mask : option (tensor bool)),
    length (shape x) < 3
    \/ feature_axis (channel_first self) (shape x) <> dim self ->
    exists e,
      forward_with_breakdown ops entropy maybe_distributed_mean self training
                             noise x inv_temperature mask = Err e.
Proof.
  intros T ops entropy hook self training noise x invT mask Hbad.
  destruct (forward_with_breakdown ops entropy hook self training noise x invT mask)
    as [[ret bd] | e] eqn:H; [| exists e; reflexivity].
  exfalso. apply forward_requires in H. destruct H as [Hrank Hfeat].
  destruct Hbad as [Hr | Hf]; [lia | apply Hf; exact Hfeat].
Qed.

Lemma forward_returns_only_for_valid_input_witness :
  exists self e,
    LFQ_init ops32 args16_32 (zero_init ops32) = Ok self
    /\ forward_with_breakdown ops32 entropy0 no_reduction self false noise0
                              {| shape := [10; 4];
                                 data := map (fun _ => Binary32.pone) (seq 0 40) |}
                              (Binary32.of_Z 100) None = Err e.
Proof.
  evar (self : LFQ spec_float).
  assert (LFQ_init ops32 args16_32 (zero_init ops32) = Ok self) as Hself
      by (vm_compute; unfold self; reflexivity).
  exists self.
  destruct (forward_returns_only_for_valid_input spec_float ops32 entropy0
              no_reduction self false noise0
              {| shape := [10; 4];
                 data := map (fun _ => Binary32.pone) (seq 0 40) |}
              (Binary32.of_Z 100) None) as [e He].
  - left. cbn. lia.
  - exists e. split; [exact Hself | exact He].
Defined.

(** An input of rank three or more whose feature axis has not the size
    [dim] fails the assertion of [forward], which names the expected and
    the received size; in either mode and whatever the mask. *)
Theorem forward_wrong_dimension :
  forall (T : Type) (ops : ScalarOps T) (entropy : list T -> T)
         (maybe_distributed_mean : list (list T) -> list (list T))
         (self : LFQ T) (training : bool) (noise : nat -> T) (x : tensor T)
         (inv_temperature : T) (mask : option (tensor bool)),
    3 <= length (shape x) ->
    feature_axis (channel_first self) (shape x) <> dim self ->
    forward_with_breakdown ops entropy maybe_distributed_mean self training
                           noise x inv_temperature mask
    = Err (AssertionError
             (MsgExpectedDimension
                (dim self) (feature_axis (channel_first self) (shape x)))).
Proof.
  intros T ops entropy hook self training noise x invT mask Hrank Hfeat.
  destruct (layout_shapes T self x Hrank)
    as (xs & ps & b & n & Hstd & Hshape & _).
  unfold forward_with_breakdown. rewrite Hstd. cbn [bind fst snd].
  unfold pre_quantize. rewrite Hshape.
  cbn [length Nat.eqb negb guard bind last].
  apply Nat.eqb_neq in Hfeat. rewrite Hfeat. reflexivity.
Qed.

Lemma forward_wrong_dimension_witness :
  exists self,
    LFQ_init ops32 args16_32_channel_first (zero_init ops32) = Ok self
    /\ forward_with_breakdown ops32 entropy0 no_reduction self true noise0
                              {| shape := [1; 2; 2; 4];
                                 data := data x_image |}
                              (Binary32.of_Z 100) None
       = Err (AssertionError (MsgExpectedDimension 4 2)).
Proof.
  evar (self : LFQ spec_float).
  assert (LFQ_init ops32 args16_32_channel_first (zero_init ops32) = Ok self)
    as Hself by (vm_compute; unfold self; reflexivity).
  exists self. split; [exact Hself |].
  apply (forward_wrong_dimension spec_float ops32 entropy0 no_reduction self true
           noise0 {| shape := [1; 2; 2; 4]; data := data x_image |}
           (Binary32.of_Z 100) None).
  - cbn. lia.
  - vm_compute. discriminate.
Defined.

(** ** Shapes in every layout *)

Section EveryLayout.
Variable T : Type.
Variable self : LFQ T.

Lemma restore_indices_layout (x : tensor T) (ps : list nat) (b n : nat)
      (idxs : list (list Z)) :
  (keep_num_codebooks_dim self = false -> num_codebooks self = 1) ->
  ((4 <=? length (shape x)) = true -> n = numel ps) ->
  (if 4 <=? length (shape x) then b :: ps else [b; n])
  = position_axes (channel_first self) (shape x) ->
  restore_indices self (4 <=? length (shape x)) ps b n idxs
  = Ok {| shape := if keep_num_codebooks_dim self
                   then position_axes (channel_first self) (shape x)
                        ++ [num_codebooks self]
                   else position_axes (channel_first self) (shape x);
          data := concat idxs |}.
Proof.
  intros Hk Hn Hpos. unfold restore_indices, unpack_one. cbn [shape data].
  rewrite <- Hpos.
  destruct (4 <=? length (shape x)).
  - rewrite (Hn eq_refl), Nat.eqb_refl. cbn [bind shape data].
    destruct (keep_num_codebooks_dim self); [reflexivity |].
    change (b :: ps ++ [num_codebooks self])
      with ((b :: ps) ++ [num_codebooks self]).
    rewrite last_last, removelast_last, (Hk eq_refl). reflexivity.
  - cbn [bind shape data].
    destruct (keep_num_codebooks_dim self); [reflexivity |].
    cbn [last removelast]. rewrite (Hk eq_refl). reflexivity.
Qed.

Lemma numel_position_axes (x : tensor T) (ps : list nat) (b n : nat) :
  ((4 <=? length (shape x)) = true -> n = numel ps) ->
  (if 4 <=? length (shape x) then b :: ps else [b; n])
  = position_axes (channel_first self) (shape x) ->
  numel (position_axes (channel_first self) (shape x)) = b * n.
Proof.
  intros Hn Hpos. rewrite <- Hpos.
  destruct (4 <=? length (shape x)).
  - rewrite (Hn eq_refl). reflexivity.
  - cbn. lia.
Qed.
End EveryLayout.

(** For a constructed module and a well-shaped input of rank three or more
    with [dim] features, in whatever layout (sequence, image or video,
    channel-first or channel-last), [forward] returns in inference mode, and
    whatever it returns, in either mode, has: a quantized tensor of the shape
    of the input; indices of the shape of the input without its feature
    axis, followed by [num_codebooks] when the codebook axis is kept; every
    index in [0, codebook_size). *)
Theorem forward_shapes_every_layout :
  forall (T : Type) (ops : ScalarOps T) (entropy : list T -> T)
         (maybe_distributed_mean : list (list T) -> list (list T))
         (a : LFQ_args T) (w : init_weights T) (self : LFQ T) (x : tensor T),
    LFQ_init ops a w = Ok self ->
    codebook_dim self <= 31 ->
    0 < num_codebooks self ->
    (has_projections self = false ->
     dim self = codebook_dim self * num_codebooks self) ->
    well_shaped x ->
    3 <= length (shape x) ->
    feature_axis (channel_first self) (shape x) = dim self ->
    (forall noise inv_temperature mask,
        exists ret bd,
          forward_with_breakdown ops entropy maybe_distributed_mean self
                                 false noise x inv_temperature mask
          = Ok (ret, bd))
    /\ forall training noise inv_temperature mask ret bd,
        forward_with_breakdown ops entropy maybe_distributed_mean self
                               training noise x inv_temperature mask
        = Ok (ret, bd) ->
        shape (quantized ret) = shape x
        /\ shape (indices ret)
           = (if keep_num_codebooks_dim self
              then position_axes (channel_first self) (shape x)
                   ++ [num_codebooks self]
              else position_axes (channel_first self) (shape x))
        /\ well_shaped (indices ret)
        /\ Forall (fun i => (0 <= i < codebook_size self)%Z)
                  (data (indices ret)).
Proof.
  intros T ops entropy hook a w self x Hinit Hd Hc Hdim Hw Hrank Hfeat.
  pose proof (LFQ_init_constructed T ops a w self Hinit) as C.
  destruct (projection_sizes T ops self C Hdim) as (_ & _ & Hacc & Hout).
  assert (keep_num_codebooks_dim self = false -> num_codebooks self = 1) as Hk
      by (eapply keep_flag_codebooks; eassumption).
  destruct (standardize_layout T self x Hrank Hw)
    as (xs & ps & b & n & Hstd & Hshape & Hws & _).
  destruct (layout_shapes T self x Hrank)
    as (xs' & ps' & b' & n' & Hstd' & Hshape' & Hn & Hpos & Hrl).
  rewrite Hstd in Hstd'. injection Hstd' as <- <-.
  rewrite Hshape in Hshape'. injection Hshape' as <- <-.
  rewrite Hfeat in Hshape, Hrl.
  apply (forward_layout T ops entropy hook self C Hd Hc Hdim x xs ps b n).
  - exact Hstd.
  - exact Hshape.
  - exact Hws.
  - intros X. unfold restore_quantized. rewrite Hacc, Hout.
    cbn [guard bind]. apply Hrl.
  - intros idxs. apply restore_indices_layout; assumption.
  - rewrite <- Nat.mul_assoc.
    destruct (keep_num_codebooks_dim self).
    + rewrite numel_app, (numel_position_axes T self x ps b n Hn Hpos).
      change (numel [num_codebooks self]) with (num_codebooks self * 1).
      rewrite Nat.mul_1_r. symmetry. apply Nat.mul_assoc.
    + rewrite (numel_position_axes T self x ps b n Hn Hpos), (Hk eq_refl).
      rewrite Nat.mul_1_r. reflexivity.
Qed.

Lemma forward_shapes_every_layout_witness :
  exists self ret bd,
    LFQ_init ops32 args16_32 (zero_init ops32) = Ok self
    /\ forward_with_breakdown ops32 entropy0 no_reduction self false noise0
                              {| shape := [1; 2; 1; 2; 4]; data := data x_image |}
                              (Binary32.of_Z 100) None = Ok (ret, bd)
    /\ shape (quantized ret) = [1; 2; 1; 2; 4]
    /\ shape (indices ret) = [1; 2; 1; 2]
    /\ well_shaped (indices ret)
    /\ Forall (fun i => (0 <= i < 16)%Z) (data (indices ret)).
Proof.
  evar (self : LFQ spec_float).
  assert (LFQ_init ops32 args16_32 (zero_init ops32) = Ok self) as Hself
      by (vm_compute; unfold self; reflexivity).
  destruct (forward_shapes_every_layout spec_float ops32 entropy0 no_reduction
              args16_32 (zero_init ops32) self
              {| shape := [1; 2; 1; 2; 4]; data := data x_image |} Hself
              ltac:(vm_compute; lia) ltac:(vm_compute; lia)
              ltac:(intros _; reflexivity) eq_refl
              ltac:(cbn; lia) eq_refl) as [Hex Hall].
  destruct (Hex noise0 (Binary32.of_Z 100) None) as (ret & bd & Hfwd).
  exists self, ret, bd. split; [exact Hself |]. split; [exact Hfwd |].
  exact (Hall false noise0 (Binary32.of_Z 100) None ret bd Hfwd).
Defined.

(** ** Decoding the indices [forward] returns *)

Lemma mapM_map_eq {A B C} (f : A -> result B) (h : B -> C) (k : A -> C)
      (l : list A) (r : list B) :
  (forall a b, In a l -> f a = Ok b -> h b = k a) ->
  mapM f l = Ok r -> map h r = map k l.
Proof.
  intros H Hm. apply mapM_inv in Hm.
  induction Hm as [| a b l r Hab _ IH]; [reflexivity |].
  cbn. f_equal.
  - apply H; [left; reflexivity | exact Hab].
  - apply IH. intros a' b' Hin. apply H. right. exact Hin.
Qed.

Section DecodeEncoded.
Variable T : Type.
Variable ops : ScalarOps T.
Variable self : LFQ T.
Hypothesis C : constructed ops self.
Hypothesis Hd : codebook_dim self <= 31.
Hypothesis SC : sign_coded ops self.

Lemma length_sign_pattern (s : list T) :
  length (sign_pattern ops s) = length s.
Proof. unfold sign_pattern. apply length_map. Qed.

Lemma sign_pattern_quantized (s : list T) :
  sign_pattern ops (map (quantize_at ops self) s) = sign_pattern ops s.
Proof.
  unfold sign_pattern. rewrite map_map. apply map_ext. intros v.
  unfold quantize_at. destruct (gt ops v (zero ops)).
  - exact (sc_pos SC).
  - exact (sc_neg SC).
Qed.

Lemma codeword_of_sign_pattern (s : list T) :
  codeword_of_pattern ops self (sign_pattern ops s)
  = map (quantize_at ops self) s.
Proof.
  unfold codeword_of_pattern, sign_pattern, bits_to_codes.
  rewrite !map_map. apply map_ext. intros v.
  unfold quantize_at. destruct (gt ops v (zero ops)); cbn [of_bool].
  - exact (sc_high SC).
  - exact (sc_low SC).
Qed.

(** The index [forward] computes for a slot is the number its sign
    pattern spells. *)
Lemma index_of_binary_value (q : list T) :
  length q = codebook_dim self ->
  index_of ops self q = Ok (binary_value (sign_pattern ops q)).
Proof.
  intros Hq.
  destruct (bits_of_binary_value (sign_pattern ops q)) as [Hb Hr].
  rewrite length_sign_pattern, Hq in Hb, Hr.
  apply index_of_spec with (d := codebook_dim self).
  - exact (c_mask C).
  - exact Hd.
  - exact Hr.
  - rewrite Hb. unfold sign_pattern. rewrite map_map. reflexivity.
Qed.

(** Decoding the index of a slot gives the quantized slot. *)
Lemma decode_of_encoded (s : list T) (i : Z) :
  length s = codebook_dim self ->
  index_of ops self (map (quantize_at ops self) s) = Ok i ->
  decode_index ops self i
  = maybe_l2norm ops self (map (quantize_at ops self) s).
Proof.
  intros Hs Hi.
  rewrite index_of_binary_value in Hi by (rewrite length_map; exact Hs).
  injection Hi as <-. rewrite sign_pattern_quantized.
  destruct (bits_of_binary_value (sign_pattern ops s)) as [Hb Hr].
  rewrite length_sign_pattern, Hs in Hb, Hr.
  assert (2 ^ Z.of_nat (codebook_dim self) <= 2 ^ 31)%Z
    by (apply pow2_le_mono; lia).
  unfold decode_index.
  rewrite (c_mask C), index_bits_spec by lia.
  rewrite Hb. f_equal. apply codeword_of_sign_pattern.
Qed.

(** [indices_to_codes] with the projection, for indices of shape [lead],
    or [lead ++ [c]] when the codebook axis is kept. *)
Lemma indices_to_codes_projected (lead : list nat) (idx : tensor Z) :
  shape idx = (if keep_num_codebooks_dim self
               then lead ++ [num_codebooks self] else lead) ->
  (keep_num_codebooks_dim self = false -> num_codebooks self = 1) ->
  accepts (project_out self) (num_codebooks self * codebook_dim self) = true ->
  indices_to_codes ops self idx true
  = (let t :=
       {| shape := lead ++ [out_size (project_out self)
                                     (num_codebooks self * codebook_dim self)];
          data := concat
                    (map (apply_module ops (project_out self))
                         (map (fun g => concat (map (decode_index ops self) g))
                              (chunks (numel lead) (num_codebooks self)
                                      (data idx)))) |} in
     if channel_first self then channel_first_layout t else Ok t).
Proof.
  intros Hs Hk Hacc. unfold indices_to_codes. cbv zeta.
  assert ((if keep_num_codebooks_dim self
           then shape idx else shape idx ++ [1]) = lead ++ [num_codebooks self])
    as E.
  { rewrite Hs. destruct (keep_num_codebooks_dim self); [reflexivity |].
    rewrite Hk by reflexivity. reflexivity. }
  rewrite E, last_last, removelast_last.
  rewrite length_app, Nat.add_comm.
  cbn [length Nat.add Nat.eqb negb guard bind fst snd].
  rewrite Hacc. cbn [guard bind fst snd]. reflexivity.
Qed.

Lemma restore_layout_lead (ps : list nat) (b n D : nat) (is_img_or_video : bool)
      (l : list T) :
  (is_img_or_video = true -> n = numel ps) ->
  restore_layout (channel_first self) is_img_or_video ps
                 {| shape := [b; n; D]; data := l |}
  = (let t := {| shape := (if is_img_or_video then b :: ps else [b; n]) ++ [D];
                 data := l |} in
     if channel_first self then channel_first_layout t else Ok t).
Proof.
  intros Hn. unfold restore_layout, unpack_one. cbn [shape data].
  destruct is_img_or_video; [| reflexivity].
  rewrite (Hn eq_refl), Nat.eqb_refl. reflexivity.
Qed.
End DecodeEncoded.

(** In inference mode, decoding the indices [forward] returns, with
    [indices_to_codes], gives the quantized tensor [forward] returns: with
    or without projections, fixed-scale or spherical, in every layout;
    for a module whose two code values are what the threshold produces and
    are told apart by it ([sign_coded]) and that has at most 31 bits per
    code. *)
Theorem forward_quantized_is_decoded_indices :
  forall (T : Type) (ops : ScalarOps T) (entropy : list T -> T)
         (maybe_distributed_mean : list (list T) -> list (list T))
         (a : LFQ_args T) (w : init_weights T) (self : LFQ T)
         (noise : nat -> T) (x : tensor T) (inv_temperature : T)
         (mask : option (tensor bool)) (ret : Return T) (bd : LossBreakdown T),
    LFQ_init ops a w = Ok self ->
    codebook_dim self <= 31 ->
    (has_projections self = false ->
     dim self = codebook_dim self * num_codebooks self) ->
    sign_coded ops self ->
    well_shaped x ->
    forward_with_breakdown ops entropy maybe_distributed_mean self false
                           noise x inv_temperature mask = Ok (ret, bd) ->
    indices_to_codes ops self (indices ret) true = Ok (quantized ret).
Proof.
  intros T ops entropy hook a w self noise x invT mask ret bd
         Hinit Hd Hdim SC Hw H.
  pose proof (LFQ_init_constructed T ops a w self Hinit) as C.
  destruct (forward_requires T ops entropy hook self false noise x invT mask
              ret bd H) as [Hrank Hfeat].
  apply forward_inv in H.
  destruct H as (xs & ps & b & n & feat & xq & idxs & ent & commit
                 & H1 & H2 & H3 & _ & _ & H6 & H7 & _).
  assert (0 < num_codebooks self) as Hc.
  { apply pre_quantize_inv in H2. destruct H2 as (D & _ & _ & _ & Hc & _).
    exact Hc. }
  destruct (projection_sizes T ops self C Hdim) as (_ & _ & Hacc & Hout).
  assert (keep_num_codebooks_dim self = false -> num_codebooks self = 1) as Hk
      by (eapply keep_flag_codebooks; eassumption).
  destruct (standardize_layout T self x Hrank Hw)
    as (xs0 & ps0 & b0 & n0 & Hstd & Hshape & Hws & _).
  destruct (layout_shapes T self x Hrank)
    as (xs' & ps' & b' & n' & Hstd' & Hshape' & Hn & Hpos & _).
  rewrite Hstd in Hstd'. injection Hstd' as <- <-.
  rewrite Hshape in Hshape'. injection Hshape' as <- <-.
  rewrite Hfeat in Hshape.
  rewrite Hstd in H1. injection H1 as <- <-.
  rewrite (core_pre_quantize T ops self C Hc Hdim xs0 b0 n0 Hshape) in H2.
  injection H2 as <- <- <- <-.
  destruct (core_indices T ops self C Hd Hc Hdim xs0 b0 n0 Hshape Hws)
    as (idxs' & Hidx & Hlen & Hall).
  rewrite Hidx in H3. injection H3 as ->.
  pose proof (core_slots T ops self C Hd Hc Hdim xs0 b0 n0 Hshape Hws) as Hslots.
  rewrite (restore_indices_layout T self x ps0 b0 n0 idxs Hk Hn Hpos) in H7.
  injection H7 as <-.
  set (lead := position_axes (channel_first self) (shape x)) in *.
  rewrite indices_to_codes_projected with (lead := lead);
    [| reflexivity | exact Hk | rewrite Nat.mul_comm; exact Hacc].
  cbv zeta. cbn [data].
  (* the groups of indices are the indices of the positions *)
  assert (chunks (numel lead) (num_codebooks self) (concat idxs) = idxs) as Hg.
  { unfold lead. rewrite (numel_position_axes T self x ps0 b0 n0 Hn Hpos), <- Hlen.
    apply chunks_concat. eapply Forall_impl; [| exact Hall].
    intros g [Hgl _]. exact Hgl. }
  rewrite Hg.
  (* the decoded codes are the quantized slots *)
  set (xq := map (pre_quantize_position ops self
                    (codebook_dim self * num_codebooks self)) (positions xs0)) in *.
  assert (map (fun g => concat (map (decode_index ops self) g)) idxs
          = map (fun tok => concat tok) (hard_quantized ops self xq)) as Hcodes.
  { unfold hard_quantized.
    rewrite (mapM_map_eq (mapM (index_of ops self))
               (fun g => concat (map (decode_index ops self) g))
               (fun tok => concat (map (maybe_l2norm ops self) tok))
               (map (map (map (quantize_at ops self))) xq) idxs);
      [rewrite !map_map; reflexivity | | exact Hidx].
    intros tok g Htok Hgm. f_equal.
    apply in_map_iff in Htok. destruct Htok as [tok0 [<- Htok0]].
    rewrite Forall_forall in Hslots.
    destruct (Hslots tok0 Htok0) as [_ Hs0]. rewrite Forall_forall in Hs0.
    apply (mapM_map_eq (index_of ops self) (decode_index ops self)
             (maybe_l2norm ops self) _ _); [| exact Hgm].
    intros q i Hq Hi.
    apply in_map_iff in Hq. destruct Hq as [s [<- Hs]].
    apply decode_of_encoded; try assumption.
    apply Hs0. exact Hs. }
  rewrite Hcodes, map_map.
  unfold restore_quantized in H6. unfold forward_value in H6.
  rewrite Hacc in H6. cbn [guard bind] in H6.
  change (restore_layout (channel_first self) (4 <=? length (shape x)) ps0
            {| shape := [b0; n0;
                         out_size (project_out self)
                                  (codebook_dim self * num_codebooks self)];
               data := concat
                         (map (fun tok => apply_module ops (project_out self)
                                                       (concat tok))
                              (hard_quantized ops self xq)) |}
          = Ok (quantized ret)) in H6.
  rewrite (restore_layout_lead T self ps0 b0 n0 _ _ _ Hn) in H6.
  cbv zeta in H6. rewrite Hpos in H6. fold lead in H6.
  rewrite (Nat.mul_comm (num_codebooks self)). exact H6.
Qed.

(** The premise on the code values holds in exact arithmetic for every
    positive [codebook_scale]. *)
Lemma R_sign_coded (self : LFQ R) :
  (0 < codebook_scale self)%R -> sign_coded ExactR.ops self.
Proof.
  intros Hs. constructor; unfold bits_to_codes_at, codebook_value; cbn.
  - lra.
  - lra.
  - destruct (Rlt_dec 0 (1 * codebook_scale self)); [reflexivity | lra].
  - destruct (Rlt_dec 0 (- (1 * codebook_scale self))); [lra | reflexivity].
Qed.

Lemma forward_quantized_is_decoded_indices_witness :
  exists self ret bd,
    LFQ_init ops32 args16_32_channel_first (zero_init ops32) = Ok self
    /\ forward_with_breakdown ops32 entropy0 no_reduction self false noise0
                              x_image (Binary32.of_Z 100) None = Ok (ret, bd)
    /\ indices_to_codes ops32 self (indices ret) true = Ok (quantized ret).
Proof.
  evar (self : LFQ spec_float).
  assert (LFQ_init ops32 args16_32_channel_first (zero_init ops32) = Ok self)
    as Hself by (vm_compute; unfold self; reflexivity).
  evar (ret : Return spec_float). evar (bd : LossBreakdown spec_float).
  assert (forward_with_breakdown ops32 entropy0 no_reduction self false noise0
                                 x_image (Binary32.of_Z 100) None = Ok (ret, bd))
    as Hfwd by (vm_compute; unfold ret, bd; reflexivity).
  exists self, ret, bd. split; [exact Hself |]. split; [exact Hfwd |].
  apply (forward_quantized_is_decoded_indices spec_float ops32 entropy0
           no_reduction args16_32_channel_first (zero_init ops32) self noise0
           x_image (Binary32.of_Z 100) None ret bd Hself).
  - vm_compute. lia.
  - intros _. reflexivity.
  - constructor; vm_compute; reflexivity.
  - reflexivity.
  - exact Hfwd.
Defined.

(** ** The indices spell the signs *)

Section ChannelLast.
Variable T : Type.
Variable self : LFQ T.

(** Without the channel-first flag, standardizing keeps the data in place:
    the positions of the standardized input are those of the input. *)
Lemma standardize_channel_last (x : tensor T) :
  channel_first self = false ->
  3 <= length (shape x) ->
  exists xs ps b n,
    standardize self (4 <=? length (shape x)) x = Ok (xs, ps)
    /\ shape xs = [b; n; last (shape x) 0]
    /\ data xs = data x
    /\ numel [b; n] = numel (removelast (shape x)).
Proof.
  intros Hcf Hrank. unfold standardize. rewrite Hcf. cbn [bind].
  destruct x as [shp dat]. cbn [shape data] in *.
  destruct shp as [| b [| s1 [| s2 rest]]]; cbn [length] in Hrank; try lia.
  destruct rest as [| s3 rest].
  - cbn [length Nat.leb]. eexists. exists [], b, s1.
    split; [reflexivity |]. split; [reflexivity |]. split; reflexivity.
  - cbn [length Nat.leb]. unfold pack_one. cbn [shape data].
    set (sp := s1 :: s2 :: s3 :: rest).
    eexists. exists (removelast sp), b, (numel (removelast sp)).
    split; [reflexivity |]. split; [reflexivity |]. split; [reflexivity |].
    change (removelast (b :: sp)) with (b :: removelast sp).
    change (numel (b :: removelast sp)) with (b * numel (removelast sp)).
    cbn. lia.
Qed.
End ChannelLast.

(** For a module that quantizes its input directly (no projection, no soft
    clamp, not spherical, channel-last) with at most 31 bits per code, whose
    two code values are what the threshold produces and are told apart by
    it ([sign_coded]: so for a positive [codebook_scale]; a negative one
    gives the complement): the index [forward] returns for a codebook slot
    of a position is the binary number, most significant bit first, of the
    signs of the slot's features, bit 1 where the feature is greater than
    zero. *)
Theorem forward_indices_spell_signs :
  forall (T : Type) (ops : ScalarOps T) (entropy : list T -> T)
         (maybe_distributed_mean : list (list T) -> list (list T))
         (a : LFQ_args T) (w : init_weights T) (self : LFQ T)
         (training : bool) (noise : nat -> T) (x : tensor T)
         (inv_temperature : T) (mask : option (tensor bool))
         (ret : Return T) (bd : LossBreakdown T),
    LFQ_init ops a w = Ok self ->
    codebook_dim self <= 31 ->
    has_projections self = false ->
    dim self = codebook_dim self * num_codebooks self ->
    soft_clamp_input_value self = None ->
    spherical self = false ->
    channel_first self = false ->
    sign_coded ops self ->
    well_shaped x ->
    forward_with_breakdown ops entropy maybe_distributed_mean self training
                           noise x inv_temperature mask = Ok (ret, bd) ->
    data (indices ret)
    = concat (map (fun position =>
                     map (fun slot => binary_value (sign_pattern ops slot))
                         (chunks (num_codebooks self) (codebook_dim self)
                                 position))
                  (positions x)).
Proof.
  intros T ops entropy hook a w self training noise x invT mask ret bd
         Hinit Hd Hproj Hdim Hclamp Hsph Hcf SC Hw H.
  pose proof (LFQ_init_constructed T ops a w self Hinit) as C.
  destruct (forward_requires T ops entropy hook self training noise x invT mask
              ret bd H) as [Hrank Hfeat].
  unfold feature_axis in Hfeat. rewrite Hcf in Hfeat.
  apply forward_inv in H.
  destruct H as (xs & ps & b & n & feat & xq & idxs & ent & commit
                 & H1 & H2 & H3 & _ & _ & _ & H7 & _).
  assert (0 < num_codebooks self) as Hc.
  { apply pre_quantize_inv in H2. destruct H2 as (D & _ & _ & _ & Hc & _).
    exact Hc. }
  pose proof (constructed_plain ops self C Hproj Hdim Hc Hclamp Hsph) as P.
  destruct (standardize_channel_last T self x Hcf Hrank)
    as (xs0 & ps0 & b0 & n0 & Hstd & Hshape & Hdata & Hnum).
  rewrite Hstd in H1. injection H1 as <- <-.
  rewrite Hfeat in Hshape.
  assert (well_shaped xs0) as Hws.
  { unfold well_shaped in *. rewrite Hdata, Hw, Hshape.
    assert (shape x <> []) as Hne by (destruct (shape x); [cbn in Hrank; lia | discriminate]).
    rewrite (numel_removelast_last (shape x) Hne), <- Hnum, Hfeat. cbn. lia. }
  rewrite (plain_pre_quantize T ops self xs0 b0 n0 P Hshape) in H2.
  injection H2 as <- <- <- <-.
  pose proof (plain_tokens T self xs0 b0 n0 P Hshape Hws) as Htok.
  rewrite Forall_forall in Htok.
  rewrite (mapM_ok _ (map (fun slot => binary_value (sign_pattern ops slot)))) in H3.
  - injection H3 as <-.
    assert (data (indices ret) = concat
              (map (map (fun slot => binary_value (sign_pattern ops slot)))
                   (map (map (map (quantize_at ops self)))
                        (map (chunks (num_codebooks self) (codebook_dim self))
                             (chunks (numel [b0; n0]) (dim self) (data xs0))))))
      as Hret.
    { unfold restore_indices in H7.
      destruct (4 <=? length (shape x)).
      - unfold unpack_one in H7. cbn [shape data bind] in H7.
        destruct (n0 =? numel ps0); cbn [bind] in H7; [| discriminate H7].
        destruct (keep_num_codebooks_dim self).
        + injection H7 as <-. reflexivity.
        + cbn [shape data] in H7.
          destruct (last (b0 :: ps0 ++ [num_codebooks self]) 0 =? 1);
            [| discriminate H7].
          injection H7 as <-. reflexivity.
      - cbn [shape data bind] in H7.
        destruct (keep_num_codebooks_dim self).
        + injection H7 as <-. reflexivity.
        + destruct (last [b0; n0; num_codebooks self] 0 =? 1);
            [| discriminate H7].
          injection H7 as <-. reflexivity. }
    rewrite Hret. unfold positions.
    rewrite <- Hnum, Hfeat, Hdata. f_equal.
    rewrite !map_map. apply map_ext. intros v.
    rewrite map_map. apply map_ext. intros slot.
    rewrite (sign_pattern_quantized T ops self SC). reflexivity.
  - intros tok Hin.
    apply in_map_iff in Hin. destruct Hin as [tok1 [<- Hin1]].
    apply in_map_iff in Hin1. destruct Hin1 as [v [<- Hv]].
    apply mapM_ok. intros q Hq.
    apply (index_of_binary_value T ops self C Hd).
    apply in_map_iff in Hq. destruct Hq as [s [<- Hs]].
    rewrite length_map.
    pose proof (Forall_chunks_lengths (num_codebooks self) (codebook_dim self)
                  v (Htok v Hv)) as Hl.
    rewrite Forall_forall in Hl. apply Hl. exact Hs.
Qed.

Lemma forward_indices_spell_signs_witness :
  exists self ret bd,
    LFQ_init ops32 args16_32 (zero_init ops32) = Ok self
    /\ forward_with_breakdown ops32 entropy0 no_reduction self true noise0
                              x_2x10x4 (Binary32.of_Z 100) None = Ok (ret, bd)
    /\ data (indices ret)
       = concat (map (fun position =>
                        map (fun slot => binary_value (sign_pattern ops32 slot))
                            (chunks 1 4 position))
                     (positions x_2x10x4)).
Proof.
  evar (self : LFQ spec_float).
  assert (LFQ_init ops32 args16_32 (zero_init ops32) = Ok self) as Hself
      by (vm_compute; unfold self; reflexivity).
  evar (ret : Return spec_float). evar (bd : LossBreakdown spec_float).
  assert (forward_with_breakdown ops32 entropy0 no_reduction self true noise0
                                 x_2x10x4 (Binary32.of_Z 100) None = Ok (ret, bd))
    as Hfwd by (vm_compute; unfold ret, bd; reflexivity).
  exists self, ret, bd. split; [exact Hself |]. split; [exact Hfwd |].
  apply (forward_indices_spell_signs spec_float ops32 entropy0 no_reduction
           args16_32 (zero_init ops32) self true noise0 x_2x10x4
           (Binary32.of_Z 100) None ret bd Hself).
  - vm_compute. lia.
  - reflexivity.
  - reflexivity.
  - reflexivity.
  - reflexivity.
  - reflexivity.
  - constructor; vm_compute; reflexivity.
  - reflexivity.
  - exact Hfwd.
Defined.

(** ** Indices outside the codebook *)

(** [.int()] keeps the 32 low bits. *)
Lemma testbit_int32 (i k : Z) :
  (0 <= k < 32)%Z -> Z.testbit (int32 i) k = Z.testbit i k.
Proof.
  intros Hk. unfold int32, wrap_signed.
  replace (32 - 1)%Z with 31%Z by lia.
  rewrite <- (Z.mod_pow2_bits_low (_ - _) 32 k) by lia.
  rewrite <- (Z.mod_pow2_bits_low i 32 k) by lia.
  f_equal.
  rewrite Zminus_mod_idemp_l.
  replace (i + 2 ^ 31 - 2 ^ 31)%Z with i by lia. reflexivity.
Qed.

Lemma index_bits_mod {T} (ops : ScalarOps T) (d : nat) (i : Z) :
  d <= 31 ->
  index_bits ops (make_mask d) (i mod 2 ^ Z.of_nat d)
  = index_bits ops (make_mask d) i.
Proof.
  intros Hd. unfold index_bits. rewrite make_mask_small by lia.
  rewrite !map_map. apply map_ext_in. intros k Hk.
  apply in_rev, in_seq in Hk.
  rewrite !land_pow2_testbit by lia.
  rewrite !testbit_int32 by lia.
  rewrite Z.mod_pow2_bits_low by lia. reflexivity.
Qed.

(** [indices_to_codes] reads the [codebook_dim] low bits of an index and
    nothing else: an index outside [0, codebook_size), negative ones
    included, is decoded as its residue modulo [codebook_size], without an
    error. *)
Theorem indices_to_codes_wraps_indices :
  forall (T : Type) (ops : ScalarOps T) (a : LFQ_args T) (w : init_weights T)
         (self : LFQ T) (idx : tensor Z) (project_out_flag : bool),
    LFQ_init ops a w = Ok self ->
    codebook_dim self <= 31 ->
    indices_to_codes ops self idx project_out_flag
    = indices_to_codes ops self
        {| shape := shape idx;
           data := map (fun i => (i mod codebook_size self)%Z) (data idx) |}
        project_out_flag.
Proof.
  intros T ops a w self idx po Hinit Hd.
  pose proof (LFQ_init_constructed T ops a w self Hinit) as C.
  assert (forall k c,
             map (fun g => concat
                             (map (fun i => maybe_l2norm ops self
                                              (bits_to_codes ops self
                                                 (index_bits ops (mask self) i)))
                                  g))
                 (chunks k c (map (fun i => (i mod codebook_size self)%Z)
                                  (data idx)))
             = map (fun g => concat
                               (map (fun i => maybe_l2norm ops self
                                                (bits_to_codes ops self
                                                   (index_bits ops (mask self) i)))
                                    g))
                   (chunks k c (data idx))) as E.
  { intros k c. rewrite chunks_map, map_map. apply map_ext. intros g.
    rewrite map_map. f_equal. apply map_ext. intros i.
    rewrite (c_mask C), (c_size C), index_bits_mod by exact Hd. reflexivity. }
  unfold indices_to_codes. cbn [shape data]. rewrite E. reflexivity.
Qed.

Lemma indices_to_codes_wraps_indices_witness :
  exists self,
    LFQ_init ops32 args16_32 (zero_init ops32) = Ok self
    /\ indices_to_codes ops32 self
         {| shape := [1; 2]; data := [21%Z; (-1)%Z] |} true
       = indices_to_codes ops32 self
           {| shape := [1; 2]; data := [5%Z; 15%Z] |} true.
Proof.
  evar (self : LFQ spec_float).
  assert (LFQ_init ops32 args16_32 (zero_init ops32) = Ok self) as Hself
      by (vm_compute; unfold self; reflexivity).
  exists self. split; [exact Hself |].
  exact (indices_to_codes_wraps_indices spec_float ops32 args16_32
           (zero_init ops32) self
           {| shape := [1; 2]; data := [21%Z; (-1)%Z] |} true Hself
           ltac:(vm_compute; lia)).
Defined.

(** ** Quantizing twice *)

(** The first lines of [forward] move the elements without looking at
    them. *)
Lemma standardize_map {T} (self : LFQ T) (F : T -> T) (x : tensor T)
      (is_img_or_video : bool) :
  standardize self is_img_or_video {| shape := shape x; data := map F (data x) |}
  = match standardize self is_img_or_video x with
    | Ok (xs, ps) => Ok ({| shape := shape xs; data := map F (data xs) |}, ps)
    | Err e => Err e
    end.
Proof.
  unfold standardize, channel_last, pack_one. cbn [shape data].
  destruct (channel_first self).
  - destruct (shape x) as [| b [| d rest]]; cbn [bind]; try reflexivity.
    rewrite chunks_map, map_map.
    rewrite (map_ext _ (fun blk => map F (transpose2 d (numel rest) blk)))
      by (intros blk; apply transpose2_map).
    rewrite <- map_map with (g := map F), <- concat_map.
    destruct is_img_or_video; cbn [shape data]; [| reflexivity].
    destruct (rest ++ [d]); reflexivity.
  - cbn [bind]. destruct is_img_or_video; [| reflexivity].
    destruct (shape x) as [| b [| d rest]]; reflexivity.
Qed.

Lemma quantize_at_idempotent {T} (ops : ScalarOps T) (self : LFQ T) (v : T) :
  sign_coded ops self ->
  quantize_at ops self (quantize_at ops self v) = quantize_at ops self v.
Proof.
  intros SC. unfold quantize_at at 2 3.
  destruct (gt ops v (zero ops)); unfold quantize_at.
  - rewrite (sc_pos SC). reflexivity.
  - rewrite (sc_neg SC). reflexivity.
Qed.

(** For a module that quantizes its input directly (no projection, no soft
    clamp, not spherical), whose two code values are what the threshold
    produces and are told apart by it ([sign_coded]: so for a positive
    [codebook_scale]; a negative one swaps the two values at every call), in
    inference mode: feeding the quantized tensor [forward] returns back to
    [forward] returns the same result, quantized tensor and indices; in
    every layout. *)
Theorem forward_idempotent :
  forall (T : Type) (ops : ScalarOps T) (entropy : list T -> T)
         (maybe_distributed_mean : list (list T) -> list (list T))
         (a : LFQ_args T) (w : init_weights T) (self : LFQ T)
         (noise : nat -> T) (x : tensor T) (inv_temperature : T)
         (mask : option (tensor bool)) (ret : Return T) (bd : LossBreakdown T),
    LFQ_init ops a w = Ok self ->
    has_projections self = false ->
    dim self = codebook_dim self * num_codebooks self ->
    soft_clamp_input_value self = None ->
    spherical self = false ->
    sign_coded ops self ->
    well_shaped x ->
    forward_with_breakdown ops entropy maybe_distributed_mean self false
                           noise x inv_temperature mask = Ok (ret, bd) ->
    forall noise' inv_temperature' mask',
      forward_with_breakdown ops entropy maybe_distributed_mean self false
                             noise' (quantized ret) inv_temperature' mask'
      = Ok (ret, bd).
Proof.
  intros T ops entropy hook a w self noise x invT mask ret bd
         Hinit Hproj Hdim Hclamp Hsph SC Hw H noise' invT' mask'.
  pose proof (LFQ_init_constructed T ops a w self Hinit) as C.
  destruct (forward_requires T ops entropy hook self false noise x invT mask
              ret bd H) as [Hrank Hfeat].
  destruct (forward_inference_losses T ops entropy hook self noise x invT mask
              ret bd H) as [Hloss Hbd].
  destruct (standardize_layout T self x Hrank Hw)
    as (xs & ps & b & n & Hstd & Hshape & Hws & Hps & Hlayout).
  rewrite Hfeat in Hshape, Hlayout.
  pose proof H as H0. apply forward_inv in H0.
  destruct H0 as (xs' & ps' & b' & n' & feat & xq & idxs & ent & commit
                  & H1 & H2 & H3 & _ & _ & H6 & H7 & _).
  assert (0 < num_codebooks self) as Hc.
  { apply pre_quantize_inv in H2. destruct H2 as (D & _ & _ & _ & Hc & _).
    exact Hc. }
  pose proof (constructed_plain ops self C Hproj Hdim Hc Hclamp Hsph) as P.
  rewrite Hstd in H1. injection H1 as <- <-.
  rewrite (plain_pre_quantize T ops self xs b n P Hshape) in H2.
  injection H2 as <- <- <- <-.
  pose proof (forward_plain_quantized T ops entropy hook self xs b n P Hshape Hws
                x ps Hstd Hlayout false noise invT mask ret bd H) as Hq.
  cbn beta iota in Hq.
  set (x' := {| shape := shape x;
                data := map (quantize_at ops self) (data x) |}) in *.
  set (xs' := {| shape := shape xs;
                 data := map (quantize_at ops self) (data xs) |}).
  assert (standardize self (4 <=? length (shape x')) x' = Ok (xs', ps)) as Hstd'.
  { unfold x'. cbn [shape]. rewrite standardize_map, Hstd. reflexivity. }
  assert (shape xs' = [b; n; dim self]) as Hshape' by exact Hshape.
  assert (well_shaped xs') as Hws'.
  { unfold well_shaped, xs'. cbn [shape data]. rewrite length_map. exact Hws. }
  assert (forall F : T -> T,
             restore_layout (channel_first self) (4 <=? length (shape x')) ps
                            {| shape := [b; n; dim self];
                               data := map F (data xs') |}
             = Ok {| shape := shape x'; data := map F (data x') |}) as Hlayout'.
  { intros F. unfold x', xs'. cbn [shape data]. rewrite !map_map.
    apply (Hlayout (fun v => F (quantize_at ops self v))). }
  rewrite Hq.
  rewrite (forward_eval T ops entropy hook self noise' x' invT' mask' xs' ps
             b n (dim self)
             (map (chunks (num_codebooks self) (codebook_dim self))
                  (chunks (numel [b; n]) (dim self) (data xs')))
             idxs x' (indices ret)).
  - destruct ret as [rq ri rl]. cbn [quantized indices entropy_aux_loss] in *.
    rewrite Hbd, Hloss, Hq. reflexivity.
  - exact Hstd'.
  - exact (plain_pre_quantize T ops self xs' b n P Hshape').
  - rewrite <- H3. f_equal. unfold xs'. cbn [data].
    rewrite chunks_map, !map_map. apply map_ext. intros tok.
    rewrite chunks_map, !map_map. apply map_ext. intros slot.
    rewrite map_map. apply map_ext. intros v.
    apply quantize_at_idempotent. exact SC.
  - rewrite (plain_hard_quantized T ops self P).
    rewrite (plain_restore T ops self xs' b n P Hshape' Hws' x' ps Hlayout').
    unfold x'. cbn [shape data]. rewrite map_map. f_equal. f_equal.
    apply map_ext. intros v. apply quantize_at_idempotent. exact SC.
  - exact H7.
Qed.

Lemma forward_idempotent_witness :
  exists self ret bd,
    LFQ_init ops32 args16_32_channel_first (zero_init ops32) = Ok self
    /\ forward_with_breakdown ops32 entropy0 no_reduction self false noise0
                              x_image (Binary32.of_Z 100) None = Ok (ret, bd)
    /\ data (quantized ret) <> data x_image
    /\ forward_with_breakdown ops32 entropy0 no_reduction self false noise0
                              (quantized ret) (Binary32.of_Z 100) None
       = Ok (ret, bd).
Proof.
  evar (self : LFQ spec_float).
  assert (LFQ_init ops32 args16_32_channel_first (zero_init ops32) = Ok self)
    as Hself by (vm_compute; unfold self; reflexivity).
  evar (ret : Return spec_float). evar (bd : LossBreakdown spec_float).
  assert (forward_with_breakdown ops32 entropy0 no_reduction self false noise0
                                 x_image (Binary32.of_Z 100) None = Ok (ret, bd))
    as Hfwd by (vm_compute; unfold ret, bd; reflexivity).
  exists self, ret, bd. split; [exact Hself |]. split; [exact Hfwd |].
  split; [vm_compute; discriminate |].
  apply (forward_idempotent spec_float ops32 entropy0 no_reduction
           args16_32_channel_first (zero_init ops32) self noise0
           x_image (Binary32.of_Z 100) None ret bd Hself).
  - reflexivity.
  - reflexivity.
  - reflexivity.
  - reflexivity.
  - constructor; vm_compute; reflexivity.
  - reflexivity.
  - exact Hfwd.
Defined.

(** ** What the mask, the temperature and the random draw reach *)

(** The mask, the inverse temperature and the random draw of a call reach
    the losses only: two calls of [forward] on the same input that return
    give the same indices, whatever their modes, masks, temperatures and
    draws, and the same quantized tensor when their modes agree. *)
Theorem forward_outputs_ignore_loss_inputs :
  forall (T : Type) (ops : ScalarOps T) (entropy : list T -> T)
         (maybe_distributed_mean : list (list T) -> list (list T))
         (self : LFQ T) (x : tensor T)
         (training1 training2 : bool) (noise1 noise2 : nat -> T)
         (inv_temperature1 inv_temperature2 : T)
         (mask1 mask2 : option (tensor bool))
         (ret1 ret2 : Return T) (bd1 bd2 : LossBreakdown T),
    forward_with_breakdown ops entropy maybe_distributed_mean self training1
                           noise1 x inv_temperature1 mask1 = Ok (ret1, bd1) ->
    forward_with_breakdown ops entropy maybe_distributed_mean self training2
                           noise2 x inv_temperature2 mask2 = Ok (ret2, bd2) ->
    indices ret1 = indices ret2
    /\ (training1 = training2 -> quantized ret1 = quantized ret2).
Proof.
  intros T ops entropy hook self x t1 t2 noise1 noise2 invT1 invT2 m1 m2
         ret1 ret2 bd1 bd2 F1 F2.
  apply forward_inv in F1, F2.
  destruct F1 as (xs & ps & b & n & feat & xq & idxs & ent & commit
                  & A1 & A2 & A3 & _ & _ & A6 & A7 & _).
  destruct F2 as (xs' & ps' & b' & n' & feat' & xq' & idxs' & ent' & commit'
                  & B1 & B2 & B3 & _ & _ & B6 & B7 & _).
  rewrite A1 in B1. injection B1 as <- <-.
  rewrite A2 in B2. injection B2 as <- <- <- <-.
  rewrite A3 in B3. injection B3 as <-.
  rewrite A7 in B7. injection B7 as E7.
  split; [exact E7 |].
  intros <-. rewrite A6 in B6. injection B6 as E6. exact E6.
Qed.

Lemma forward_outputs_ignore_loss_inputs_witness :
  exists self ret1 bd1 ret2 bd2,
    LFQ_init ops32 args4_32 (zero_init ops32) = Ok self
    /\ forward_with_breakdown ops32 entropy0 no_reduction self true noise0
                              x_1x2x2 (Binary32.of_Z 100) (Some mask_first)
       = Ok (ret1, bd1)
    /\ forward_with_breakdown ops32 entropy0 no_reduction self false noise0
                              x_1x2x2 (Binary32.of_Z 1) None
       = Ok (ret2, bd2)
    /\ indices ret1 = indices ret2.
Proof.
  evar (self : LFQ spec_float).
  assert (LFQ_init ops32 args4_32 (zero_init ops32) = Ok self) as Hself
      by (vm_compute; unfold self; reflexivity).
  evar (ret1 : Return spec_float). evar (bd1 : LossBreakdown spec_float).
  assert (forward_with_breakdown ops32 entropy0 no_reduction self true noise0
                                 x_1x2x2 (Binary32.of_Z 100) (Some mask_first)
          = Ok (ret1, bd1))
    as H1 by (vm_compute; unfold ret1, bd1; reflexivity).
  evar (ret2 : Return spec_float). evar (bd2 : LossBreakdown spec_float).
  assert (forward_with_breakdown ops32 entropy0 no_reduction self false noise0
                                 x_1x2x2 (Binary32.of_Z 1) None
          = Ok (ret2, bd2))
    as H2 by (vm_compute; unfold ret2, bd2; reflexivity).
  exists self, ret1, bd1, ret2, bd2.
  split; [exact Hself |]. split; [exact H1 |]. split; [exact H2 |].
  exact (proj1 (forward_outputs_ignore_loss_inputs spec_float ops32 entropy0
                  no_reduction self x_1x2x2 true false noise0 noise0
                  (Binary32.of_Z 100) (Binary32.of_Z 1) (Some mask_first) None
                  ret1 ret2 bd1 bd2 H1 H2)).
Defined.

(** ** [l2norm] of a zero vector in float32 *)

Lemma b32_sum_squares_zero (t : list spec_float) (acc : spec_float) :
  Forall (fun v => Binary32.is_zero v = true) t ->
  acc = S754_zero false ->
  fold_left (SFadd Binary32.prec Binary32.emax)
            (map (fun v => SFmul Binary32.prec Binary32.emax v v) t) acc
  = S754_zero false.
Proof.
  intros H. revert acc. induction H as [| v t Hv _ IH]; intros acc ->.
  - reflexivity.
  - cbn [map fold_left]. apply IH.
    destruct v as [s | | |]; try discriminate Hv.
    destruct s; reflexivity.
Qed.

(** In float32, [l2norm] returns a vector of zeros (of either sign) as it
    is: the norm is clamped to [eps] before the division, so there is no
    0/0 and no NaN. *)
Theorem l2norm_zero_vector_float32 :
  forall (fexp ftanh fsoftplus : spec_float -> spec_float)
         (t : list spec_float),
    Forall (fun v => Binary32.is_zero v = true) t ->
    l2norm (Binary32.ops fexp ftanh fsoftplus) t = t.
Proof.
  intros fexp ftanh fsoftplus t H.
  unfold l2norm, clamp_min, sum.
  cbn [mul add zero sqrt gt normalize_eps div Binary32.ops].
  rewrite (b32_sum_squares_zero t Binary32.pzero H eq_refl).
  cbn [SFsqrt SFltb SFcompare Binary32.eps12].
  rewrite <- (map_id t) at 2.
  apply map_ext_in. intros v Hv.
  rewrite Forall_forall in H. specialize (H v Hv).
  destruct v as [s | | |]; try discriminate H.
  destruct s; reflexivity.
Qed.

Lemma l2norm_zero_vector_float32_witness :
  l2norm ops32 [S754_zero false; S754_zero true; S754_zero false]
  = [S754_zero false; S754_zero true; S754_zero false].
Proof.
  apply (l2norm_zero_vector_float32 _ _ _
           [S754_zero false; S754_zero true; S754_zero false]).
  repeat constructor.
Defined.

(** ** Training mode returns *)

Section TrainingReturns.
Variable T : Type.
Variable ops : ScalarOps T.
Variable entropy : list T -> T.
Variable maybe_distributed_mean : list (list T) -> list (list T).
Variable self : LFQ T.

Hypothesis C : constructed ops self.

Lemma length_codebook_rows (cw : list T) :
  In cw (codebook self) -> length cw = codebook_dim self.
Proof.
  rewrite (c_codebook C). intros H. apply in_map_iff in H.
  destruct H as [i [<- _]]. unfold index_bits. rewrite !length_map.
  rewrite (c_mask C). apply length_make_mask.
Qed.

Lemma apply_mask_fits {A} (mask : option (tensor bool)) (b n : nat) (l : list A) :
  match mask with
  | None => True
  | Some m => shape m = [b; n] /\ length (data m) = b * n
  end ->
  exists r, apply_mask mask b n l = Ok r.
Proof.
  destruct mask as [m |]; [| intros _; eexists; reflexivity].
  intros [Hs Hl]. unfold apply_mask. rewrite Hs, Hl, !Nat.eqb_refl.
  eexists. reflexivity.
Qed.

Lemma entropy_losses_returns (noise : nat -> T) (inv_temperature : T)
      (mask : option (tensor bool)) (b n : nat) (xq : list (list (list T))) :
  Binary64.ltb (frac_per_sample_entropy self) Binary64.fone = false ->
  Forall (Forall (fun s => length s = codebook_dim self)) xq ->
  match mask with
  | None => True
  | Some m => shape m = [b; n] /\ length (data m) = b * n
  end ->
  exists ent,
    entropy_losses ops entropy maybe_distributed_mean self noise
                   inv_temperature mask b n xq = Ok ent.
Proof.
  intros Hfrac Hslots Hmask. unfold entropy_losses.
  rewrite (mapM_ok _ (fun tok =>
             map (fun xi =>
                    softmax ops
                      (map (fun cw => mul ops (neg ops (mul ops (of_int ops (-2))
                                                            (dot ops xi cw)))
                                          inv_temperature)
                           (map (maybe_l2norm ops self) (codebook self))))
                 tok)).
  - cbn [bind].
    destruct (apply_mask_fits mask b n
                (map (fun tok =>
                        map (fun xi =>
                               softmax ops
                                 (map (fun cw =>
                                         mul ops (neg ops (mul ops (of_int ops (-2))
                                                               (dot ops xi cw)))
                                             inv_temperature)
                                      (map (maybe_l2norm ops self) (codebook self))))
                            tok) xq) Hmask) as [r ->].
    cbn [bind]. unfold per_sample_probs_of. rewrite Hfrac. cbn [bind].
    eexists. reflexivity.
  - intros tok Htok. apply soft_assignment_dot.
    intros xi cw Hxi Hcw. rewrite (length_codebook_rows cw Hcw).
    rewrite Forall_forall in Hslots. specialize (Hslots tok Htok).
    rewrite Forall_forall in Hslots. apply Hslots. exact Hxi.
Qed.
End TrainingReturns.

(** Training mode returns once the stages do. *)
Lemma forward_training_defined :
  forall (T : Type) (ops : ScalarOps T) (entropy : list T -> T)
         (maybe_distributed_mean : list (list T) -> list (list T))
         (self : LFQ T)
         (noise : nat -> T) (x : tensor T) (inv_temperature : T)
         (mask : option (tensor bool)),
    constructed ops self ->
    codebook_dim self <= 31 ->
    0 < num_codebooks self ->
    (has_projections self = false ->
     dim self = codebook_dim self * num_codebooks self) ->
    Binary64.ltb (frac_per_sample_entropy self) Binary64.fone = false ->
    well_shaped x ->
    3 <= length (shape x) ->
    feature_axis (channel_first self) (shape x) = dim self ->
    mask_fits (channel_first self) (shape x) mask ->
    exists ret bd,
      forward_with_breakdown ops entropy maybe_distributed_mean self true
                             noise x inv_temperature mask = Ok (ret, bd).
Proof.
  intros T ops entropy hook self noise x invT mask
         C Hd Hc Hdim Hfrac Hw Hrank Hfeat Hmask.
  destruct (projection_sizes T ops self C Hdim) as (_ & _ & Hacc & Hout).
  assert (keep_num_codebooks_dim self = false -> num_codebooks self = 1) as Hk
      by (eapply keep_flag_codebooks; eassumption).
  destruct (standardize_layout T self x Hrank Hw)
    as (xs & ps & b & n & Hstd & Hshape & Hws & _).
  destruct (layout_shapes T self x Hrank)
    as (xs' & ps' & b' & n' & Hstd' & Hshape' & Hn & Hpos & Hrl).
  rewrite Hstd in Hstd'. injection Hstd' as <- <-.
  rewrite Hshape in Hshape'. injection Hshape' as <- <-.
  rewrite Hfeat in Hshape, Hrl.
  pose proof (core_pre_quantize T ops self C Hc Hdim xs b n Hshape) as Hpre.
  destruct (core_indices T ops self C Hd Hc Hdim xs b n Hshape Hws)
    as (idxs & Hidx & _).
  pose proof (core_slots T ops self C Hd Hc Hdim xs b n Hshape Hws) as Hslots.
  set (xq := map (pre_quantize_position ops self
                    (codebook_dim self * num_codebooks self)) (positions xs)) in *.
  assert (match mask with
          | None => True
          | Some m => shape m = [b; n] /\ length (data m) = b * n
          end) as Hmask'.
  { destruct mask as [m |]; [| exact I]. unfold mask_fits in Hmask.
    cbv zeta in Hmask. rewrite <- Hpos in Hmask.
    assert (hd 0 (shape x) = b) as Hb.
    { pose proof Hpos as Hp. unfold position_axes in Hp.
      destruct (shape x) as [| b0 [| s1 rest]]; cbn [length] in Hrank; try lia.
      destruct (channel_first self).
      - destruct (4 <=? length (b0 :: s1 :: rest)); injection Hp as -> _;
          reflexivity.
      - destruct rest as [| s2 rest]; [cbn [length] in Hrank; lia |].
        cbn [removelast] in Hp.
        destruct (4 <=? length (b0 :: s1 :: s2 :: rest)); injection Hp as -> _;
          reflexivity. }
    assert (numel (tl (if 4 <=? length (shape x) then b :: ps else [b; n])) = n)
      as Hnn.
    { destruct (4 <=? length (shape x)); cbn [tl].
      - symmetry. apply Hn. reflexivity.
      - cbn. lia. }
    rewrite Hb, Hnn in Hmask. exact Hmask. }
  destruct (entropy_losses_returns T ops entropy hook self C noise invT mask b n xq
              Hfrac) as [ent Hent].
  { eapply Forall_impl; [| exact Hslots]. intros tok [_ Ht]. exact Ht. }
  { exact Hmask'. }
  assert (exists commit,
             (if true && gt ops (commitment_loss_weight self) (zero ops)
              then commit_loss_of ops mask b n xq
                                  (map (map (maybe_l2norm ops self))
                                       (map (map (map (quantize_at ops self))) xq))
              else Ok (zero_buffer self)) = Ok commit) as [commit Hcommit].
  { destruct (true && gt ops (commitment_loss_weight self) (zero ops))%bool;
      [| eexists; reflexivity].
    unfold commit_loss_of.
    destruct (apply_mask_fits mask b n
                (map2 (map2 (map2 (mse_at ops))) xq
                      (map (map (maybe_l2norm ops self))
                           (map (map (map (quantize_at ops self))) xq)))
                Hmask') as [r ->].
    cbn [bind]. eexists. reflexivity. }
  destruct (Hrl (concat
                   (map (fun tok => apply_module ops (project_out self) (concat tok))
                        (map2 (map2 (map2 (straight_through ops self))) xq
                              (map (map (maybe_l2norm ops self))
                                   (map (map (map (quantize_at ops self))) xq))))))
    as (xo & Hxo & _).
  unfold forward_with_breakdown.
  rewrite Hstd. cbn [bind fst snd]. rewrite Hpre. cbn [bind fst snd].
  fold xq. rewrite Hidx. cbn [bind fst snd].
  rewrite Hent. cbn [bind fst snd].
  rewrite Hcommit. cbn [bind fst snd].
  unfold restore_quantized. rewrite Hacc, Hout. cbn [guard bind].
  unfold restore_layout in Hxo. rewrite Hxo. cbn [bind].
  rewrite (restore_indices_layout T self x ps b n idxs Hk Hn Hpos). cbn [bind].
  eexists. eexists. reflexivity.
Qed.

(** For a constructed module with the default [frac_per_sample_entropy],
    a well-shaped input of rank three or more with [dim] features, in
    whatever layout, and no mask or a boolean mask of shape
    (batch, positions), [forward] returns in training mode. *)
Theorem forward_training_returns :
  forall (T : Type) (ops : ScalarOps T) (entropy : list T -> T)
         (maybe_distributed_mean : list (list T) -> list (list T))
         (a : LFQ_args T) (w : init_weights T) (self : LFQ T)
         (noise : nat -> T) (x : tensor T) (inv_temperature : T)
         (mask : option (tensor bool)),
    LFQ_init ops a w = Ok self ->
    codebook_dim self <= 31 ->
    0 < num_codebooks self ->
    (has_projections self = false ->
     dim self = codebook_dim self * num_codebooks self) ->
    Binary64.ltb (frac_per_sample_entropy self) Binary64.fone = false ->
    well_shaped x ->
    3 <= length (shape x) ->
    feature_axis (channel_first self) (shape x) = dim self ->
    mask_fits (channel_first self) (shape x) mask ->
    exists ret bd,
      forward_with_breakdown ops entropy maybe_distributed_mean self true
                             noise x inv_temperature mask = Ok (ret, bd).
Proof.
  intros T ops entropy hook a w self noise x invT mask
         Hinit Hd Hc Hdim Hfrac Hw Hrank Hfeat Hmask.
  pose proof (LFQ_init_constructed T ops a w self Hinit) as C.
  apply forward_training_defined; assumption.
Qed.

Lemma forward_training_returns_witness :
  exists self ret bd,
    LFQ_init ops32 args16_32_channel_first (zero_init ops32) = Ok self
    /\ forward_with_breakdown ops32 entropy0 no_reduction self true noise0
                              x_image (Binary32.of_Z 100)
                              (Some {| shape := [1; 4];
                                       data := [true; false; true; true] |})
       = Ok (ret, bd).
Proof.
  evar (self : LFQ spec_float).
  assert (LFQ_init ops32 args16_32_channel_first (zero_init ops32) = Ok self)
    as Hself by (vm_compute; unfold self; reflexivity).
  destruct (forward_training_returns spec_float ops32 entropy0 no_reduction
              args16_32_channel_first (zero_init ops32) self noise0 x_image
              (Binary32.of_Z 100)
              (Some {| shape := [1; 4]; data := [true; false; true; true] |})
              Hself ltac:(vm_compute; lia) ltac:(vm_compute; lia)
              ltac:(intros _; reflexivity) eq_refl eq_refl
              ltac:(cbn; lia) eq_refl ltac:(split; reflexivity))
    as (ret & bd & H).
  exists self, ret, bd. split; [exact Hself | exact H].
Defined.

(** ** A mask that keeps no position *)

Lemma select_none {A} (m : list bool) (l : list A) :
  Forall (fun keep => keep = false) m -> select m l = [].
Proof.
  intros H. revert l. induction H as [| k m Hk _ IH]; intros l.
  - destruct l; reflexivity.
  - destruct l as [| a l]; [reflexivity |]. subst k. cbn. apply IH.
Qed.

Section EmptySelection.
Variables fexp ftanh fsoftplus : spec_float -> spec_float.
Local Abbreviation ops := (Binary32.ops fexp ftanh fsoftplus).

Variable entropy : list spec_float -> spec_float.
Variable maybe_distributed_mean :
  list (list spec_float) -> list (list spec_float).
Variable self : LFQ spec_float.

Lemma per_sample_probs_of_nil (noise : nat -> spec_float)
      (sampled : list (list (list spec_float))) :
  per_sample_probs_of ops self noise [] = Ok sampled -> sampled = [].
Proof.
  unfold per_sample_probs_of.
  destruct (Binary64.ltb (frac_per_sample_entropy self) Binary64.fone).
  - destruct (num_sampled_tokens self (length (@nil (list (list spec_float)))))
      as [k |]; cbn [bind]; [| discriminate].
    intros H. injection H as <-. reflexivity.
  - intros H. injection H as <-. reflexivity.
Qed.
End EmptySelection.

(** In float32 and training mode, with a mask that keeps no position the
    losses are means over no element: the per-sample entropy is NaN, and so
    is the commitment loss when its weight is greater than zero. *)
Theorem all_masked_losses_are_nan :
  forall (fexp ftanh fsoftplus : spec_float -> spec_float)
         (entropy : list spec_float -> spec_float)
         (maybe_distributed_mean :
            list (list spec_float) -> list (list spec_float))
         (self : LFQ spec_float) (noise : nat -> spec_float)
         (x : tensor spec_float) (inv_temperature : spec_float)
         (m : tensor bool) (ret : Return spec_float)
         (bd : LossBreakdown spec_float),
    Forall (fun keep => keep = false) (data m) ->
    forward_with_breakdown (Binary32.ops fexp ftanh fsoftplus) entropy
                           maybe_distributed_mean self true noise x
                           inv_temperature (Some m) = Ok (ret, bd) ->
    per_sample_entropy bd = S754_nan
    /\ (gt (Binary32.ops fexp ftanh fsoftplus)
           (commitment_loss_weight self) Binary32.pzero = true ->
        commitment bd = S754_nan).
Proof.
  intros fexp ftanh fsoftplus entropy hook self noise x invT m ret bd Hm H.
  apply forward_inv in H.
  destruct H as (xs & ps & b & n & feat & xq & idxs & ent & commit
                 & _ & _ & _ & H4 & H5 & _ & _ & _ & H9).
  rewrite H9. cbn [per_sample_entropy commitment]. split.
  - apply entropy_losses_inv in H4.
    destruct H4 as (prob0 & prob & sampled & _ & Hmask & Hsampled & ->).
    apply apply_mask_Some_inv in Hmask.
    rewrite (select_none (data m) prob0 Hm) in Hmask. subst prob.
    apply per_sample_probs_of_nil in Hsampled. subst sampled.
    reflexivity.
  - intros Hw. cbn [andb] in H5.
    change (zero (Binary32.ops fexp ftanh fsoftplus)) with Binary32.pzero in H5.
    rewrite Hw in H5.
    apply commit_loss_positions in H5.
    rewrite (select_none (data m) xq Hm) in H5. subst commit. reflexivity.
Qed.

Lemma all_masked_losses_are_nan_witness :
  exists self ret bd,
    LFQ_init ops32 args4_32 (zero_init ops32) = Ok self
    /\ forward_with_breakdown ops32 entropy0 no_reduction self true noise0
                              x_1x2x2 (Binary32.of_Z 100)
                              (Some {| shape := [1; 2]; data := [false; false] |})
       = Ok (ret, bd)
    /\ per_sample_entropy bd = S754_nan
    /\ commitment bd = S754_nan.
Proof.
  evar (self : LFQ spec_float).
  assert (LFQ_init ops32 args4_32 (zero_init ops32) = Ok self) as Hself
      by (vm_compute; unfold self; reflexivity).
  evar (ret : Return spec_float). evar (bd : LossBreakdown spec_float).
  assert (forward_with_breakdown ops32 entropy0 no_reduction self true noise0
                                 x_1x2x2 (Binary32.of_Z 100)
                                 (Some {| shape := [1; 2]; data := [false; false] |})
          = Ok (ret, bd))
    as Hfwd by (vm_compute; unfold ret, bd; reflexivity).
  exists self, ret, bd. split; [exact Hself |]. split; [exact Hfwd |].
  destruct (all_masked_losses_are_nan _ _ _ entropy0 no_reduction self noise0
              x_1x2x2 (Binary32.of_Z 100)
              {| shape := [1; 2]; data := [false; false] |} ret bd
              ltac:(repeat constructor) Hfwd) as [H1 H2].
  split; [exact H1 |]. apply H2. vm_compute. reflexivity.
Defined.

(** ** The soft assignment and the code *)

Lemma nth_map_lt {A B} (f : A -> B) (l : list A) (j : nat) (d : B) (d' : A) :
  j < length l -> nth j (map f l) d = f (nth j l d').
Proof.
  intros Hj. rewrite (nth_indep _ d (f d')) by (rewrite length_map; exact Hj).
  apply map_nth.
Qed.

Section ExactPeak.
Local Open Scope R_scope.
Local Abbreviation ops := ExactR.ops.

Lemma R_fold_plus_shift (l : list R) (a : R) :
  fold_left Rplus l a = a + fold_left Rplus l 0.
Proof.
  revert a. induction l as [| x l IH]; intros a; cbn; [lra |].
  rewrite (IH (a + x)), (IH (0 + x)). lra.
Qed.

Lemma R_sum_cons (x : R) (l : list R) :
  sum ops (x :: l) = x + sum ops l.
Proof. unfold sum. cbn. rewrite R_fold_plus_shift. lra. Qed.

Lemma R_sum_nonneg (l : list R) : Forall (fun v => 0 <= v) l -> 0 <= sum ops l.
Proof.
  induction 1 as [| x l Hx _ IH].
  - unfold sum. cbn. lra.
  - rewrite R_sum_cons. lra.
Qed.

Lemma R_dot_nil_l (y : list R) : dot ops [] y = 0.
Proof. reflexivity. Qed.

Lemma R_dot_nil_r (x : list R) : dot ops x [] = 0.
Proof. destruct x; reflexivity. Qed.

Lemma R_dot_cons (a b : R) (x y : list R) :
  dot ops (a :: x) (b :: y) = a * b + dot ops x y.
Proof. unfold dot. cbn [combine map fst snd]. apply R_sum_cons. Qed.

Lemma R_sum_exp_nonneg (l : list R) (m : R) :
  0 <= sum ops (map (fun z => Rtrigo_def.exp (z - m)) l).
Proof.
  apply R_sum_nonneg. apply Forall_map. apply Forall_forall. intros z _.
  apply Rlt_le, exp_pos.
Qed.

(** The softmax keeps the order of its arguments. *)
Lemma R_softmax_monotone (l : list R) (i j : nat) :
  nth j l 0 <= nth i l 0 -> (i < length l)%nat -> (j < length l)%nat ->
  nth j (softmax ops l) 0 <= nth i (softmax ops l) 0.
Proof.
  intros Hle Hi Hj. unfold softmax. cbn [exp sub div ops ExactR.ops].
  set (m := list_max ops l).
  set (s := sum ops (map (fun z => Rtrigo_def.exp (z - m)) l)).
  assert (0 <= / s) as Hs.
  { pose proof (R_sum_exp_nonneg l m) as H0. fold s in H0.
    destruct H0 as [H0 | <-]; [apply Rlt_le, Rinv_0_lt_compat; exact H0 |].
    rewrite Rinv_0. lra. }
  rewrite map_map.
  rewrite (nth_map_lt (fun z => Rtrigo_def.exp (z - m) / s) l j 0 0 Hj).
  rewrite (nth_map_lt (fun z => Rtrigo_def.exp (z - m) / s) l i 0 0 Hi).
  unfold Rdiv.
  apply Rmult_le_compat_r; [exact Hs |].
  destruct Hle as [Hlt | Heq].
  - apply Rlt_le, exp_increasing. lra.
  - rewrite Heq. lra.
Qed.

Variable self : LFQ R.
Hypothesis Hscale : 0 < codebook_scale self.

(** No codeword has a larger dot product with [x] than the codeword of the
    signs of [x]. *)
Lemma R_dot_codeword_le (x : list R) (pattern : list bool) :
  dot ops x (codeword_of_pattern ops self pattern)
  <= dot ops x (map (quantize_at ops self) x).
Proof.
  unfold codeword_of_pattern, bits_to_codes. rewrite map_map.
  revert pattern. induction x as [| a x IH]; intros pattern.
  - rewrite !R_dot_nil_l. lra.
  - destruct pattern as [| b pattern]; cbn [map].
    + rewrite R_dot_nil_r, R_dot_cons.
      specialize (IH []). cbn [map] in IH. rewrite R_dot_nil_r in IH.
      assert (0 <= a * quantize_at ops self a).
      { unfold quantize_at, codebook_value. cbn.
        destruct (Rlt_dec 0 a); nra. }
      lra.
    + rewrite !R_dot_cons. specialize (IH pattern).
      assert (a * bits_to_codes_at ops (codebook_scale self) (of_bool ops b)
              <= a * quantize_at ops self a).
      { rewrite R_bits_to_codes_at. unfold quantize_at, codebook_value. cbn.
        destruct (Rlt_dec 0 a), b; nra. }
      lra.
Qed.
End ExactPeak.

(** In exact arithmetic, for a module that is not spherical, with a
    positive [codebook_scale] and a temperature that is not negative: the
    soft assignment of the entropy loss gives no codeword a larger
    probability than the codeword [forward] selects, the one at the index
    the signs of the slot spell. *)
Theorem soft_assignment_peaks_at_code :
  forall (a : LFQ_args R) (w : init_weights R) (self : LFQ R)
         (inv_temperature : R) (x : list R),
    LFQ_init ExactR.ops a w = Ok self ->
    codebook_dim self <= 31 ->
    spherical self = false ->
    (0 < codebook_scale self)%R ->
    (0 <= inv_temperature)%R ->
    length x = codebook_dim self ->
    exists p,
      soft_assignment ExactR.ops self inv_temperature [x] = Ok [p]
      /\ length p = Z.to_nat (codebook_size self)
      /\ forall j,
          j < length p ->
          (nth j p 0 <= nth (Z.to_nat (binary_value (sign_pattern ExactR.ops x)))
                            p 0)%R.
Proof.
  intros a w self invT x Hinit Hd Hsph Hscale HinvT Hx.
  pose proof (LFQ_init_constructed R ExactR.ops a w self Hinit) as C.
  pose proof (R_sign_coded self Hscale) as SC.
  pose proof (codebook_rows ExactR.ops self C Hd) as Hrows.
  destruct (bits_of_binary_value (sign_pattern ExactR.ops x)) as [Hb Hr].
  rewrite (length_sign_pattern R ExactR.ops) in Hb, Hr. rewrite Hx in Hb, Hr.
  set (i := Z.to_nat (binary_value (sign_pattern ExactR.ops x))) in *.
  assert (length (codebook self) = Z.to_nat (codebook_size self)) as Hlen.
  { rewrite Hrows. unfold arange. rewrite !length_map, length_seq. reflexivity. }
  assert (i < length (codebook self)) as Hi.
  { rewrite Hlen, (c_size C). unfold i. lia. }
  exists (softmax ExactR.ops
            (map (fun cw => (2 * dot ExactR.ops x cw * invT)%R)
                 (map (maybe_l2norm ExactR.ops self) (codebook self)))).
  split.
  - rewrite soft_assignment_exact; [reflexivity |].
    intros xi cw [<- | []] Hcw.
    rewrite Hx. symmetry.
    apply (length_codebook_rows R ExactR.ops self C). exact Hcw.
  - assert (map (maybe_l2norm ExactR.ops self) (codebook self) = codebook self)
      as Hid.
    { unfold maybe_l2norm. rewrite Hsph. apply map_id. }
    rewrite Hid.
    set (z := fun cw => (2 * dot ExactR.ops x cw * invT)%R).
    split; [unfold softmax; rewrite !length_map; exact Hlen |].
    intros j Hj.
    assert (length (softmax ExactR.ops (map z (codebook self)))
            = length (codebook self)) as Hlp
        by (unfold softmax; rewrite !length_map; reflexivity).
    rewrite Hlp in Hj.
    apply R_softmax_monotone; rewrite ?length_map; try assumption.
    rewrite (nth_map_lt z (codebook self) j 0%R [] Hj).
    rewrite (nth_map_lt z (codebook self) i 0%R [] Hi).
    assert (nth i (codebook self) []
            = map (quantize_at ExactR.ops self) x) as Hrow.
    { apply nth_error_nth.
      rewrite Hrows, nth_error_map. unfold i.
      rewrite nth_error_arange by (rewrite (c_size C); exact Hr).
      cbn [option_map]. rewrite Hb.
      f_equal. apply (codeword_of_sign_pattern R ExactR.ops self SC). }
    assert (exists pattern,
               nth j (codebook self) []
               = codeword_of_pattern ExactR.ops self pattern) as [pattern Hpat].
    { rewrite Hrows in Hj |- *. rewrite length_map in Hj.
      rewrite (nth_map_lt _ _ j [] 0%Z Hj). eexists. reflexivity. }
    rewrite Hrow, Hpat. unfold z.
    pose proof (R_dot_codeword_le self Hscale x pattern) as Hdot.
    nra.
Qed.

Lemma soft_assignment_peaks_at_code_witness :
  exists self p,
    LFQ_init ExactR.ops args16R (zero_init ExactR.ops) = Ok self
    /\ soft_assignment ExactR.ops self 100%R [[1; -2; 3; -4]%R] = Ok [p]
    /\ length p = 16
    /\ forall j, j < length p ->
                 (nth j p 0 <= nth (Z.to_nat
                                      (binary_value
                                         (sign_pattern ExactR.ops [1; -2; 3; -4]%R)))
                                   p 0)%R.
Proof.
  eexists.
  match goal with
  | |- exists p, LFQ_init ?o ?a ?w = Ok ?s /\ _ =>
      assert (LFQ_init o a w = Ok s) as Hself by reflexivity
  end.
  match type of Hself with
  | _ = Ok ?s =>
      destruct (soft_assignment_peaks_at_code args16R (zero_init ExactR.ops) s
                  100%R [1; -2; 3; -4]%R Hself ltac:(cbn; lia) eq_refl
                  ltac:(cbn; lra) ltac:(lra) eq_refl)
        as (p & Hp & Hlen & Hmax)
  end.
  exists p. split; [exact Hself |]. split; [exact Hp |].
  split; [exact Hlen | exact Hmax].
Defined.

(** * [utils/kmeans.py] *)

(** ** [batched_bincount] counts *)

Lemma length_add_at (i : nat) (v : Z) (t : list Z) :
  length (add_at i v t) = length t.
Proof.
  revert i. induction t as [| a t IH]; intros [| i]; cbn; try reflexivity.
  rewrite IH. reflexivity.
Qed.

Lemma nth_add_at (i k : nat) (v : Z) (t : list Z) :
  i < length t ->
  nth k (add_at i v t) 0%Z
  = if Nat.eqb k i then int64 (nth k t 0 + v)%Z else nth k t 0%Z.
Proof.
  revert i k. induction t as [| a t IH]; intros i k Hi; cbn in Hi; [lia |].
  destruct i as [| i], k as [| k]; cbn; try reflexivity.
  apply IH. lia.
Qed.

(** What [scatter_add_] with ones leaves in a row whose counts cannot
    overflow: every index was a position of the row, and every position has
    gained the number of its occurrences. *)
Lemma scatter_add_row_ones (index : list Z) :
  forall (target t' : list Z) (bound : Z),
    Forall (fun a => 0 <= a <= bound)%Z target ->
    (bound + Z.of_nat (length index) < 2 ^ 63)%Z ->
    scatter_add_row target index (map (fun _ => 1%Z) index) = Ok t' ->
    length t' = length target
    /\ Forall (fun i => 0 <= i < Z.of_nat (length target))%Z index
    /\ forall k, k < length target ->
         nth k t' 0%Z
         = (nth k target 0 + Z.of_nat (count_occ Z.eq_dec index (Z.of_nat k)))%Z.
Proof.
  induction index as [| i index IH]; intros target t' bound Hb Hlen H.
  - cbn in H. injection H as <-. split; [reflexivity |].
    split; [constructor |]. intros k _. cbn. lia.
  - cbn [map scatter_add_row] in H.
    destruct ((0 <=? i) && (i <? Z.of_nat (length target)))%Z eqn:Hi;
      [| discriminate].
    apply andb_true_iff in Hi. destruct Hi as [Hi0 Hi1].
    apply Z.leb_le in Hi0. apply Z.ltb_lt in Hi1.
    cbn [length] in Hlen.
    assert (Z.to_nat i < length target) as Hin by lia.
    assert (Forall (fun a => 0 <= a <= bound + 1)%Z (add_at (Z.to_nat i) 1 target))
      as Hb'.
    { apply Forall_forall. intros a Ha.
      apply (In_nth _ _ 0%Z) in Ha. destruct Ha as (k & Hk & <-).
      rewrite length_add_at in Hk. rewrite nth_add_at by exact Hin.
      rewrite Forall_forall in Hb.
      pose proof (Hb (nth k target 0%Z) (nth_In _ _ Hk)) as Hk'.
      destruct (Nat.eqb k (Z.to_nat i)); [| lia].
      rewrite int64_small; lia. }
    destruct (IH _ t' (bound + 1)%Z Hb' ltac:(lia) H) as (Hl & Hall & Hnth).
    rewrite length_add_at in Hl, Hall, Hnth.
    split; [exact Hl |]. split; [constructor; [lia | exact Hall] |].
    intros k Hk. rewrite (Hnth k Hk), nth_add_at by exact Hin.
    rewrite Forall_forall in Hb.
    pose proof (Hb (nth k target 0%Z) (nth_In _ _ Hk)) as Hk'.
    cbn [count_occ].
    destruct (Nat.eqb_spec k (Z.to_nat i)) as [-> | Hne].
    + rewrite Z2Nat.id by lia.
      destruct (Z.eq_dec i i); [| contradiction].
      rewrite int64_small by lia. lia.
    + destruct (Z.eq_dec i (Z.of_nat k)); [lia | reflexivity].
Qed.

(** It raises exactly when some index is not a position of the row. *)
Lemma scatter_add_row_defined (index : list Z) :
  forall target : list Z,
    Forall (fun i => 0 <= i < Z.of_nat (length target))%Z index ->
    exists t', scatter_add_row target index (map (fun _ => 1%Z) index) = Ok t'.
Proof.
  induction index as [| i index IH]; intros target H.
  - eexists. reflexivity.
  - inversion H as [| ? ? Hi Hrest]; subst. cbn [map scatter_add_row].
    replace ((0 <=? i) && (i <? Z.of_nat (length target)))%Z with true
      by (symmetry; apply andb_true_iff; split;
          [apply Z.leb_le | apply Z.ltb_lt]; lia).
    apply IH. rewrite length_add_at. exact Hrest.
Qed.

Lemma scatter_add_row_raises (index : list Z) :
  forall target : list Z,
    Exists (fun i => ~ (0 <= i < Z.of_nat (length target))%Z) index ->
    scatter_add_row target index (map (fun _ => 1%Z) index) = Err RuntimeError.
Proof.
  induction index as [| i index IH]; intros target H.
  - inversion H.
  - cbn [map scatter_add_row].
    destruct ((0 <=? i) && (i <? Z.of_nat (length target)))%Z eqn:Hi;
      [| reflexivity].
    apply andb_true_iff in Hi. destruct Hi as [Hi0 Hi1].
    apply Z.leb_le in Hi0. apply Z.ltb_lt in Hi1.
    inversion H as [? ? Hbad | ? ? Hrest]; subst; [lia |].
    apply IH. rewrite length_add_at. exact Hrest.
Qed.

Lemma Zsum_add_at (i : nat) (t : list Z) (bound : Z) :
  i < length t ->
  Forall (fun a => 0 <= a <= bound)%Z t ->
  (bound + 1 < 2 ^ 63)%Z ->
  Zsum (add_at i 1 t) = (Zsum t + 1)%Z.
Proof.
  revert i. induction t as [| a t IH]; intros i Hi Hb Hlt; cbn in Hi; [lia |].
  inversion Hb as [| ? ? Ha Ht]; subst.
  destruct i as [| i]; cbn [add_at Zsum fold_right].
  - rewrite int64_small by lia. lia.
  - fold (Zsum (add_at i 1 t)). fold (Zsum t).
    rewrite IH by (try assumption; lia). lia.
Qed.

Lemma Forall_add_at (i : nat) (t : list Z) (bound : Z) :
  i < length t ->
  Forall (fun a => 0 <= a <= bound)%Z t ->
  (bound + 1 < 2 ^ 63)%Z ->
  Forall (fun a => 0 <= a <= bound + 1)%Z (add_at i 1 t).
Proof.
  intros Hin Hb Hlt. apply Forall_forall. intros a Ha.
  apply (In_nth _ _ 0%Z) in Ha. destruct Ha as (k & Hk & <-).
  rewrite length_add_at in Hk. rewrite nth_add_at by exact Hin.
  rewrite Forall_forall in Hb.
  pose proof (Hb (nth k t 0%Z) (nth_In _ _ Hk)) as Hk'.
  destruct (Nat.eqb k i); [| lia].
  rewrite int64_small; lia.
Qed.

(** The row gains one for every index. *)
Lemma scatter_add_row_sum (index : list Z) :
  forall (target t' : list Z) (bound : Z),
    Forall (fun a => 0 <= a <= bound)%Z target ->
    (bound + Z.of_nat (length index) < 2 ^ 63)%Z ->
    scatter_add_row target index (map (fun _ => 1%Z) index) = Ok t' ->
    Zsum t' = (Zsum target + Z.of_nat (length index))%Z.
Proof.
  induction index as [| i index IH]; intros target t' bound Hb Hlen H.
  - cbn in H. injection H as <-. cbn. lia.
  - cbn [map scatter_add_row] in H.
    destruct ((0 <=? i) && (i <? Z.of_nat (length target)))%Z eqn:Hi;
      [| discriminate].
    apply andb_true_iff in Hi. destruct Hi as [Hi0 Hi1].
    apply Z.leb_le in Hi0. apply Z.ltb_lt in Hi1.
    cbn [length] in Hlen.
    assert (Z.to_nat i < length target) as Hin by lia.
    rewrite (IH _ t' (bound + 1)%Z
               (Forall_add_at _ _ bound Hin Hb ltac:(lia)) ltac:(lia) H).
    rewrite (Zsum_add_at _ _ bound Hin Hb) by lia.
    cbn [length]. lia.
Qed.

Lemma combine_repeat {A B} (z : A) (k : nat) (l : list B) :
  length l = k -> combine (repeat z k) l = map (fun b => (z, b)) l.
Proof.
  revert k. induction l as [| b l IH]; intros k Hk; cbn in Hk; subst k.
  - reflexivity.
  - cbn. rewrite IH by reflexivity. reflexivity.
Qed.

Lemma Forall2_nth {A B} (P : A -> B -> Prop) (l : list A) (r : list B)
      (da : A) (db : B) (i : nat) :
  Forall2 P l r -> i < length l -> P (nth i l da) (nth i r db).
Proof.
  intros H. revert i. induction H as [| a b l r Hab _ IH]; intros i Hi;
    cbn in Hi; [lia |].
  destruct i as [| i]; cbn; [exact Hab | apply IH; lia].
Qed.

Lemma Zsum_zeros (m : nat) : Zsum (repeat 0%Z m) = 0%Z.
Proof. induction m as [| m IH]; cbn; [reflexivity | exact IH]. Qed.

Lemma Forall2_with_left {A B} (P : A -> B -> Prop) (Q : A -> Prop)
      (l : list A) (r : list B) :
  Forall2 P l r -> Forall Q l -> Forall2 (fun a b => P a b /\ Q a) l r.
Proof.
  induction 1 as [| a b l r Hab _ IH]; intros HQ; constructor;
    inversion HQ; subst; auto.
Qed.

Section Bincount.
Variable x : tensor Z.
Variable minlength : Z.
Variables batch n : nat.
Hypothesis Hshape : shape x = [batch; n].
Hypothesis Hws : well_shaped x.

Local Abbreviation m := (Z.to_nat minlength).
Local Abbreviation count_row :=
  (fun idx : list Z => scatter_add_row (repeat 0%Z m) idx (map (fun _ => 1%Z) idx)).

Lemma rows_of_input : rows_of x = chunks batch n (data x).
Proof. unfold rows_of. rewrite Hshape. reflexivity. Qed.

Lemma length_data_input : length (data x) = batch * n.
Proof. unfold well_shaped in Hws. rewrite Hws, Hshape. cbn. lia. Qed.

Lemma bincount_rows_lengths : Forall (fun idx => length idx = n) (rows_of x).
Proof.
  rewrite rows_of_input. apply Forall_length_chunks. exact length_data_input.
Qed.

(** The early return of [scatter_add_] for an index without elements agrees
    with the general path. *)
Lemma bincount_empty :
  numel (shape x) = 0 ->
  mapM count_row (rows_of x) = Ok (repeat (repeat 0%Z m) batch).
Proof.
  intros H0. rewrite Hshape in H0. cbn in H0.
  rewrite rows_of_input.
  assert (data x = []) as Hd.
  { pose proof length_data_input as Hl.
    destruct (data x); [reflexivity | cbn in Hl; nia]. }
  rewrite Hd. clear.
  induction batch as [| k IH]; cbn; [reflexivity |].
  rewrite firstn_nil, skipn_nil. cbn. rewrite IH. reflexivity.
Qed.

(** [batched_bincount] by rows. *)
Lemma batched_bincount_inv (target : tensor Z) :
  batched_bincount x minlength = Ok target ->
  (0 <= minlength)%Z
  /\ shape target = [batch; m]
  /\ exists rows,
       mapM count_row (rows_of x) = Ok rows /\ data target = concat rows.
Proof.
  unfold batched_bincount. rewrite Hshape.
  destruct (0 <=? minlength)%Z eqn:Hm; cbn [guard bind]; [| discriminate].
  apply Z.leb_le in Hm. rewrite <- Hshape.
  destruct (numel (shape x) =? 0) eqn:H0.
  - apply Nat.eqb_eq in H0. intros H. injection H as <-.
    split; [exact Hm |]. split; [reflexivity |].
    eexists. split; [apply bincount_empty; exact H0 | reflexivity].
  - rewrite combine_repeat by apply length_chunks.
    rewrite mapM_map. cbn [fst snd]. rewrite <- rows_of_input.
    destruct (mapM count_row (rows_of x)) as [rows | e] eqn:Hrows;
      cbn [bind]; [| discriminate].
    intros H. injection H as <-.
    split; [exact Hm |]. split; [reflexivity |].
    exists rows. split; reflexivity.
Qed.

Lemma batched_bincount_rows (target : tensor Z) :
  (Z.of_nat n < 2 ^ 63)%Z ->
  batched_bincount x minlength = Ok target ->
  shape target = [batch; m]
  /\ well_shaped target
  /\ Forall2 (fun idx row => count_row idx = Ok row /\ length row = m)
             (rows_of x) (rows_of target).
Proof.
  intros Hn H. apply batched_bincount_inv in H.
  destruct H as (Hm & Hs & rows & Hrows & Hdata).
  pose proof (mapM_length _ _ _ Hrows) as Hlen.
  rewrite rows_of_input, length_chunks in Hlen.
  assert (Forall2 (fun idx row => count_row idx = Ok row /\ length row = m)
                  (rows_of x) rows) as HF.
  { apply mapM_inv in Hrows.
    pose proof (Forall2_with_left _ _ _ _ Hrows bincount_rows_lengths) as HF.
    eapply Forall2_impl; [| exact HF].
    intros idx row [Hir Hidx]. split; [exact Hir |].
    destruct (scatter_add_row_ones idx (repeat 0%Z m) row 0%Z) as (Hl & _).
    - apply Forall_forall. intros a Ha. apply repeat_spec in Ha. lia.
    - lia.
    - exact Hir.
    - rewrite Hl. apply repeat_length. }
  assert (Forall (fun row => length row = m) rows) as Hrl.
  { clear - HF. induction HF as [| ? ? ? ? [_ H] _ IH]; constructor; assumption. }
  split; [exact Hs |]. split.
  - unfold well_shaped. rewrite Hs, Hdata, (length_concat_const m) by exact Hrl.
    rewrite Hlen. cbn. lia.
  - unfold rows_of at 2. rewrite Hs, Hdata. cbn [nth].
    rewrite <- Hlen, chunks_concat by exact Hrl. exact HF.
Qed.
End Bincount.

Lemma scatter_add_row_error (index : list Z) :
  forall (target values : list Z) (e : error),
    scatter_add_row target index values = Err e -> e = RuntimeError.
Proof.
  induction index as [| i index IH]; intros target values e H; cbn in H.
  - discriminate.
  - destruct values as [| v values]; [discriminate |].
    destruct ((0 <=? i) && (i <? Z.of_nat (length target)))%Z.
    + eapply IH. exact H.
    + injection H as <-. reflexivity.
Qed.

Lemma mapM_raises {A B} (f : A -> result B) (l : list A) (e : error) :
  (forall a e', In a l -> f a = Err e' -> e' = e) ->
  (exists a, In a l /\ f a = Err e) ->
  mapM f l = Err e.
Proof.
  induction l as [| a l IH]; intros Hall (a0 & Hin & Ha0); [contradiction |].
  cbn. destruct (f a) as [b | e'] eqn:Hfa.
  - destruct Hin as [-> | Hin]; [congruence |].
    rewrite IH; [reflexivity | |].
    + intros a1 e1 H1. apply Hall. right. exact H1.
    + exists a0. split; assumption.
  - cbn. rewrite (Hall a e' (or_introl eq_refl) Hfa). reflexivity.
Qed.

Lemma Exists_concat {A} (P : A -> Prop) (ls : list (list A)) :
  Exists P (concat ls) -> exists l, In l ls /\ Exists P l.
Proof.
  induction ls as [| l ls IH]; cbn; intros H; [inversion H |].
  apply Exists_app in H. destruct H as [H | H].
  - exists l. split; [left; reflexivity | exact H].
  - destruct (IH H) as (l' & Hin & Hl'). exists l'. split; [right |]; assumption.
Qed.

(** The entries of the result of [batched_bincount] are the counts: entry
    [k] of row [r] is the number of times [k] occurs in row [r] of [x]
    (rows shorter than 2^63, so that no int64 count overflows). *)
Theorem batched_bincount_counts :
  forall (x : tensor Z) (minlength : Z) (batch n : nat) (target : tensor Z),
    shape x = [batch; n] ->
    well_shaped x ->
    (Z.of_nat n < 2 ^ 63)%Z ->
    batched_bincount x minlength = Ok target ->
    shape target = [batch; Z.to_nat minlength]
    /\ well_shaped target
    /\ forall r k, r < batch -> k < Z.to_nat minlength ->
         nth k (nth r (rows_of target) []) 0%Z
         = Z.of_nat (count_occ Z.eq_dec (nth r (rows_of x) []) (Z.of_nat k)).
Proof.
  intros x minlength batch n target Hshape Hws Hn H.
  destruct (batched_bincount_rows x minlength batch n Hshape Hws target Hn H)
    as (Hs & Hw & HF).
  split; [exact Hs |]. split; [exact Hw |].
  intros r k Hr Hk.
  assert (r < length (rows_of x)) as Hr'
      by (rewrite (rows_of_input x batch n Hshape), length_chunks; exact Hr).
  destruct (Forall2_nth _ _ _ [] [] r HF Hr') as [Hrow _].
  pose proof (proj1 (Forall_nth _ _)
                (bincount_rows_lengths x batch n Hshape Hws) r [] Hr') as Hlen.
  cbn beta in Hlen.
  destruct (scatter_add_row_ones (nth r (rows_of x) [])
              (repeat 0%Z (Z.to_nat minlength)) (nth r (rows_of target) []) 0%Z)
    as (_ & _ & Hnth).
  { apply Forall_forall. intros a Ha. apply repeat_spec in Ha. lia. }
  { rewrite Hlen. lia. }
  { exact Hrow. }
  rewrite Hnth by (rewrite repeat_length; exact Hk).
  rewrite nth_repeat. lia.
Qed.

Lemma batched_bincount_counts_witness :
  exists target,
    batched_bincount bincount_input 3 = Ok target
    /\ shape target = [2; 3]
    /\ well_shaped target
    /\ forall r k, r < 2 -> k < 3 ->
         nth k (nth r (rows_of target) []) 0%Z
         = Z.of_nat (count_occ Z.eq_dec (nth r (rows_of bincount_input) [])
                               (Z.of_nat k)).
Proof.
  eexists. split; [reflexivity |].
  apply (batched_bincount_counts bincount_input 3 2 4);
    [reflexivity | reflexivity | vm_compute; reflexivity | reflexivity].
Defined.

(** Each row of the result of [batched_bincount] adds up to the length of
    a row of [x]: every sample is counted once. *)
Theorem batched_bincount_row_sums :
  forall (x : tensor Z) (minlength : Z) (batch n : nat) (target : tensor Z),
    shape x = [batch; n] ->
    well_shaped x ->
    (Z.of_nat n < 2 ^ 63)%Z ->
    batched_bincount x minlength = Ok target ->
    forall r, r < batch -> Zsum (nth r (rows_of target) []) = Z.of_nat n.
Proof.
  intros x minlength batch n target Hshape Hws Hn H r Hr.
  destruct (batched_bincount_rows x minlength batch n Hshape Hws target Hn H)
    as (_ & _ & HF).
  assert (r < length (rows_of x)) as Hr'
      by (rewrite (rows_of_input x batch n Hshape), length_chunks; exact Hr).
  destruct (Forall2_nth _ _ _ [] [] r HF Hr') as [Hrow _].
  pose proof (proj1 (Forall_nth _ _)
                (bincount_rows_lengths x batch n Hshape Hws) r [] Hr') as Hlen.
  cbn beta in Hlen.
  rewrite (scatter_add_row_sum (nth r (rows_of x) [])
             (repeat 0%Z (Z.to_nat minlength)) (nth r (rows_of target) []) 0%Z).
  - rewrite Zsum_zeros, Hlen. lia.
  - apply Forall_forall. intros a Ha. apply repeat_spec in Ha. lia.
  - rewrite Hlen. lia.
  - exact Hrow.
Qed.

Lemma batched_bincount_row_sums_witness :
  exists target,
    batched_bincount bincount_input 3 = Ok target
    /\ forall r, r < 2 -> Zsum (nth r (rows_of target) []) = 4%Z.
Proof.
  eexists. split; [reflexivity |].
  apply (batched_bincount_row_sums bincount_input 3 2 4);
    [reflexivity | reflexivity | vm_compute; reflexivity | reflexivity].
Defined.

(** [batched_bincount] returns exactly when every element of [x] is an
    index below [minlength] that is not negative; else it raises
    [RuntimeError]. *)
Theorem batched_bincount_index_range :
  forall (x : tensor Z) (minlength : Z) (batch n : nat),
    shape x = [batch; n] ->
    well_shaped x ->
    (0 <= minlength)%Z ->
    (Forall (fun i => 0 <= i < minlength)%Z (data x) ->
     exists target, batched_bincount x minlength = Ok target)
    /\ (Exists (fun i => ~ (0 <= i < minlength)%Z) (data x) ->
        batched_bincount x minlength = Err RuntimeError).
Proof.
  intros x minlength batch n Hshape Hws Hm.
  pose proof (length_data_input x batch n Hshape Hws) as Hlen.
  assert (Z.of_nat (length (repeat 0%Z (Z.to_nat minlength))) = minlength)
    as Hrep by (rewrite repeat_length; lia).
  unfold batched_bincount. rewrite Hshape.
  replace (0 <=? minlength)%Z with true by (symmetry; apply Z.leb_le; exact Hm).
  cbn [guard bind].
  rewrite combine_repeat by apply length_chunks.
  rewrite mapM_map. cbn [fst snd].
  split.
  - intros Hall.
    destruct (numel [batch; n] =? 0); [eexists; reflexivity |].
    destruct (mapM_defined
                (fun idx => scatter_add_row (repeat 0%Z (Z.to_nat minlength)) idx
                              (map (fun _ => 1%Z) idx))
                (chunks batch n (data x))) as [rows Hrows].
    + intros idx Hidx. apply scatter_add_row_defined.
      apply Forall_forall. intros i Hi. rewrite Hrep.
      rewrite Forall_forall in Hall. apply Hall.
      eapply in_chunks; eassumption.
    + rewrite Hrows. cbn [bind]. eexists. reflexivity.
  - intros Hex.
    destruct (numel [batch; n] =? 0) eqn:H0.
    + apply Nat.eqb_eq in H0. cbn in H0.
      destruct (data x); [inversion Hex | cbn in Hlen; nia].
    + rewrite (mapM_raises _ _ RuntimeError); [reflexivity | |].
      * intros idx e _ He. eapply scatter_add_row_error. exact He.
      * rewrite <- (concat_chunks batch n (data x) Hlen) in Hex.
        apply Exists_concat in Hex. destruct Hex as (idx & Hin & Hbad).
        exists idx. split; [exact Hin |].
        apply scatter_add_row_raises. rewrite Hrep. exact Hbad.
Qed.

Lemma batched_bincount_index_range_witness :
  (exists target, batched_bincount bincount_input 3 = Ok target)
  /\ batched_bincount bincount_input 2 = Err RuntimeError.
Proof.
  split.
  - apply (batched_bincount_index_range bincount_input 3 2 4);
      [reflexivity | reflexivity | lia |].
    repeat constructor; lia.
  - apply (batched_bincount_index_range bincount_input 2 2 4);
      [reflexivity | reflexivity | lia |].
    apply Exists_exists. exists 2%Z. split; [cbn; tauto | lia].
Defined.
